(** * LivreMele Remeleur: asset bundling, redaction and export

    A shallow embedding of the document pipeline of the application
    (src/services/svgProcessor.ts, src/services/pdfGenerator.ts,
    src/utils/helpers.ts, src/App.tsx, src/components/TaggingEditor.tsx)
    and the properties of it that the specification states.

    Modelling conventions.
    - A JavaScript string is the list of its UTF-16 code units; [length]
      is JavaScript's [.length].
    - Markup text is identified with the DOM tree that [DOMParser] builds
      from it and that [XMLSerializer] writes back; a text that does not
      parse is the error document, recognised as the code recognises it, by
      a [parsererror] element.  Comments, CDATA sections and processing
      instructions are not represented.
    - JavaScript numbers are exact rationals, with [None] for NaN;
      rounding and infinities are outside the model.
    - What the browser provides (URL parsing, fetch, Math.random,
      FileReader, parseFloat, CSS style parsing, canvas rasterisation, and
      the exceptions these may raise) is gathered in a record [Env];
      theorems hold for every environment. *)

From Stdlib Require Import List Bool Arith NArith ZArith QArith Lia.
From Stdlib Require Import String Ascii Permutation.
Import ListNotations.

Set Implicit Arguments.
Close Scope Q_scope.
Local Open Scope nat_scope.
Local Open Scope list_scope.

(* ================================================================= *)
(** ** JavaScript strings *)

Module JS.

Definition jsstring := list N.

(** An ASCII literal as a JavaScript string. *)
Definition js (s : string) : jsstring :=
  map N_of_ascii (list_ascii_of_string s).

Fixpoint eqb (a b : jsstring) : bool :=
  match a, b with
  | [], [] => true
  | x :: a', y :: b' => N.eqb x y && eqb a' b'
  | _, _ => false
  end.

Definition is_empty (s : jsstring) : bool :=
  match s with [] => true | _ => false end.

(** Truthiness of [string | null | undefined]: present and not empty. *)
Definition truthy (o : option jsstring) : option jsstring :=
  match o with
  | Some (c :: s) => Some (c :: s)
  | _ => None
  end.

(** [a || b] on possibly absent strings. *)
Definition or_else (a b : option jsstring) : option jsstring :=
  match truthy a with
  | Some s => Some s
  | None => b
  end.

Fixpoint startsWith (p s : jsstring) : bool :=
  match p, s with
  | [], _ => true
  | x :: p', y :: s' => N.eqb x y && startsWith p' s'
  | _ :: _, [] => false
  end.

Definition endsWith (p s : jsstring) : bool :=
  startsWith (rev p) (rev s).

(** [hay.includes(needle)] *)
Fixpoint includes (needle hay : jsstring) : bool :=
  startsWith needle hay ||
  match hay with
  | [] => false
  | _ :: hay' => includes needle hay'
  end.

(** [s.split(c)] for a one-character separator: never the empty list. *)
Fixpoint split (c : N) (s : jsstring) : list jsstring :=
  match s with
  | [] => [[]]
  | x :: s' =>
      if N.eqb x c then [] :: split c s'
      else match split c s' with
           | [] => [[x]]
           | w :: ws => (x :: w) :: ws
           end
  end.

(** [l.join(c)] *)
Fixpoint join (c : N) (l : list jsstring) : jsstring :=
  match l with
  | [] => []
  | [w] => w
  | w :: ws => w ++ c :: join c ws
  end.

(** ASCII letters only: every comparison the program makes after
    lowering is with an ASCII literal none of whose letters is the lower
    case of a character outside ASCII. *)
Definition lower_unit (c : N) : N :=
  if (65 <=? c)%N && (c <=? 90)%N then (c + 32)%N else c.

Definition toLowerCase (s : jsstring) : jsstring := map lower_unit s.

(** The code units matched by [\s] (and stripped by [trim]). *)
Definition is_ws (c : N) : bool :=
  ((9 <=? c) && (c <=? 13) || (c =? 32) || (c =? 160) || (c =? 5760)
   || (8192 <=? c) && (c <=? 8202) || (c =? 8232) || (c =? 8233)
   || (c =? 8239) || (c =? 8287) || (c =? 12288) || (c =? 65279))%N.

(** The replacement text of [s.replace(pat, rep)] for a string pattern,
    which has no captures: [$$] stands for a dollar sign, [$&] for the
    matched text, [$`] for the text before the match and [$'] for the
    text after it; any other dollar sign stands for itself. *)
Fixpoint substitution (matched before after rep : jsstring) : jsstring :=
  match rep with
  | [] => []
  | c :: r =>
      if N.eqb c 36 then
        match r with
        | d :: r' =>
            if N.eqb d 36 then 36%N :: substitution matched before after r'
            else if N.eqb d 38
                 then matched ++ substitution matched before after r'
            else if N.eqb d 96
                 then before ++ substitution matched before after r'
            else if N.eqb d 39
                 then after ++ substitution matched before after r'
            else c :: substitution matched before after r
        | [] => [c]
        end
      else c :: substitution matched before after r
  end.

(** [s.replace(pat, rep)] with a string pattern: the first occurrence
    only; [before] is the text already passed. *)
Fixpoint replace_from (before pat rep s : jsstring) : jsstring :=
  if startsWith pat s
  then substitution pat before (skipn (List.length pat) s) rep
       ++ skipn (List.length pat) s
  else match s with
       | [] => []
       | x :: s' => x :: replace_from (before ++ [x]) pat rep s'
       end.

Definition replace_first (pat rep s : jsstring) : jsstring :=
  replace_from [] pat rep s.

(** [s.substring(s.lastIndexOf(c) + 1)] *)
Definition after_last (c : N) (s : jsstring) : jsstring :=
  last (split c s) [].

Definition comma : N := 44.
Definition slash : N := 47.
Definition dot : N := 46.
Definition qmark : N := 63.

End JS.

Export JS.

(* ================================================================= *)
(** ** The DOM *)

Module Dom.

Definition Attrs := list (jsstring * jsstring).

#[local] Unset Elimination Schemes.
Inductive Node : Type :=
| Elem (name : jsstring) (attrs : Attrs) (children : list Node)
| Text (data : jsstring).
#[local] Set Elimination Schemes.

(** Induction over a tree, with the property known of every child. *)
#[local] Unset Implicit Arguments.
Fixpoint Node_ind (P : Node -> Prop)
         (HText : forall d, P (Text d))
         (HElem : forall nm a ch, Forall P ch -> P (Elem nm a ch))
         (n : Node) {struct n} : P n :=
  match n with
  | Text d => HText d
  | Elem nm a ch =>
      HElem nm a ch
            ((fix all (l : list Node) : Forall P l :=
                match l with
                | [] => @Forall_nil Node P
                | c :: r =>
                    @Forall_cons Node P c r (Node_ind P HText HElem c) (all r)
                end) ch)
  end.
#[local] Set Implicit Arguments.

(** An element as the program sees it: name, attributes, children. *)
Definition Element : Type := jsstring * Attrs * list Node.
Definition el_name (e : Element) : jsstring := fst (fst e).
Definition el_attrs (e : Element) : Attrs := snd (fst e).
Definition el_children (e : Element) : list Node := snd e.

Fixpoint getAttribute (k : jsstring) (a : Attrs) : option jsstring :=
  match a with
  | [] => None
  | (k', v) :: a' => if JS.eqb k k' then Some v else getAttribute k a'
  end.

Definition hasAttribute (k : jsstring) (a : Attrs) : bool :=
  match getAttribute k a with Some _ => true | None => false end.

Fixpoint setAttribute (k v : jsstring) (a : Attrs) : Attrs :=
  match a with
  | [] => [(k, v)]
  | (k', v') :: a' =>
      if JS.eqb k k' then (k', v) :: a' else (k', v') :: setAttribute k v a'
  end.

Fixpoint removeAttribute (k : jsstring) (a : Attrs) : Attrs :=
  match a with
  | [] => []
  | (k', v') :: a' =>
      if JS.eqb k k' then removeAttribute k a'
      else (k', v') :: removeAttribute k a'
  end.

(** Every element of a tree, in document order, the root included. *)
Fixpoint elements (n : Node) : list Element :=
  match n with
  | Text _ => []
  | Elem nm a ch => (nm, a, ch) :: flat_map elements ch
  end.

Definition getElementsByTagName (tag : jsstring) (n : Node) : list Element :=
  filter (fun e => JS.eqb tag (el_name e)) (elements n).

(** [node.textContent] *)
Fixpoint textContent (n : Node) : jsstring :=
  match n with
  | Text d => d
  | Elem _ _ ch => flat_map textContent ch
  end.

Definition has_id (id : jsstring) (e : Element) : bool :=
  match getAttribute (js "id") (el_attrs e) with
  | Some v => JS.eqb v id
  | None => false
  end.

Definition getElementById (id : jsstring) (n : Node) : option Element :=
  find (has_id id) (elements n).

(** The text leaves of a tree, in document order. *)
Fixpoint text_leaves (n : Node) : list jsstring :=
  match n with
  | Text d => [d]
  | Elem _ _ ch => flat_map text_leaves ch
  end.

(** Visit every element in document order, threading a state, and let
    [f] rewrite its attributes. *)
Section Visit.
Variable St : Type.
Variable f : jsstring -> Attrs -> St -> Attrs * St.

Fixpoint visit (n : Node) (s : St) {struct n} : Node * St :=
  match n with
  | Text d => (Text d, s)
  | Elem nm a ch =>
      let '(a', s1) := f nm a s in
      let '(ch', s2) :=
        (fix go (l : list Node) (s : St) {struct l} : list Node * St :=
           match l with
           | [] => ([], s)
           | c :: r =>
               let '(c', s') := visit c s in
               let '(r', s'') := go r s' in
               (c' :: r', s'')
           end) ch s1 in
      (Elem nm a' ch', s2)
  end.
End Visit.

(** The same without a state. *)
Fixpoint map_attrs (f : jsstring -> Attrs -> Attrs) (n : Node) : Node :=
  match n with
  | Text d => Text d
  | Elem nm a ch => Elem nm (f nm a) (map (map_attrs f) ch)
  end.

(** *** Namespaces *)

Definition SVG_NS : jsstring := js "http://www.w3.org/2000/svg".

(** The default namespace in scope below an element: what its xmlns
    attribute declares (the empty value undeclares), or else what it
    inherits.  It is the namespace of the elements without prefix. *)
Definition in_scope (inherited : option jsstring) (a : Attrs)
  : option jsstring :=
  match getAttribute (js "xmlns") a with
  | Some ns => truthy (Some ns)
  | None => inherited
  end.

(** The attributes with which the serializer writes an element made by
    [createElementNS(SVG_NS, ...)] below a parent whose default namespace
    is [scope]: the namespace is declared, in front, unless it is the one
    in scope.  (A prefix bound to the SVG namespace, which a serializer
    may use instead, is outside the model.) *)
Definition declared (scope : option jsstring) (a : Attrs) : Attrs :=
  match scope with
  | Some ns => if JS.eqb ns SVG_NS then a else (js "xmlns", SVG_NS) :: a
  | None => (js "xmlns", SVG_NS) :: a
  end.

(** The first element of a name in document order, with the default
    namespace in scope at it. *)
Fixpoint first_in_scope (tag : jsstring) (scope : option jsstring)
         (n : Node) {struct n} : option (Element * option jsstring) :=
  match n with
  | Text _ => None
  | Elem nm a ch =>
      if JS.eqb tag nm then Some ((nm, a, ch), in_scope scope a)
      else
        (fix go (l : list Node) : option (Element * option jsstring) :=
           match l with
           | [] => None
           | c :: r =>
               match first_in_scope tag (in_scope scope a) c with
               | Some x => Some x
               | None => go r
               end
           end) ch
  end.

End Dom.

Export Dom.

(* ================================================================= *)
(** ** Types (src/types.ts) and the environment *)

Definition Blob := list N.

Inductive ProcessingStatus := IDLE | PENDING | PROCESSING | COMPLETED | ERROR.

Record LocalAsset := {
  originalUrl : jsstring;
  localFileName : jsstring;
  blob : Blob
}.

Record File := {
  file_name : jsstring;
  file_text : option Node
}.

(** [processedContent] is [None] for [null] and for the empty text,
    which is as falsy. *)
Record ProcessedSVG := {
  id : jsstring;
  originalFile : File;
  processedContent : option Node;
  status : ProcessingStatus;
  assets : list LocalAsset;
  errors : list jsstring;
  progress : nat
}.

(** [Map<string, Blob>], in insertion order. *)
Definition AssetPool := list (jsstring * Blob).

Fixpoint pool_get (k : jsstring) (m : AssetPool) : option Blob :=
  match m with
  | [] => None
  | (k', v) :: m' => if JS.eqb k k' then Some v else pool_get k m'
  end.

Definition pool_has (k : jsstring) (m : AssetPool) : bool :=
  match pool_get k m with Some _ => true | None => false end.

Fixpoint pool_set (k : jsstring) (v : Blob) (m : AssetPool) : AssetPool :=
  match m with
  | [] => [(k, v)]
  | (k', v') :: m' =>
      if JS.eqb k k' then (k', v) :: m' else (k', v') :: pool_set k v m'
  end.

(** What [await fetch(href)] gives: a rejection, or a response whose
    body may in turn fail to be read. *)
Inductive FetchResult :=
| NetworkError (message : jsstring)
| Response (ok : bool) (contentType : option jsstring)
           (body : jsstring + Blob).

(** The statements of the export loop's [try] block that may raise. *)
Inductive Stage :=
| Redact | Embed | Measure | AddPage | Rasterize | AddImage
| CoverAddPage | CoverFill.

Definition stage_eqb (a b : Stage) : bool :=
  match a, b with
  | Redact, Redact | Embed, Embed | Measure, Measure | AddPage, AddPage
  | Rasterize, Rasterize | AddImage, AddImage
  | CoverAddPage, CoverAddPage | CoverFill, CoverFill => true
  | _, _ => false
  end.

Record Env := {
  (** [new URL(path).pathname], [None] when the constructor throws *)
  url_pathname : jsstring -> option jsstring;
  (** the n-th call of [fetch] *)
  fetch : nat -> jsstring -> FetchResult;
  (** the n-th [Math.random().toString(36).substring(2, 8)] *)
  random36 : nat -> jsstring;
  (** the n-th identifier that [generateId] draws *)
  random_id : nat -> jsstring;
  (** [FileReader.readAsDataURL] *)
  readAsDataURL : Blob -> jsstring;
  parseFloat : jsstring -> option Q;
  (** [element.style.backgroundColor], empty when there is none *)
  style_backgroundColor : Attrs -> jsstring;
  (** whether the elements of a namespace other than the SVG one have a
      [style] property (those of HTML have) *)
  has_style : jsstring -> bool;
  (** the JPEG data URL of the page drawn on a white canvas *)
  canvas_toDataURL : Node -> Q -> Q -> jsstring;
  (** the statement at which the processing of page [i] raises, if any *)
  raises : nat -> option Stage
}.

(* ================================================================= *)
(** ** src/utils/helpers.ts *)

Module Helpers.

Definition getFilename (env : Env) (path : jsstring) : jsstring :=
  match url_pathname env path with
  | Some pathname => after_last slash pathname
  | None =>
      match hd [] (split qmark (last (split slash path) [])) with
      | [] => js "unknown"
      | name => name
      end
  end.

Definition isFontFile (name : jsstring) : bool :=
  let l := toLowerCase name in
  endsWith (js ".woff") l || endsWith (js ".woff2") l
  || endsWith (js ".ttf") l || endsWith (js ".otf") l
  || endsWith (js ".eot") l.

End Helpers.

Export Helpers.

(** The regular expression of the stylesheet scans: the letters url,
    optional white space, an opening parenthesis, an optional quote
    (single or double), one or more characters that are neither a quote
    nor a closing parenthesis (the captured group), an optional quote and
    a closing parenthesis; global, so matches do not overlap. *)
Module UrlRegex.

Definition is_quote (c : N) : bool := ((c =? 39) || (c =? 34))%N.
Definition is_close (c : N) : bool := (c =? 41)%N.
Definition in_run (c : N) : bool := negb (is_quote c || is_close c).

Fixpoint skip_ws (s : jsstring) : jsstring * nat :=
  match s with
  | c :: s' => if is_ws c then let '(r, n) := skip_ws s' in (r, S n)
               else (s, 0)
  | [] => ([], 0)
  end.

(** The longest prefix of run characters, and what follows it. *)
Fixpoint run (s : jsstring) : jsstring * jsstring :=
  match s with
  | c :: s' => if in_run c then let '(u, r) := run s' in (c :: u, r)
               else ([], s)
  | [] => ([], [])
  end.

(** A match that starts at the head of [s]: the captured group and
    the length of the whole match. *)
Definition match_at (s : jsstring) : option (jsstring * nat) :=
  if startsWith (js "url") s then
    let '(r1, nws) := skip_ws (skipn 3 s) in
    match r1 with
    | 40%N :: r2 =>
        let '(r3, nq1) :=
          match r2 with
          | c :: r => if is_quote c then (r, 1) else (r2, 0)
          | [] => (r2, 0)
          end in
        match run r3 with
        | ([], _) => None
        | (u, r4) =>
            let '(r5, nq2) :=
              match r4 with
              | c :: r => if is_quote c then (r, 1) else (r4, 0)
              | [] => (r4, 0)
              end in
            match r5 with
            | c :: _ =>
                if is_close c
                then Some (u, 3 + nws + 1 + nq1 + List.length u + nq2 + 1)
                else None
            | [] => None
            end
        end
    | _ => None
    end
  else None.

Fixpoint matchAll_from (skip : nat) (s : jsstring) : list jsstring :=
  match s with
  | [] => []
  | _ :: s' =>
      match skip with
      | S k => matchAll_from k s'
      | O =>
          match match_at s with
          | Some (u, len) => u :: matchAll_from (len - 1) s'
          | None => matchAll_from 0 s'
          end
      end
  end.

(** The first capture group of every match, left to right. *)
Definition matchAll (css : jsstring) : list jsstring := matchAll_from 0 css.

End UrlRegex.

(* ================================================================= *)
(** ** src/services/svgProcessor.ts *)

Module SvgProcessor.

(** *** bundleResources *)

(** The variables the closures of [bundleResources] share. *)
Record BState := {
  b_assets : list LocalAsset;
  b_errors : list jsstring;
  urlToFilenameMap : list (jsstring * jsstring);
  processedCount : nat;
  (** the calls of [onProgress]: it receives
      [floor(processedCount / totalItems * 100)] *)
  b_progress : list (nat * nat);
  b_randoms : nat;
  b_fetches : nat
}.

Definition initial : BState :=
  {| b_assets := []; b_errors := []; urlToFilenameMap := [];
     processedCount := 0; b_progress := []; b_randoms := 0;
     b_fetches := 0 |}.

Definition push_error (e : jsstring) (st : BState) : BState :=
  {| b_assets := b_assets st; b_errors := b_errors st ++ [e];
     urlToFilenameMap := urlToFilenameMap st;
     processedCount := processedCount st; b_progress := b_progress st;
     b_randoms := b_randoms st; b_fetches := b_fetches st |}.

(** [assets.push(...); urlToFilenameMap.set(href, localName)] *)
Definition record_asset (href localName : jsstring) (b : Blob) (st : BState)
  : BState :=
  {| b_assets := b_assets st ++
       [{| originalUrl := href; localFileName := localName; blob := b |}];
     b_errors := b_errors st;
     urlToFilenameMap := setAttribute href localName (urlToFilenameMap st);
     processedCount := processedCount st; b_progress := b_progress st;
     b_randoms := b_randoms st; b_fetches := b_fetches st |}.

Definition fetched (st : BState) : BState :=
  {| b_assets := b_assets st; b_errors := b_errors st;
     urlToFilenameMap := urlToFilenameMap st;
     processedCount := processedCount st; b_progress := b_progress st;
     b_randoms := b_randoms st; b_fetches := S (b_fetches st) |}.

Definition drawn_random (st : BState) : BState :=
  {| b_assets := b_assets st; b_errors := b_errors st;
     urlToFilenameMap := urlToFilenameMap st;
     processedCount := processedCount st; b_progress := b_progress st;
     b_randoms := S (b_randoms st); b_fetches := b_fetches st |}.

Definition updateProgress (totalItems : nat) (st : BState) : BState :=
  let c := S (processedCount st) in
  {| b_assets := b_assets st; b_errors := b_errors st;
     urlToFilenameMap := urlToFilenameMap st;
     processedCount := c;
     b_progress := if 0 <? totalItems then b_progress st ++ [(c, totalItems)]
                   else b_progress st;
     b_randoms := b_randoms st; b_fetches := b_fetches st |}.

Definition load_error (href message : jsstring) : jsstring :=
  js "Failed to load " ++ href ++ js ": " ++ message.

Section Bundle.
Variable env : Env.
Variable preloadedAssets : AssetPool.

(** The extension of a fetched asset's generated name. *)
Definition fetched_ext (targetFilename contentType : jsstring)
           (isFont : bool) : jsstring :=
  let ext := match last (split dot targetFilename) [] with
             | [] => js "bin"
             | e => e
             end in
  if isFont && negb (isFontFile targetFilename) then
    if includes (js "woff2") contentType then js "woff2"
    else if includes (js "woff") contentType then js "woff"
    else if includes (js "ttf") contentType then js "ttf"
    else ext
  else ext.

(** The local name of the asset, or [None] for [null]. *)
Definition processAsset (href : jsstring) (isFont : bool) (st : BState)
  : option jsstring * BState :=
  if is_empty href || startsWith (js "data:") href
     || startsWith (js "#") href
  then (None, st)
  else
    match truthy (getAttribute href (urlToFilenameMap st)) with
    | Some localName => (Some localName, st)
    | None =>
        let targetFilename := getFilename env href in
        match pool_get targetFilename preloadedAssets with
        | Some b =>
            (truthy (Some targetFilename),
             record_asset href targetFilename b st)
        | None =>
            if startsWith (js "http") href then
              let st1 := fetched st in
              match fetch env (b_fetches st) href with
              | NetworkError m => (None, push_error (load_error href m) st1)
              | Response false _ _ =>
                  (None,
                   push_error
                     (load_error href (js "Failed to fetch " ++ href)) st1)
              | Response true _ (inl m) =>
                  (None, push_error (load_error href m) st1)
              | Response true ct (inr b) =>
                  let contentType :=
                    match ct with Some c => c | None => [] end in
                  let ext := fetched_ext targetFilename contentType isFont in
                  let hash := random36 env (b_randoms st1) in
                  let localName := js "asset_" ++ hash ++ js "." ++ ext in
                  (truthy (Some localName),
                   record_asset href localName b (drawn_random st1))
              end
            else
              (* Relative path but not found locally *)
              (None, st)
        end
    end.

Variable totalItems : nat.

(** The body of the loop over the image elements. *)
Definition process_image (a : Attrs) (st : BState) : Attrs * BState :=
  let '(a', st') :=
    match truthy (or_else (getAttribute (js "href") a)
                          (getAttribute (js "xlink:href") a)) with
    | Some href =>
        match processAsset href false st with
        | (Some localName, st1) =>
            let relativePath := js "images/" ++ localName in
            let a1 := setAttribute (js "href") relativePath a in
            (if hasAttribute (js "xlink:href") a1
             then setAttribute (js "xlink:href") relativePath a1
             else a1, st1)
        | (None, st1) => (a, st1)
        end
    | None => (a, st)
    end in
  (a', updateProgress totalItems st').

Definition image_pass (doc : Node) (st : BState) : Node * BState :=
  visit (fun nm a st =>
           if JS.eqb nm (js "image") then process_image a st else (a, st))
        doc st.

(** The body of the loop over the matches of one style element. *)
Fixpoint process_matches (matches : list jsstring) (css : jsstring)
         (st : BState) : jsstring * BState :=
  match matches with
  | [] => (css, st)
  | url :: rest =>
      let '(css1, st1) :=
        if isFontFile url then
          match processAsset url true st with
          | (Some localName, st') =>
              (replace_first url (js "fonts/" ++ localName) css, st')
          | (None, st') => (css, st')
          end
        else (css, st) in
      process_matches rest css1 (updateProgress totalItems st1)
  end.

(** The loop over [fontReplacements].  A style element with matches
    gets its text replaced, which detaches what it contained; style
    elements inside it were collected before and are still processed. *)
Fixpoint style_pass (n : Node) (st : BState) {struct n} : Node * BState :=
  match n with
  | Text d => (Text d, st)
  | Elem nm a ch =>
      let go :=
        fix go (l : list Node) (st : BState) {struct l}
          : list Node * BState :=
          match l with
          | [] => ([], st)
          | c :: r =>
              let '(c', st1) := style_pass c st in
              let '(r', st2) := go r st1 in
              (c' :: r', st2)
          end in
      if JS.eqb nm (js "style") then
        let css := flat_map textContent ch in
        match UrlRegex.matchAll css with
        | [] => let '(ch', st') := go ch st in (Elem nm a ch', st')
        | matches =>
            let '(css', st1) := process_matches matches css st in
            let '(_, st2) := go ch st1 in
            (Elem nm a [Text css'], st2)
        end
      else let '(ch', st') := go ch st in (Elem nm a ch', st')
  end.
End Bundle.

Record BundleResult := {
  content : Node;
  r_assets : list LocalAsset;
  r_errors : list jsstring;
  r_progress : list (nat * nat)
}.

Definition count_font_items (doc : Node) : nat :=
  list_sum
    (map (fun e => List.length
                     (UrlRegex.matchAll (flat_map textContent (el_children e))))
         (getElementsByTagName (js "style") doc)).

(** The result, or the message of the error thrown. *)
Definition bundleResources (env : Env) (svgContent : Node)
           (preloadedAssets : AssetPool) : jsstring + BundleResult :=
  match getElementsByTagName (js "parsererror") svgContent with
  | _ :: _ => inl (js "Invalid SVG file format")
  | [] =>
      let totalItems :=
        List.length (getElementsByTagName (js "image") svgContent)
        + count_font_items svgContent in
      let '(doc1, st1) :=
        image_pass env preloadedAssets totalItems svgContent initial in
      let '(doc2, st2) :=
        style_pass env preloadedAssets totalItems doc1 st1 in
      inr {| content := doc2; r_assets := b_assets st2;
             r_errors := b_errors st2; r_progress := b_progress st2 |}
  end.

(** *** redact *)

Definition FILTER_ID : jsstring := js "redact-blur".

Definition shouldRedact (a : Attrs) : bool :=
  match truthy (getAttribute (js "data-tags") a) with
  | Some tags => includes (js "redact") (toLowerCase tags)
  | None => false
  end.

Definition is_target_image (e : Element) : bool :=
  JS.eqb (js "image") (el_name e) && shouldRedact (el_attrs e).

Definition imagesToRedact (doc : Node) : list Element :=
  filter (fun e => shouldRedact (el_attrs e))
         (getElementsByTagName (js "image") doc).

(** [defs = doc.getElementsByTagName('defs')[0]], created in the SVG
    namespace as the first child of the root when there is none. *)
Definition ensure_defs (doc : Node) : Node :=
  match getElementsByTagName (js "defs") doc with
  | _ :: _ => doc
  | [] =>
      match doc with
      | Elem nm a ch =>
          Elem nm a (Elem (js "defs") (declared (in_scope None a) []) []
                          :: ch)
      | Text d => Text d
      end
  end.

(** [first.appendChild(c)] for the first element named [tag]. *)
Fixpoint append_to_first (tag : jsstring) (c : Node) (n : Node)
  : option Node :=
  match n with
  | Text _ => None
  | Elem nm a ch =>
      if JS.eqb tag nm then Some (Elem nm a (ch ++ [c]))
      else
        match
          (fix go (l : list Node) : option (list Node) :=
             match l with
             | [] => None
             | x :: r =>
                 match append_to_first tag c x with
                 | Some x' => Some (x' :: r)
                 | None =>
                     match go r with
                     | Some r' => Some (x :: r')
                     | None => None
                     end
                 end
             end) ch
        with
        | Some ch' => Some (Elem nm a ch')
        | None => None
        end
  end.

(** The filter element, created in the SVG namespace, for a definitions
    section whose default namespace is [scope]. *)
Definition blur_filter (scope : option jsstring) : Node :=
  Elem (js "filter")
       (declared scope
          [(js "id", FILTER_ID); (js "x", js "-50%"); (js "y", js "-50%");
           (js "width", js "200%"); (js "height", js "200%")])
       [Elem (js "feGaussianBlur") [(js "stdDeviation", js "150")] []].

(** The default namespace in scope in the first definitions section. *)
Definition defs_scope (doc : Node) : option jsstring :=
  match first_in_scope (js "defs") None doc with
  | Some (_, ns) => ns
  | None => None
  end.

Definition filter_ref : jsstring := js "url(#" ++ FILTER_ID ++ js ")".

Definition redact_images (doc : Node) : Node :=
  match imagesToRedact doc with
  | [] => doc
  | _ :: _ =>
      let doc1 := ensure_defs doc in
      let doc2 :=
        match getElementById FILTER_ID doc1 with
        | Some _ => doc1
        | None =>
            match append_to_first (js "defs")
                                  (blur_filter (defs_scope doc1)) doc1 with
            | Some d => d
            | None => doc1
            end
        end in
      map_attrs (fun nm a =>
                   if JS.eqb (js "image") nm && shouldRedact a
                   then setAttribute (js "filter") filter_ref a
                   else a) doc2
  end.

(** The replacement text of the source file as it stands: the three
    code units U+00E2, U+2013, U+00AE. *)
Definition mask_text : jsstring := [226; 8211; 174]%N.

(** [text.replace(/[^\s]/g, rep)] *)
Definition replace_ink (rep text : jsstring) : jsstring :=
  flat_map (fun c => if is_ws c then [c] else rep) text.

Definition mask (text : jsstring) : jsstring := replace_ink mask_text text.

(** [text.trim().length > 0] *)
Definition has_ink (text : jsstring) : bool :=
  existsb (fun c => negb (is_ws c)) text.

(** The text nodes below an element, each replaced when it has a
    character that is not white space. *)
Fixpoint redactTextNodes (n : Node) : Node :=
  match n with
  | Text d => if has_ink d then Text (mask d) else Text d
  | Elem nm a ch => Elem nm a (map redactTextNodes ch)
  end.

(** Elements are referred to by their position: the child indices from
    the root. *)
Definition Path := list nat.

Fixpoint paths (tag : jsstring) (n : Node) : list Path :=
  match n with
  | Text _ => []
  | Elem nm a ch =>
      (if JS.eqb tag nm then [[]] else []) ++
      (fix go (i : nat) (l : list Node) : list Path :=
         match l with
         | [] => []
         | c :: r => map (cons i) (paths tag c) ++ go (S i) r
         end) 0 ch
  end.

Fixpoint update_nth (i : nat) (f : Node -> Node) (l : list Node)
  : list Node :=
  match l, i with
  | [], _ => []
  | x :: r, O => f x :: r
  | x :: r, S j => x :: update_nth j f r
  end.

Fixpoint update_at (p : Path) (f : Node -> Node) (n : Node) : Node :=
  match p with
  | [] => f n
  | i :: p' =>
      match n with
      | Elem nm a ch => Elem nm a (update_nth i (update_at p' f) ch)
      | Text d => Text d
      end
  end.

Fixpoint node_at (p : Path) (n : Node) : option Node :=
  match p with
  | [] => Some n
  | i :: p' =>
      match n with
      | Elem _ _ ch =>
          match nth_error ch i with
          | Some c => node_at p' c
          | None => None
          end
      | Text _ => None
      end
  end.

Definition redact_container (doc : Node) (p : Path) : Node :=
  match node_at p doc with
  | Some (Elem _ a _) =>
      if shouldRedact a then update_at p redactTextNodes doc else doc
  | _ => doc
  end.

Definition redact_text (doc : Node) : Node :=
  let allTextContainers := paths (js "text") doc ++ paths (js "tspan") doc in
  fold_left redact_container allTextContainers doc.

Definition redact (svgContent : Node) : Node :=
  redact_text (redact_images svgContent).

End SvgProcessor.

Export SvgProcessor.

(* ================================================================= *)
(** ** src/services/pdfGenerator.ts *)

Module PdfGenerator.

(** *** The jsPDF document *)

Inductive Format :=
| Custom (w h : Q)      (** [[w, h]] in millimetres *)
| DefaultFormat.        (** no format given *)

Inductive Orientation := Landscape | Portrait.

Inductive Draw :=
| Image (dataUrl : jsstring) (x y w h : Q)
| FillRect (color : jsstring) (x y w h : Q)
| TextAt (s : jsstring) (x y : Q).

Record Page := {
  format : Format;
  orientation : option Orientation;
  drawn : list Draw
}.

(** The pages in order; drawing goes to the last one. *)
Definition jsPDF := list Page.

Definition blank (f : Format) (o : option Orientation) : Page :=
  {| format := f; orientation := o; drawn := [] |}.

(** [doc ? doc.addPage(f, o) : new jsPDF({orientation: o, format: f})] *)
Definition add_page (doc : option jsPDF) (f : Format)
           (o : option Orientation) : jsPDF :=
  match doc with
  | None => [blank f o]
  | Some d => d ++ [blank f o]
  end.

Fixpoint draw (x : Draw) (d : jsPDF) : jsPDF :=
  match d with
  | [] => []
  | [p] => [{| format := format p; orientation := orientation p;
               drawn := drawn p ++ [x] |}]
  | p :: d' => p :: draw x d'
  end.

Definition pdfWidth : Q := 210.
Definition pixelScale : Q := 12.

Definition Qgtb (a b : Q) : bool := negb (Qle_bool a b).

(** [!x] on a number: zero and NaN are falsy. *)
Definition falsy (x : option Q) : bool :=
  match x with
  | None => true
  | Some q => Qeq_bool q 0
  end.

Definition opt_eqb (a b : option jsstring) : bool :=
  match a, b with
  | None, None => true
  | Some x, Some y => JS.eqb x y
  | _, _ => false
  end.

(** [s.split(/[\s,]+/)] *)
Fixpoint split_runs (in_sep : bool) (s : jsstring) : list jsstring :=
  match s with
  | [] => [[]]
  | c :: s' =>
      if is_ws c || N.eqb c comma then
        if in_sep then split_runs true s' else [] :: split_runs true s'
      else
        match split_runs false s' with
        | w :: ws => (c :: w) :: ws
        | [] => [[c]]
        end
  end.

Section Generate.
Variable env : Env.

(** Whether [svg.style] is defined: the element is an SVG element, or
    of another namespace whose elements have the property.  An element
    without namespace has none. *)
Definition styled (ns : option jsstring) : bool :=
  match ns with
  | Some n => JS.eqb n SVG_NS || has_style env n
  | None => false
  end.

(** Reading [svg.style.backgroundColor] where [svg.style] is undefined
    raises a TypeError, which the [catch] turns into [null]. *)
Definition detectBackgroundColor (svgContent : Node) : option jsstring :=
  match first_in_scope (js "svg") None svgContent with
  | None => None
  | Some (svg, ns) =>
      if negb (styled ns) then None else
      match style_backgroundColor env (el_attrs svg) with
      | c :: s => Some (c :: s)
      | [] =>
          let width := getAttribute (js "width") (el_attrs svg) in
          let height := getAttribute (js "height") (el_attrs svg) in
          match
            find (fun rect =>
                    let rW := getAttribute (js "width") (el_attrs rect) in
                    let rH := getAttribute (js "height") (el_attrs rect) in
                    opt_eqb rW (Some (js "100%"))
                    && opt_eqb rH (Some (js "100%"))
                    || opt_eqb rW width && opt_eqb rH height)
                 (getElementsByTagName (js "rect") svgContent)
          with
          | Some rect => getAttribute (js "fill") (el_attrs rect)
          | None => None
          end
      end
  end.

Definition getSvgDimensions (svgContent : Node) : Q * Q :=
  match getElementsByTagName (js "svg") svgContent with
  | [] => (100, 100)%Q
  | svg :: _ =>
      let widthAttr := truthy (getAttribute (js "width") (el_attrs svg)) in
      let heightAttr := truthy (getAttribute (js "height") (el_attrs svg)) in
      let viewBoxAttr :=
        truthy (getAttribute (js "viewBox") (el_attrs svg)) in
      let '(w, h) :=
        match viewBoxAttr with
        | Some vb =>
            match map (parseFloat env) (split_runs false vb) with
            | [_; _; p2; p3] => (p2, p3)
            | _ => (Some 0%Q, Some 0%Q)
            end
        | None => (Some 0%Q, Some 0%Q)
        end in
      let '(w, h) :=
        match falsy w || falsy h, widthAttr, heightAttr with
        | true, Some wa, Some ha =>
            (if falsy (parseFloat env wa) then Some 0%Q
             else parseFloat env wa,
             if falsy (parseFloat env ha) then Some 0%Q
             else parseFloat env ha)
        | _, _, _ => (w, h)
        end in
      match w, h with
      | Some wq, Some hq =>
          if falsy w || falsy h then (210, 297)%Q else (wq, hq)
      | _, _ => (210, 297)%Q
      end
  end.

Variable preloadedAssets : AssetPool.

Definition findBlob (file : ProcessedSVG) (path : jsstring) : option Blob :=
  let name := getFilename env path in
  match find (fun a => JS.eqb (localFileName a) name) (assets file) with
  | Some localAsset => Some (blob localAsset)
  | None => pool_get name preloadedAssets
  end.

Definition embed_image (file : ProcessedSVG) (a : Attrs) : Attrs :=
  match truthy (or_else (getAttribute (js "href") a)
                        (getAttribute (js "xlink:href") a)) with
  | None => a
  | Some href =>
      match findBlob file href with
      | Some b =>
          let a1 := setAttribute (js "href") (readAsDataURL env b) a in
          if hasAttribute (js "xlink:href") a1
          then removeAttribute (js "xlink:href") a1
          else a1
      | None => a
      end
  end.

Definition font_mime (url : jsstring) : jsstring :=
  let lowerUrl := toLowerCase url in
  if endsWith (js ".woff2") lowerUrl then js "font/woff2"
  else if endsWith (js ".woff") lowerUrl then js "font/woff"
  else if endsWith (js ".ttf") lowerUrl then js "font/ttf"
  else if endsWith (js ".otf") lowerUrl then js "application/font-sfnt"
  else if endsWith (js ".eot") lowerUrl
       then js "application/vnd.ms-fontobject"
  else js "application/octet-stream".

Fixpoint embed_css (file : ProcessedSVG) (matches : list jsstring)
         (css : jsstring) : jsstring :=
  match matches with
  | [] => css
  | url :: rest =>
      let css1 :=
        if isFontFile url then
          match findBlob file url with
          | Some b =>
              let rawDataUri := readAsDataURL env b in
              let base64Content :=
                nth 1 (split comma rawDataUri) (js "undefined") in
              let correctDataUri :=
                js "data:" ++ font_mime url ++ js ";base64,"
                   ++ base64Content in
              replace_first url correctDataUri css
          | None => css
          end
        else css in
      embed_css file rest css1
  end.

(** [style.textContent = css] for every style element. *)
Fixpoint embed_styles (file : ProcessedSVG) (n : Node) : Node :=
  match n with
  | Text d => Text d
  | Elem nm a ch =>
      if JS.eqb nm (js "style") then
        let css := flat_map textContent ch in
        match embed_css file (UrlRegex.matchAll css) css with
        | [] => Elem nm a []
        | css' => Elem nm a [Text css']
        end
      else Elem nm a (map (embed_styles file) ch)
  end.

Definition embedAssets (svgContent : Node) (file : ProcessedSVG) : Node :=
  match getElementsByTagName (js "parsererror") svgContent with
  | _ :: _ => svgContent
  | [] =>
      embed_styles file
        (map_attrs (fun nm a => if JS.eqb nm (js "image")
                                then embed_image file a else a)
                   svgContent)
  end.

(** *** generate *)

Definition throws (i : nat) (s : Stage) : bool :=
  match raises env i with
  | Some s' => stage_eqb s s'
  | None => false
  end.

Definition page_height (embeddedSvg : Node) : Q :=
  let '(svgW, svgH) := getSvgDimensions embeddedSvg in
  let aspectRatio := (svgW / svgH)%Q in
  (pdfWidth / aspectRatio)%Q.

Definition page_orientation (pdfHeight : Q) : Orientation :=
  if Qgtb pdfWidth pdfHeight then Landscape else Portrait.

Definition white (bgColor : jsstring) : bool :=
  JS.eqb (toLowerCase bgColor) (js "#ffffff")
  || JS.eqb (toLowerCase bgColor) (js "white").

(** The colour of the inside cover, taken from the next file. *)
Definition cover_color (files : list ProcessedSVG) : jsstring :=
  match nth_error files 1 with
  | Some nextFile =>
      match processedContent nextFile with
      | Some c =>
          match truthy (detectBackgroundColor c) with
          | Some bgColor => bgColor
          | None => js "#FFFFFF"
          end
      | None => js "#FFFFFF"
      end
  | None => js "#FFFFFF"
  end.

(** The [try] block for page [i]: the document as the block leaves it,
    and whether the block ran to its end ([false]: it raised). *)
Definition try_page (files : list ProcessedSVG) (i : nat)
           (file : ProcessedSVG) (svgContent : Node) (doc : option jsPDF)
  : option jsPDF * bool :=
  if throws i Redact then (doc, false) else
  let redactedContent := redact svgContent in
  if throws i Embed then (doc, false) else
  let embeddedSvg := embedAssets redactedContent file in
  if throws i Measure then (doc, false) else
  let pdfHeight := page_height embeddedSvg in
  let orientation := page_orientation pdfHeight in
  if throws i AddPage then (doc, false) else
  let doc1 := add_page doc (Custom pdfWidth pdfHeight) (Some orientation) in
  if throws i Rasterize then (Some doc1, false) else
  let dataUrl :=
    canvas_toDataURL env embeddedSvg (pdfWidth * pixelScale)%Q
                     (pdfHeight * pixelScale)%Q in
  if throws i AddImage then (Some doc1, false) else
  let doc2 := draw (Image dataUrl 0 0 pdfWidth pdfHeight) doc1 in
  if (i =? 0) && (1 <? List.length files) then
    let bgColor := cover_color files in
    if throws i CoverAddPage then (Some doc2, false) else
    let doc3 :=
      add_page (Some doc2) (Custom pdfWidth pdfHeight) (Some orientation) in
    if negb (white bgColor) then
      if throws i CoverFill then (Some doc3, false) else
      (Some (draw (FillRect bgColor 0 0 pdfWidth pdfHeight) doc3), true)
    else (Some doc3, true)
  else (Some doc2, true).

Definition error_label (file : ProcessedSVG) : jsstring :=
  js "Error processing page: " ++ file_name (originalFile file).

(** The [catch] block. *)
Definition placeholder (file : ProcessedSVG) (doc : option jsPDF) : jsPDF :=
  draw (TextAt (error_label file) 10 10) (add_page doc DefaultFormat None).

(** The state of the loop: the document, and the page numbers of the
    reports [Failed to process page N] that the [catch] block writes with
    [console.error].  What [embedAssets] and [svgToDataUrl] write to the
    console without ending the page is not part of it. *)
Record GState := {
  doc : option jsPDF;
  console : list nat
}.

(** One iteration of the loop. *)
Definition step (files : list ProcessedSVG) (i : nat) (file : ProcessedSVG)
           (st : GState) : GState :=
  match processedContent file with
  | Some svgContent =>
      match try_page files i file svgContent (doc st) with
      | (d, true) => {| doc := d; console := console st |}
      | (d, false) =>
          {| doc := Some (placeholder file d);
             console := console st ++ [i + 1] |}
      end
  | None => st
  end.

Fixpoint loop (files : list ProcessedSVG) (i : nat)
         (rest : list ProcessedSVG) (st : GState) : GState :=
  match rest with
  | [] => st
  | file :: rest' => loop files (S i) rest' (step files i file st)
  end.

Definition run (files : list ProcessedSVG) : GState :=
  loop files 0 files {| doc := None; console := [] |}.

(** The document saved as photo_book.pdf, if one is. *)
Definition generate (files : list ProcessedSVG) : option jsPDF :=
  doc (run files).

End Generate.

End PdfGenerator.

Export PdfGenerator.

(* ================================================================= *)
(** ** src/App.tsx *)

Module App.

Record AppState := {
  app_files : list ProcessedSVG;
  preloadedAssets : AssetPool;
  (** how many identifiers [generateId] has drawn *)
  app_ids : nat
}.

Definition new_entry (env : Env) (n : nat) (file : File) : ProcessedSVG :=
  {| id := random_id env n;
     originalFile := file;
     processedContent := file_text file;
     status := IDLE;
     assets := [];
     errors := [];
     progress := 0 |}.

Fixpoint new_entries (env : Env) (n : nat) (newFiles : list File)
  : list ProcessedSVG :=
  match newFiles with
  | [] => []
  | file :: rest => new_entry env n file :: new_entries env (S n) rest
  end.

Definition handleFilesAdded (env : Env) (newFiles : list File)
           (newAssets : list (jsstring * Blob)) (st : AppState) : AppState :=
  {| app_files := app_files st ++ new_entries env (app_ids st) newFiles;
     preloadedAssets :=
       fold_left (fun m a => pool_set (fst a) (snd a) m) newAssets
                 (preloadedAssets st);
     app_ids := app_ids st + List.length newFiles |}.

Definition updateFileStatus (fid : jsstring)
           (updates : ProcessedSVG -> ProcessedSVG) (st : AppState)
  : AppState :=
  {| app_files :=
       map (fun f => if JS.eqb (id f) fid then updates f else f)
           (app_files st);
     preloadedAssets := preloadedAssets st;
     app_ids := app_ids st |}.

Definition completed (r : BundleResult) (f : ProcessedSVG) : ProcessedSVG :=
  {| id := id f; originalFile := originalFile f;
     processedContent := Some (content r);
     status := COMPLETED;
     assets := r_assets r;
     errors := r_errors r;
     progress := 100 |}.

Definition failed (message : jsstring) (f : ProcessedSVG) : ProcessedSVG :=
  {| id := id f; originalFile := originalFile f;
     processedContent := processedContent f;
     status := ERROR;
     assets := assets f;
     errors := [message];
     progress := 100 |}.

(** The collection once the call has settled. *)
Definition bundleFile (env : Env) (fileItem : ProcessedSVG) (st : AppState)
  : AppState :=
  match processedContent fileItem with
  | None => updateFileStatus (id fileItem)
                             (failed (js "No content to process")) st
  | Some c =>
      match bundleResources env c (preloadedAssets st) with
      | inr result => updateFileStatus (id fileItem) (completed result) st
      | inl message => updateFileStatus (id fileItem) (failed message) st
      end
  end.

Definition valid_status (s : ProcessingStatus) : bool :=
  match s with
  | COMPLETED | IDLE => true
  | _ => false
  end.

Definition getValidFiles (st : AppState) : list ProcessedSVG :=
  filter (fun f => valid_status (status f)) (app_files st).

(** The archive: the calls of [zip.file] for the markup, in order, and
    the two asset folders. *)
Record Zip := {
  zip_markup : list (jsstring * Node);
  zip_images : list (jsstring * Blob);
  zip_fonts : list (jsstring * Blob);
  addedAssets : list jsstring
}.

Definition addAssetToZip (filename : jsstring) (b : Blob) (z : Zip) : Zip :=
  if existsb (JS.eqb filename) (addedAssets z) then z
  else if isFontFile filename then
    {| zip_markup := zip_markup z; zip_images := zip_images z;
       zip_fonts := zip_fonts z ++ [(filename, b)];
       addedAssets := addedAssets z ++ [filename] |}
  else
    {| zip_markup := zip_markup z;
       zip_images := zip_images z ++ [(filename, b)];
       zip_fonts := zip_fonts z;
       addedAssets := addedAssets z ++ [filename] |}.

Definition zip_file (name : jsstring) (data : Node) (z : Zip) : Zip :=
  {| zip_markup := zip_markup z ++ [(name, data)];
     zip_images := zip_images z; zip_fonts := zip_fonts z;
     addedAssets := addedAssets z |}.

Definition add_document (z : Zip) (file : ProcessedSVG) : Zip :=
  let z1 :=
    match processedContent file with
    | Some c =>
        (* Apply Redaction Logic before zipping *)
        let redactedContent := redact c in
        zip_file (file_name (originalFile file)) redactedContent z
    | None => z
    end in
  fold_left (fun z asset => addAssetToZip (localFileName asset) (blob asset) z)
            (assets file) z1.

(** The archive saved as photo_book_tagged.zip, if one is. *)
Definition downloadZip (st : AppState) : option Zip :=
  match getValidFiles st with
  | [] => None
  | validFiles =>
      let z0 := {| zip_markup := []; zip_images := []; zip_fonts := [];
                   addedAssets := [] |} in
      let z1 := fold_left (fun z kv => addAssetToZip (fst kv) (snd kv) z)
                          (preloadedAssets st) z0 in
      Some (fold_left add_document validFiles z1)
  end.

Definition downloadPdf (env : Env) (st : AppState) : option jsPDF :=
  match getValidFiles st with
  | [] => None
  | validFiles => generate env (preloadedAssets st) validFiles
  end.

End App.

Export App.

(* ================================================================= *)
(** ** src/components/TaggingEditor.tsx *)

Module TaggingEditor.

(** A [Set<string>] in insertion order. *)
Definition TagSet := list jsstring.

Definition has (t : jsstring) (s : TagSet) : bool := existsb (JS.eqb t) s.

Definition add (t : jsstring) (s : TagSet) : TagSet :=
  if has t s then s else s ++ [t].

Definition delete (t : jsstring) (s : TagSet) : TagSet :=
  filter (fun x => negb (JS.eqb t x)) s.

(** [new Set(array)] *)
Definition set_of (l : list jsstring) : TagSet :=
  fold_left (fun s t => add t s) l [].

(** [new Set(currentTagsStr ? currentTagsStr.split(',') : [])] *)
Definition currentTags (a : Attrs) : TagSet :=
  match truthy (getAttribute (js "data-tags") a) with
  | Some currentTagsStr => set_of (split comma currentTagsStr)
  | None => []
  end.

(** Toggle logic: if an active tag exists, remove it; if not, add it. *)
Definition toggle (activeTags : TagSet) (current : TagSet) : TagSet :=
  fold_left (fun cur tag => if has tag cur then delete tag cur
                            else add tag cur)
            activeTags current.

(** What a click does to the attributes of the image or text element
    it lands on. *)
Definition handleSvgClick (activeTags : TagSet) (a : Attrs) : Attrs :=
  match activeTags with
  | [] => a
  | _ :: _ =>
      match join comma (toggle activeTags (currentTags a)) with
      | [] => removeAttribute (js "data-tags") a
      | newTags => setAttribute (js "data-tags") newTags a
      end
  end.

(** The body of the loop of [applyTagsToElements]. *)
Definition applyTags (tagsToAdd : TagSet) (a : Attrs) : Attrs :=
  let currentTagsStr :=
    match getAttribute (js "data-tags") a with Some s => s | None => [] end in
  let newTags :=
    join comma (fold_left (fun cur tag => add tag cur) tagsToAdd
                          (currentTags a)) in
  if JS.eqb newTags currentTagsStr then a
  else setAttribute (js "data-tags") newTags a.

End TaggingEditor.

(* ================================================================= *)
(** ** The tag commands of src/components/TaggingEditor.tsx and the tag
    registry of src/App.tsx *)

Module TagCommands.

(** [newTags !== currentTagsStr] in [applyTagsToElements]. *)
Definition changes (tagsToAdd : TaggingEditor.TagSet) (a : Attrs) : bool :=
  let currentTagsStr :=
    match getAttribute (js "data-tags") a with Some s => s | None => [] end in
  let newTags :=
    join comma (fold_left (fun cur tag => TaggingEditor.add tag cur) tagsToAdd
                          (TaggingEditor.currentTags a)) in
  negb (JS.eqb newTags currentTagsStr).

(** The tree after the loop, and the flag [modified]. *)
Definition applyTagsToElements (root : Node) (tagName : jsstring)
           (tagsToAdd : TaggingEditor.TagSet) : Node * bool :=
  (map_attrs (fun nm a => if JS.eqb tagName nm
                          then TaggingEditor.applyTags tagsToAdd a else a)
             root,
   existsb (fun e => changes tagsToAdd (el_attrs e))
           (getElementsByTagName tagName root)).

(** [clearAllTags], once confirmed: every element that has the
    attribute loses it. *)
Definition clearAllTags (root : Node) : Node :=
  map_attrs (fun _ a => if hasAttribute (js "data-tags") a
                        then removeAttribute (js "data-tags") a else a)
            root.

(** [toggleActiveTag] *)
Definition toggleActiveTag (tag : jsstring)
           (activeTags : TaggingEditor.TagSet) : TaggingEditor.TagSet :=
  if TaggingEditor.has tag activeTags then TaggingEditor.delete tag activeTags
  else TaggingEditor.add tag activeTags.

(** The initial [availableTags] of the application. *)
Definition initialTags : list jsstring := [js "redact-text"; js "redact-image"].

(** [handleAddTag] *)
Definition handleAddTag (tag : jsstring) (availableTags : list jsstring)
  : list jsstring :=
  if existsb (JS.eqb tag) availableTags then availableTags
  else availableTags ++ [tag].

End TagCommands.

(* ================================================================= *)
(** ** The drop of src/components/ReorderEditor.tsx *)

Module ReorderEditor.

Definition selected (ids : list jsstring) (f : ProcessedSVG) : bool :=
  existsb (JS.eqb (id f)) ids.

(** [remainingFiles.findIndex(f => f.id === targetId)], the length
    standing for the insertion index when there is none. *)
Fixpoint insertionIndex (targetId : jsstring) (l : list ProcessedSVG) : nat :=
  match l with
  | [] => 0
  | f :: r => if JS.eqb (id f) targetId then 0
              else S (insertionIndex targetId r)
  end.

(** [handleDrop]: the order given to [onReorder], or [None] when the
    handler returns (or throws) without calling it. *)
Definition handleDrop (files : list ProcessedSVG)
           (selectedIds : list jsstring) (dragItem : option nat)
           (dropIndex : nat) : option (list ProcessedSVG) :=
  match dragItem with
  | None => None
  | Some d =>
      let moving :=
        match selectedIds with
        | _ :: _ => Some selectedIds
        | [] => match nth_error files d with
                | Some f => Some [id f]
                | None => None
                end
        end in
      match moving with
      | None => None
      | Some itemsToMoveIds =>
          let itemsToMove := filter (selected itemsToMoveIds) files in
          let remainingFiles :=
            filter (fun f => negb (selected itemsToMoveIds f)) files in
          match nth_error files dropIndex with
          | None => None
          | Some target =>
              let targetId := id target in
              if existsb (JS.eqb targetId) itemsToMoveIds then None
              else
                let k := insertionIndex targetId remainingFiles in
                Some (firstn k remainingFiles ++ itemsToMove
                             ++ skipn k remainingFiles)
          end
      end
  end.

End ReorderEditor.

(* ================================================================= *)
(** ** A sample environment and sample documents *)

Module Sample.

Definition digit (c : N) : option Z :=
  if ((48 <=? c) && (c <=? 57))%N then Some (Z.of_N c - 48)%Z else None.

Fixpoint digits (acc : Z) (s : jsstring) : Z :=
  match s with
  | c :: s' =>
      match digit c with
      | Some d => digits (acc * 10 + d)%Z s'
      | None => acc
      end
  | [] => acc
  end.

(** Unsigned decimal integers, NaN for what does not start with a
    digit: enough of [parseFloat] for the sample documents. *)
Definition sample_parseFloat (s : jsstring) : option Q :=
  match s with
  | c :: _ =>
      match digit c with
      | Some _ => Some (inject_Z (digits 0 s))
      | None => None
      end
  | [] => None
  end.

Fixpoint until (stop : N -> bool) (s : jsstring) : jsstring :=
  match s with
  | c :: s' => if stop c then [] else c :: until stop s'
  | [] => []
  end.

Fixpoint from (stop : N -> bool) (s : jsstring) : jsstring :=
  match s with
  | c :: s' => if stop c then s else from stop s'
  | [] => []
  end.

(** The path of an http or https address; anything else is not a URL. *)
Definition sample_pathname (s : jsstring) : option jsstring :=
  let path_of r :=
    until (fun c => N.eqb c qmark || N.eqb c 35)
          (from (fun c => N.eqb c slash) r) in
  if startsWith (js "http://") s then Some (path_of (skipn 7 s))
  else if startsWith (js "https://") s then Some (path_of (skipn 8 s))
  else None.

Definition jpeg : Blob := [255; 216; 255]%N.

(** Every fetch succeeds with a JPEG; nothing raises. *)
Definition env : Env :=
  {| url_pathname := sample_pathname;
     fetch := fun _ _ => Response true (Some (js "image/jpeg")) (inr jpeg);
     random36 := fun _ => js "k3x9qz";
     random_id := fun _ => js "id0";
     readAsDataURL := fun _ => js "data:image/jpeg;base64,/9j/";
     parseFloat := sample_parseFloat;
     style_backgroundColor := fun _ => [];
     has_style := fun ns => JS.eqb ns (js "http://www.w3.org/1999/xhtml");
     canvas_toDataURL := fun _ _ _ => js "data:image/jpeg;base64,AAAA";
     raises := fun _ => None |}.


Definition svg (a : Attrs) (ch : list Node) : Node := Elem (js "svg") a ch.

Definition sized (viewBox : string) (ch : list Node) : Node :=
  svg [(js "viewBox", js viewBox)] ch.

Definition doc_of (name : string) (c : option Node) : ProcessedSVG :=
  {| id := js name;
     originalFile := {| file_name := js name; file_text := c |};
     processedContent := c;
     status := IDLE;
     assets := [];
     errors := [];
     progress := 0 |}.

(** A portrait page, twice as high as wide, and a landscape one. *)
Definition tall : Node := sized "0 0 210 420" [].
Definition wide : Node := sized "0 0 420 210" [].

Definition page_a : ProcessedSVG := doc_of "a.svg" (Some tall).
Definition page_b : ProcessedSVG := doc_of "b.svg" (Some wide).
Definition page_null : ProcessedSVG := doc_of "n.svg" None.

(** A page with a red background, as an SVG document, and the same
    without the namespace declaration. *)
Definition red : Node :=
  svg [(js "xmlns", SVG_NS); (js "viewBox", js "0 0 210 420")]
      [Elem (js "rect") [(js "width", js "100%"); (js "height", js "100%");
                         (js "fill", js "#ff0000")] []].

Definition bare_red : Node :=
  svg [(js "viewBox", js "0 0 210 420")]
      [Elem (js "rect") [(js "width", js "100%"); (js "height", js "100%");
                         (js "fill", js "#ff0000")] []].

Definition page_red : ProcessedSVG := doc_of "r.svg" (Some red).
Definition page_bare_red : ProcessedSVG := doc_of "s.svg" (Some bare_red).

(** The text Hello World in an element tagged redact-text. *)
Definition hello : Node :=
  svg [] [Elem (js "text") [(js "data-tags", js "redact-text")]
               [Text (js "Hello World")]].

(** An image with a relative reference, and one with a network one. *)
Definition relative_image : Node :=
  svg [] [Elem (js "image") [(js "href", js "pics/a.jpg")] []].


(** An image tagged for redaction. *)
Definition tagged_image : Node :=
  svg [] [Elem (js "image")
                      [(js "href", js "images/a.jpg");
                       (js "data-tags", js "Redact-Image")] []].

(** An image tagged for redaction in a document where another element
    has the id of the blur filter. *)
Definition squatter : Node :=
  svg [] [Elem (js "rect") [(js "id", js "redact-blur")] [];
          Elem (js "image")
               [(js "href", js "images/a.jpg");
                (js "data-tags", js "redact-image")] []].

(** A style sheet with two font references, the text of the second
    inside the first, next to an image with a relative reference; and
    an image in a folder whose name starts with the letters http. *)
Definition lettered : Node :=
  svg [] [Elem (js "style") [] [Text (js "url(x/a.woff2) url(a.woff)")];
          Elem (js "image") [(js "href", js "pics/a.jpg")] []].

Definition http_folder : Node :=
  svg [] [Elem (js "image") [(js "href", js "http_images/a.jpg")] []].

(** What the parser gives for a text that is not well formed. *)
Definition malformed : Node :=
  Elem (js "parsererror") [] [Text (js "error on line 1")].

End Sample.

(* ================================================================= *)
(** ** What the properties speak of *)

Section ExportTerms.
Variable env : Env.
Variable pool : AssetPool.

Definition pages (d : option jsPDF) : jsPDF :=
  match d with Some p => p | None => [] end.

(** Whether the page of [file] is rendered without an exception. *)
Definition reaches_success (files : list ProcessedSVG) (i : nat)
           (file : ProcessedSVG) : bool :=
  match processedContent file with
  | Some c => snd (try_page env pool files i file c None)
  | None => false
  end.

(** What one iteration appends to the document. *)
Definition chunk (files : list ProcessedSVG) (i : nat)
           (file : ProcessedSVG) : jsPDF :=
  pages (doc (step env pool files i file {| doc := None; console := [] |})).

Fixpoint chunks (files : list ProcessedSVG) (i : nat)
         (rest : list ProcessedSVG) : jsPDF :=
  match rest with
  | [] => []
  | f :: r => chunk files i f ++ chunks files (S i) r
  end.

Definition has_content (f : ProcessedSVG) : bool :=
  match processedContent f with Some _ => true | None => false end.

(** The rendered page of a document and its inside cover. *)
Definition rendered (file : ProcessedSVG) (c : Node) : Page :=
  let embeddedSvg := embedAssets env pool (redact c) file in
  let h := page_height env embeddedSvg in
  {| format := Custom pdfWidth h;
     orientation := Some (page_orientation h);
     drawn := [Image (canvas_toDataURL env embeddedSvg
                        (pdfWidth * pixelScale)%Q (h * pixelScale)%Q)
                     0 0 pdfWidth h] |}.

(** The inside cover: the page added after the page of [file], with
    what is drawn on it. *)
Definition inside_cover (file : ProcessedSVG) (c : Node)
           (fill : list Draw) : Page :=
  let h := page_height env (embedAssets env pool (redact c) file) in
  {| format := Custom pdfWidth h;
     orientation := Some (page_orientation h);
     drawn := fill |}.

Definition cover_fill (file : ProcessedSVG) (c : Node)
           (files : list ProcessedSVG) : list Draw :=
  let h := page_height env (embedAssets env pool (redact c) file) in
  if white (cover_color env files) then []
  else [FillRect (cover_color env files) 0 0 pdfWidth h].

Definition error_page (file : ProcessedSVG) : Page :=
  {| format := DefaultFormat; orientation := None;
     drawn := [TextAt (error_label file) 10 10] |}.

End ExportTerms.

(** The blur-filter definitions of a document: the elements that carry
    the fixed id. *)
Definition filter_count (doc : Node) : nat :=
  List.length (filter (has_id FILTER_ID) (elements doc)).

(** Every image to redact refers to the shared filter. *)
Definition targets_filtered (doc : Node) : Prop :=
  forall e, In e (elements doc) ->
            is_target_image e = true ->
            getAttribute (js "filter") (el_attrs e) = Some filter_ref.

(** The tag annotations of a document: the name and the tag list of
    every element that carries one, in document order. *)
Definition annotation (x : jsstring * Attrs) : list (jsstring * jsstring) :=
  match getAttribute (js "data-tags") (snd x) with
  | Some tags => [(fst x, tags)]
  | None => []
  end.

(** A tree with the data of its text nodes forgotten. *)
Fixpoint erase (n : Node) : Node :=
  match n with
  | Text _ => Text []
  | Elem nm a ch => Elem nm a (map erase ch)
  end.

(** Name and attributes of every element, in document order. *)
Definition label (e : Element) : jsstring * Attrs := (el_name e, el_attrs e).
Definition labels (n : Node) : list (jsstring * Attrs) :=
  map label (elements n).

Definition annotations (n : Node) : list (jsstring * jsstring) :=
  flat_map annotation (labels n).

(** A message of the error list that reports a failed load of a
    network reference. *)
Definition network_error (e : jsstring) : Prop :=
  exists href message,
    e = load_error href message /\ startsWith (js "http") href = true.

(** The states that the closures of one [bundleResources] call go
    through. *)
Inductive reachable (env : Env) (pool : AssetPool) : BState -> Prop :=
| reach_initial : reachable env pool initial
| reach_asset st href isFont :
    reachable env pool st ->
    reachable env pool (snd (processAsset env pool href isFont st))
| reach_progress st totalItems :
    reachable env pool st ->
    reachable env pool (updateProgress totalItems st).

(** A font reference of a style sheet that resolution passes over. *)
Definition quiet (env : Env) (pool : AssetPool) (u : jsstring) : Prop :=
  isFontFile u = true ->
  startsWith (js "http") u = false
  /\ pool_get (getFilename env u) pool = None.

(** A tag name that the comma-joined attribute can hold: not empty,
    and without a comma. *)
Definition well_formed_tag (t : jsstring) : Prop :=
  t <> [] /\ ~ In comma t.

(** The tag set of an element, as the editor reads it. *)
Definition tag_set (a : Attrs) : list jsstring := TaggingEditor.currentTags a.

(** Equality of tag sets, whatever the order. *)
Definition same_tags (s1 s2 : list jsstring) : Prop :=
  forall t, In t s1 <-> In t s2.


Definition empty_app : AppState :=
  {| app_files := []; preloadedAssets := []; app_ids := 0 |}.

(** One step of the toggle loop. *)
Definition toggle_one (cur : TaggingEditor.TagSet) (tag : jsstring)
  : TaggingEditor.TagSet :=
  if TaggingEditor.has tag cur then TaggingEditor.delete tag cur
  else TaggingEditor.add tag cur.

Definition lab_id (x : jsstring * Attrs) : bool :=
  match getAttribute (js "id") (snd x) with
  | Some v => JS.eqb v FILTER_ID
  | None => false
  end.

Definition lab_target (x : jsstring * Attrs) : bool :=
  JS.eqb (js "image") (fst x) && shouldRedact (snd x).

Definition ids (l : list (jsstring * Attrs)) : nat :=
  List.length (filter lab_id l).

Definition targets (l : list (jsstring * Attrs)) : nat :=
  List.length (filter lab_target l).

(** The attribute rewriting of the image redaction. *)
Definition set_filter (nm : jsstring) (a : Attrs) : Attrs :=
  if JS.eqb (js "image") nm && shouldRedact a
  then setAttribute (js "filter") filter_ref a
  else a.

(** A filter element that carries the fixed id, and their number in a
    document. *)
Definition lab_definition (x : jsstring * Attrs) : bool :=
  JS.eqb (fst x) (js "filter")
  && opt_eqb (getAttribute (js "id") (snd x)) (Some (js "redact-blur")).

Definition definitions (doc : Node) : nat :=
  List.length (filter lab_definition (labels doc)).

(** No element other than a filter element carries the fixed id. *)
Definition id_is_reserved (doc : Node) : Prop :=
  forall e, In e (elements doc) ->
            getAttribute (js "id") (el_attrs e) = Some (js "redact-blur") ->
            el_name e = js "filter".

(** The blur filter in full: a filter element with the fixed id, over
    the region from -50% with 200% of the size, that holds a Gaussian
    blur of deviation 150. *)
Definition is_gaussian_blur (g : Node) : bool :=
  match g with
  | Elem nm a _ =>
      JS.eqb nm (js "feGaussianBlur")
      && opt_eqb (getAttribute (js "stdDeviation") a) (Some (js "150"))
  | Text _ => false
  end.

Definition is_blur (c : Node) : bool :=
  match c with
  | Elem nm a ch =>
      JS.eqb nm (js "filter")
      && opt_eqb (getAttribute (js "id") a) (Some (js "redact-blur"))
      && opt_eqb (getAttribute (js "x") a) (Some (js "-50%"))
      && opt_eqb (getAttribute (js "y") a) (Some (js "-50%"))
      && opt_eqb (getAttribute (js "width") a) (Some (js "200%"))
      && opt_eqb (getAttribute (js "height") a) (Some (js "200%"))
      && existsb is_gaussian_blur ch
  | Text _ => false
  end.

(** Some definitions section has the blur filter as a child. *)
Definition defs_hold_blur (doc : Node) : bool :=
  existsb (fun e => JS.eqb (js "defs") (el_name e)
                    && existsb is_blur (el_children e))
          (elements doc).

(** An image to redact: an image element whose tag annotation contains
    the letters redact, in any case. *)
Definition redaction_target (e : Element) : Prop :=
  el_name e = js "image"
  /\ exists tags,
      getAttribute (js "data-tags") (el_attrs e) = Some tags
      /\ includes (js "redact") (toLowerCase tags) = true.

(** The names that carry the id, elsewhere than on a filter element. *)
Definition strays (x : jsstring * Attrs) : list jsstring :=
  if lab_id x && negb (JS.eqb (fst x) (js "filter")) then [fst x] else [].

(** Every entry of the dedup map is a network reference or one that the
    pool matches, and every recorded error is a failed network load. *)
Definition sound (env : Env) (pool : AssetPool) (st : BState) : Prop :=
  (forall k v, getAttribute k (urlToFilenameMap st) = Some v ->
               startsWith (js "http") k = true
               \/ pool_get (getFilename env k) pool <> None)
  /\ Forall network_error (b_errors st).

(** Where an asset of a bundling call comes from: the pool, under the
    file name derived from its reference, or the network, under a
    generated name. *)
Definition provenance (env : Env) (pool : AssetPool) (a : LocalAsset) : Prop :=
  (pool_get (getFilename env (originalUrl a)) pool = Some (blob a)
   /\ localFileName a = getFilename env (originalUrl a))
  \/ (pool_get (getFilename env (originalUrl a)) pool = None
      /\ startsWith (js "http") (originalUrl a) = true
      /\ startsWith (js "asset_") (localFileName a) = true).

(** The assets of a state are one per reference, each under the name
    the dedup map gives its reference. *)
Definition deduplicated (env : Env) (pool : AssetPool) (st : BState) : Prop :=
  NoDup (map originalUrl (b_assets st))
  /\ forall a, In a (b_assets st) ->
               getAttribute (originalUrl a) (urlToFilenameMap st)
               = Some (localFileName a)
               /\ localFileName a <> []
               /\ provenance env pool a.

(** The font references that the style scan counts, tree by tree. *)
Fixpoint font_items (n : Node) : nat :=
  match n with
  | Text _ => 0
  | Elem nm a ch =>
      (if JS.eqb (js "style") nm
       then List.length (UrlRegex.matchAll (flat_map textContent ch))
       else 0)
      + list_sum (map font_items ch)
  end.

(** The progress counter and the log of the calls of [onProgress]. *)
Definition meter (st : BState) : nat * list (nat * nat) :=
  (processedCount st, b_progress st).

Definition tick (totalItems : nat) (m : nat * list (nat * nat))
  : nat * list (nat * nat) :=
  (S (fst m),
   if 0 <? totalItems then snd m ++ [(S (fst m), totalItems)] else snd m).

(** The white space of a text, place by place: all that the masking
    keeps of it. *)
Definition ws_layout (text : jsstring) : list (option N) :=
  map (fun c => if is_ws c then Some c else None) text.

(** No element is tagged for redaction. *)
Definition untagged (doc : Node) : Prop :=
  forall e, In e (elements doc) -> shouldRedact (el_attrs e) = false.

(** How many labels carry a name. *)
Definition named (tag : jsstring) (l : list (jsstring * Attrs)) : nat :=
  List.length (filter (fun x => JS.eqb tag (fst x)) l).

(** What [clearAllTags] does to the attributes of an element. *)
Definition untag (a : Attrs) : Attrs :=
  if hasAttribute (js "data-tags") a
  then removeAttribute (js "data-tags") a else a.

(** The page numbers of the documents with content whose page is not
    rendered to the end, in order. *)
Fixpoint failures (env : Env) (pool : AssetPool) (files : list ProcessedSVG)
         (i : nat) (rest : list ProcessedSVG) : list nat :=
  match rest with
  | [] => []
  | f :: r =>
      (if has_content f && negb (reaches_success env pool files i f)
       then [i + 1] else [])
      ++ failures env pool files (S i) r
  end.

Fixpoint ticks (totalItems n : nat) (m : nat * list (nat * nat))
  : nat * list (nat * nat) :=
  match n with
  | O => m
  | S k => tick totalItems (ticks totalItems k m)
  end.

(** The asset entries of an archive, both folders. *)
Definition zip_assets (z : Zip) : list (jsstring * Blob) :=
  zip_images z ++ zip_fonts z.

(** The assets that the documents of a collection bring along, as the
    calls of [addAssetToZip] see them, in order. *)
Definition file_assets (files : list ProcessedSVG) : list (jsstring * Blob) :=
  flat_map (fun f => map (fun a => (localFileName a, blob a)) (assets f))
           files.

(** An archive in which every asset is filed once and in its folder,
    holding what a list of additions says. *)
Definition filed (adds : list (jsstring * Blob)) (z : Zip) : Prop :=
  NoDup (map fst (zip_assets z))
  /\ (forall n b, In (n, b) (zip_fonts z) -> isFontFile n = true)
  /\ (forall n b, In (n, b) (zip_images z) -> isFontFile n = false)
  /\ (forall n, In n (addedAssets z) <-> In n (map fst (zip_assets z)))
  /\ (forall n b, In (n, b) (zip_assets z) <-> pool_get n adds = Some b).

(** A page with the same network image twice. *)
Definition two_images : Node :=
  Sample.svg [] [Elem (js "image") [(js "href", js "https://ex.com/a.jpg")] [];
                 Elem (js "image") [(js "href", js "https://ex.com/a.jpg")] []].

(** The sample environment with the network down. *)
Definition offline_env : Env :=
  {| url_pathname := url_pathname Sample.env;
     fetch := fun _ _ => NetworkError (js "Failed to fetch");
     random36 := random36 Sample.env;
     random_id := random_id Sample.env;
     readAsDataURL := readAsDataURL Sample.env;
     parseFloat := parseFloat Sample.env;
     style_backgroundColor := style_backgroundColor Sample.env;
     has_style := has_style Sample.env;
     canvas_toDataURL := canvas_toDataURL Sample.env;
     raises := raises Sample.env |}.

(** A text node. *)
Definition is_text (n : Node) : bool :=
  match n with
  | Text _ => true
  | Elem _ _ _ => false
  end.

(** Every style element holds text only, as a style sheet does. *)
Fixpoint plain_styles (n : Node) : bool :=
  match n with
  | Text _ => true
  | Elem nm a ch =>
      (if JS.eqb nm (js "style") then forallb is_text ch else true)
      && forallb plain_styles ch
  end.

(** What one attribute reads on every element, with the name of the
    element, in document order. *)
Definition readings (key : jsstring) (n : Node)
  : list (jsstring * option jsstring) :=
  map (fun x => (fst x, getAttribute key (snd x))) (labels n).

(** The identifiers that a drop moves: the selection, or the dragged
    item when nothing is selected. *)
Definition dragged (files : list ProcessedSVG) (selectedIds : list jsstring)
           (d : nat) : list jsstring :=
  match selectedIds with
  | _ :: _ => selectedIds
  | [] => match nth_error files d with
          | Some f => [id f]
          | None => []
          end
  end.

(** A collection of one bundled page whose first asset is named like an
    asset of the pool. *)
Definition shelf : AppState :=
  {| app_files :=
       [ {| id := js "p1";
            originalFile := {| file_name := js "a.svg";
                               file_text := Some Sample.tall |};
            processedContent := Some Sample.tall;
            status := COMPLETED;
            assets := [ {| originalUrl := js "https://ex.com/a.jpg";
                           localFileName := js "a.jpg";
                           blob := [1]%N |};
                        {| originalUrl := js "https://ex.com/b";
                           localFileName := js "asset_k3x9qz.bin";
                           blob := [2]%N |} ];
            errors := [];
            progress := 100 |} ];
     preloadedAssets := [(js "a.jpg", Sample.jpeg);
                         (js "f.woff", Sample.jpeg)];
     app_ids := 1 |}.

(* ================================================================= *)
(** * Properties *)

(** ** Strings and attributes *)

Lemma eqb_refl (a : jsstring) : JS.eqb a a = true.
Proof.
  induction a as [|x a IH]; simpl; [reflexivity|].
  now rewrite N.eqb_refl, IH.
Qed.

Lemma eqb_eq (a b : jsstring) : JS.eqb a b = true <-> a = b.
Proof.
  split.
  - revert b; induction a as [|x a IH]; intros [|y b]; simpl;
      try discriminate; [reflexivity|].
    intros H. apply andb_prop in H as [Hx Hr].
    apply N.eqb_eq in Hx. apply IH in Hr. now subst.
  - intros ->. apply eqb_refl.
Qed.

Lemma eqb_neq (a b : jsstring) : JS.eqb a b = false <-> a <> b.
Proof.
  rewrite <- eqb_eq. destruct (JS.eqb a b); split; congruence.
Qed.

Lemma eqb_sym (a b : jsstring) : JS.eqb a b = JS.eqb b a.
Proof.
  destruct (JS.eqb a b) eqn:E.
  - apply eqb_eq in E. subst. now rewrite eqb_refl.
  - destruct (JS.eqb b a) eqn:E'; [|reflexivity].
    apply eqb_eq in E'. subst. now rewrite eqb_refl in E.
Qed.

Lemma getAttribute_set_same (k v : jsstring) (a : Attrs) :
  getAttribute k (setAttribute k v a) = Some v.
Proof.
  induction a as [|[k' v'] a IH]; simpl.
  - now rewrite eqb_refl.
  - destruct (JS.eqb k k') eqn:E; simpl; now rewrite E.
Qed.

Lemma getAttribute_set_other (k k' v : jsstring) (a : Attrs) :
  k' <> k -> getAttribute k' (setAttribute k v a) = getAttribute k' a.
Proof.
  intros Hne. induction a as [|[k0 v0] a IH]; simpl.
  - apply eqb_neq in Hne. now rewrite Hne.
  - destruct (JS.eqb k k0) eqn:E; simpl.
    + apply eqb_eq in E. subst k0.
      apply eqb_neq in Hne. now rewrite Hne.
    + destruct (JS.eqb k' k0); [reflexivity|exact IH].
Qed.

Lemma getAttribute_remove_same (k : jsstring) (a : Attrs) :
  getAttribute k (removeAttribute k a) = None.
Proof.
  induction a as [|[k' v'] a IH]; simpl; [reflexivity|].
  destruct (JS.eqb k k') eqn:E; simpl; [exact IH|now rewrite E].
Qed.

(** The element that [first_in_scope] finds is the first one of the
    name in document order. *)
Lemma first_in_scope_first (tag : jsstring) (n : Node) :
  forall scope,
    option_map fst (first_in_scope tag scope n)
    = hd_error (getElementsByTagName tag n).
Proof.
  unfold getElementsByTagName.
  induction n as [d|nm a ch IH] using Node_ind; intros scope;
    [reflexivity|].
  cbn [first_in_scope elements filter el_name fst].
  destruct (JS.eqb tag nm); [reflexivity|].
  generalize (in_scope scope a) as sc. intros sc.
  induction IH as [|c r Hc _ IHr]; [reflexivity|].
  cbn [flat_map]. rewrite filter_app.
  specialize (Hc sc).
  destruct (first_in_scope tag sc c) as [x|]; cbn [option_map] in Hc.
  - destruct (filter (fun e => JS.eqb tag (el_name e)) (elements c));
      [discriminate Hc|exact Hc].
  - destruct (filter (fun e => JS.eqb tag (el_name e)) (elements c));
      [exact IHr|discriminate Hc].
Qed.

(** ** The pages of an export *)

Ltac settle :=
  simpl; repeat split; auto; try discriminate; intros; discriminate.

Section GenerateFacts.
Variable env : Env.
Variable pool : AssetPool.

Lemma draw_last (x : Draw) (d : jsPDF) (p : Page) :
  draw x (d ++ [p]) =
  d ++ [{| format := format p; orientation := orientation p;
           drawn := drawn p ++ [x] |}].
Proof.
  induction d as [|q d IH]; simpl; [reflexivity|].
  rewrite IH. destruct d; reflexivity.
Qed.

Lemma add_page_pages (d : option jsPDF) f o :
  add_page d f o = pages d ++ [blank f o].
Proof. destruct d; reflexivity. Qed.

(** The [try] block only appends to the document, and whether it
    raises does not depend on the document. *)
Lemma try_page_appends files i file c d :
  exists new,
    try_page env pool files i file c d
    = ((if snd (try_page env pool files i file c None)
        then Some (pages d ++ new)
        else match new with [] => d | _ => Some (pages d ++ new) end),
       snd (try_page env pool files i file c None))
    /\ try_page env pool files i file c None
       = ((match new with [] => None | _ => Some new end),
          snd (try_page env pool files i file c None))
    /\ (snd (try_page env pool files i file c None) = true -> new <> []).
Proof.
  unfold try_page.
  destruct (throws env i Redact); [exists (@nil Page); settle|].
  destruct (throws env i Embed); [exists (@nil Page); settle|].
  destruct (throws env i Measure); [exists (@nil Page); settle|].
  destruct (throws env i AddPage); [exists (@nil Page); settle|].
  set (h := page_height env _).
  set (o := page_orientation h).
  rewrite (add_page_pages d), (add_page_pages None). simpl pages.
  destruct (throws env i Rasterize).
  { exists [blank (Custom pdfWidth h) (Some o)]. settle. }
  destruct (throws env i AddImage).
  { exists [blank (Custom pdfWidth h) (Some o)]. settle. }
  rewrite draw_last. simpl draw.
  set (p := {| format := _; orientation := _; drawn := _ |}).
  destruct ((i =? 0) && (1 <? List.length files)).
  2:{ exists [p]. settle. }
  destruct (throws env i CoverAddPage).
  { exists [p]. settle. }
  unfold add_page.
  set (bg := cover_color env files).
  destruct (negb (white bg)).
  2:{ exists [p; blank (Custom pdfWidth h) (Some o)].
      rewrite <- app_assoc. settle. }
  destruct (throws env i CoverFill).
  { exists [p; blank (Custom pdfWidth h) (Some o)].
    rewrite <- app_assoc. settle. }
  exists [p; {| format := Custom pdfWidth h; orientation := Some o;
                drawn := [FillRect bg 0 0 pdfWidth h] |}].
  rewrite (draw_last _ (pages d ++ [p])).
  rewrite <- app_assoc. settle.
Qed.

(** An iteration appends its chunk and never touches earlier pages. *)
Lemma step_pages files i file st :
  pages (doc (step env pool files i file st))
  = pages (doc st) ++ chunk env pool files i file.
Proof.
  unfold chunk, step.
  destruct (processedContent file) as [c|]; simpl;
    [|now rewrite app_nil_r].
  destruct (try_page_appends files i file c (doc st)) as (new & E & E0 & _).
  rewrite E, E0.
  destruct (snd (try_page env pool files i file c None)); simpl.
  - destruct new; simpl; [now rewrite app_nil_r|reflexivity].
  - unfold placeholder. rewrite !add_page_pages, !draw_last.
    destruct new; simpl; [reflexivity|].
    now rewrite <- app_assoc.
Qed.



Lemma step_skip files i file st :
  has_content file = false -> step env pool files i file st = st.
Proof.
  unfold has_content, step.
  destruct (processedContent file); [discriminate|reflexivity].
Qed.

Lemma loop_app files i l1 l2 st :
  loop env pool files i (l1 ++ l2) st
  = loop env pool files (i + List.length l1) l2 (loop env pool files i l1 st).
Proof.
  revert i st. induction l1 as [|f l1 IH]; intros i st; simpl.
  - now rewrite Nat.add_0_r.
  - rewrite IH. now rewrite Nat.add_succ_r.
Qed.

Lemma loop_pages files i rest st :
  pages (doc (loop env pool files i rest st))
  = pages (doc st) ++ chunks env pool files i rest.
Proof.
  revert i st. induction rest as [|f r IH]; intros i st; simpl.
  - now rewrite app_nil_r.
  - rewrite IH, step_pages. now rewrite app_assoc.
Qed.



Lemma generate_pages files :
  pages (generate env pool files) = chunks env pool files 0 files.
Proof. unfold generate, run. now rewrite loop_pages. Qed.




Lemma try_page_no_raise files i file c :
  raises env i = None ->
  try_page env pool files i file c None
  = (Some (rendered env pool file c ::
           if (i =? 0) && (1 <? List.length files)
           then [inside_cover env pool file c
                              (cover_fill env pool file c files)]
           else []), true).
Proof.
  intros H. unfold try_page, throws, rendered, inside_cover, cover_fill.
  rewrite H.
  cbn [add_page draw blank app format orientation drawn].
  destruct ((i =? 0) && (1 <? List.length files)); [|reflexivity].
  destruct (white (cover_color env files)); reflexivity.
Qed.



Lemma chunk_no_raise files i file :
  raises env i = None -> 1 <= i ->
  chunk env pool files i file
  = match processedContent file with
    | Some c => [rendered env pool file c]
    | None => []
    end.
Proof.
  intros H Hi. unfold chunk, step.
  destruct (processedContent file) as [c|]; [|reflexivity].
  cbn [doc]. rewrite (try_page_no_raise files i file c H).
  destruct i; [lia|]. reflexivity.
Qed.

Lemma chunks_no_raise files i rest :
  (forall j, raises env j = None) -> 1 <= i ->
  List.length (chunks env pool files i rest)
  = List.length (filter has_content rest).
Proof.
  intros H. revert i. induction rest as [|f r IH]; intros i Hi; simpl;
    [reflexivity|].
  rewrite length_app, (@chunk_no_raise files i f (H i) Hi), IH by lia.
  unfold has_content. destruct (processedContent f); reflexivity.
Qed.

End GenerateFacts.

(** ** The paginated export *)

(** C10.  A document whose processed content is null is skipped by the
    export loop: the iteration leaves the document under construction and
    the console as they were, so it appends no page, neither a rendered
    one nor a placeholder, it reports no error, and the document does not
    count as one that reaches Success; the run goes on from the state it
    had before. *)
Theorem null_content_is_skipped
        (env : Env) (pool : AssetPool) (files : list ProcessedSVG)
        (i : nat) (file : ProcessedSVG) (st : GState) :
  processedContent file = None ->
  step env pool files i file st = st
  /\ chunk env pool files i file = []
  /\ reaches_success env pool files i file = false
  /\ ~ In (error_page file) (chunk env pool files i file)
  /\ forall pre,
      loop env pool files i (pre ++ [file]) st
      = loop env pool files i pre st.
Proof.
  intros H.
  assert (Hc : has_content file = false) by (unfold has_content; now rewrite H).
  assert (Hk : chunk env pool files i file = []).
  { unfold chunk. now rewrite step_skip. }
  repeat split.
  - now apply step_skip.
  - exact Hk.
  - unfold reaches_success. now rewrite H.
  - rewrite Hk. intros [].
  - intros pre. rewrite loop_app. simpl. now apply step_skip.
Qed.

Lemma null_content_is_skipped_witness :
  step Sample.env [] [Sample.page_a; Sample.page_null] 1 Sample.page_null
       {| doc := Some [error_page Sample.page_a]; console := [1] |}
  = {| doc := Some [error_page Sample.page_a]; console := [1] |}.
Proof.
  apply (@null_content_is_skipped
           Sample.env [] [Sample.page_a; Sample.page_null]
           1 Sample.page_null
           {| doc := Some [error_page Sample.page_a]; console := [1] |}).
  reflexivity.
Defined.




(** C1, as the specification states it, fails: with a portrait first
    page and a landscape second page the inside cover is portrait, 420 mm
    high, while the page of the second document is landscape, 105 mm
    high. *)
Lemma inside_cover_differs_from_second_page :
  exists p0 cover p1 h0 h1,
    generate Sample.env [] [Sample.page_a; Sample.page_b]
    = Some [p0; cover; p1]
    /\ drawn cover = []
    /\ p1 = rendered Sample.env [] Sample.page_b Sample.wide
    /\ format cover = Custom pdfWidth h0
    /\ format p1 = Custom pdfWidth h1
    /\ (h0 == 420)%Q /\ (h1 == 105)%Q /\ ~ (h0 == h1)%Q
    /\ orientation cover = Some Portrait
    /\ orientation p1 = Some Landscape.
Proof.
  do 5 eexists.
  split; [vm_compute; reflexivity|].
  repeat split; try reflexivity.
  intros H. vm_compute in H. discriminate H.
Qed.

(** C1, amended.  When the first document has content and its page is
    rendered without an exception, and there is more than one document,
    the page of the first document is followed at once by one inside cover
    whose size and orientation are those computed for the page of the
    FIRST document.  It carries no image.  Of the second document it
    takes the fill alone: when the second document has content in which a
    background colour is detected, and that colour is neither #ffffff nor
    white in any case of letters, the cover is filled with it; otherwise
    nothing is drawn on the cover.  The rest of the document is what the
    later iterations append, and when no page raises the inside cover is
    the only extra page: the document has one page per input document
    with content, plus one. *)
Theorem inside_cover_follows_first_page
        (env : Env) (pool : AssetPool) (f0 f1 : ProcessedSVG)
        (rest : list ProcessedSVG) (c0 : Node) :
  processedContent f0 = Some c0 ->
  raises env 0 = None ->
  pages (generate env pool (f0 :: f1 :: rest))
  = rendered env pool f0 c0
      :: inside_cover env pool f0 c0
           (cover_fill env pool f0 c0 (f0 :: f1 :: rest))
      :: chunks env pool (f0 :: f1 :: rest) 1 (f1 :: rest)
  /\ generate env pool (f0 :: f1 :: rest) <> None
  /\ format (inside_cover env pool f0 c0
               (cover_fill env pool f0 c0 (f0 :: f1 :: rest)))
     = format (rendered env pool f0 c0)
  /\ orientation (inside_cover env pool f0 c0
                    (cover_fill env pool f0 c0 (f0 :: f1 :: rest)))
     = orientation (rendered env pool f0 c0)
  /\ (forall x, In x (cover_fill env pool f0 c0 (f0 :: f1 :: rest)) ->
      exists col w h, x = FillRect col 0 0 w h)
  /\ cover_fill env pool f0 c0 (f0 :: f1 :: rest)
     = match processedContent f1 with
       | Some c1 =>
           match truthy (detectBackgroundColor env c1) with
           | Some col =>
               if JS.eqb (toLowerCase col) (js "#ffffff")
                  || JS.eqb (toLowerCase col) (js "white")
               then []
               else [FillRect col 0 0 pdfWidth
                       (page_height env
                          (embedAssets env pool (redact c0) f0))]
           | None => []
           end
       | None => []
       end
  /\ ((forall i, raises env i = None) ->
      List.length (pages (generate env pool (f0 :: f1 :: rest)))
      = S (List.length (filter has_content (f0 :: f1 :: rest)))).
Proof.
  intros Hc H0.
  assert (E : chunk env pool (f0 :: f1 :: rest) 0 f0
              = [rendered env pool f0 c0;
                 inside_cover env pool f0 c0
                   (cover_fill env pool f0 c0 (f0 :: f1 :: rest))]).
  { unfold chunk, step. rewrite Hc. cbn [doc].
    now rewrite (@try_page_no_raise env pool (f0 :: f1 :: rest) 0 f0 c0 H0). }
  assert (P : pages (generate env pool (f0 :: f1 :: rest))
              = rendered env pool f0 c0
                  :: inside_cover env pool f0 c0
                       (cover_fill env pool f0 c0 (f0 :: f1 :: rest))
                  :: chunks env pool (f0 :: f1 :: rest) 1 (f1 :: rest)).
  { rewrite generate_pages. cbn [chunks]. now rewrite E. }
  split; [exact P|].
  split; [|split; [reflexivity|split; [reflexivity|split; [|split]]]].
  - intros N. rewrite N in P. discriminate P.
  - unfold cover_fill. intros x Hx.
    destruct (white (cover_color env (f0 :: f1 :: rest))); [destruct Hx|].
    destruct Hx as [<-|[]]. now do 3 eexists.
  - unfold cover_fill, cover_color. cbn [nth_error].
    destruct (processedContent f1) as [c1|]; [|reflexivity].
    destruct (truthy (detectBackgroundColor env c1)) as [col|];
      reflexivity.
  - intros Hall. rewrite P. cbn [List.length filter].
    unfold has_content at 1. rewrite Hc. cbn [List.length].
    do 2 f_equal.
    exact (@chunks_no_raise env pool (f0 :: f1 :: rest) 1 (f1 :: rest)
             Hall (le_n 1)).
Qed.

Lemma inside_cover_follows_first_page_witness :
  (pages (generate Sample.env [] [Sample.page_a; Sample.page_red])
   = [rendered Sample.env [] Sample.page_a Sample.tall;
      inside_cover Sample.env [] Sample.page_a Sample.tall
        (cover_fill Sample.env [] Sample.page_a Sample.tall
           [Sample.page_a; Sample.page_red]);
      rendered Sample.env [] Sample.page_red Sample.red]
   /\ exists h,
       cover_fill Sample.env [] Sample.page_a Sample.tall
         [Sample.page_a; Sample.page_red]
       = [FillRect (js "#ff0000") 0 0 pdfWidth h] /\ (h == 420)%Q)
  /\ cover_fill Sample.env [] Sample.page_a Sample.tall
       [Sample.page_a; Sample.page_bare_red]
     = [].
Proof.
  destruct (@inside_cover_follows_first_page
              Sample.env [] Sample.page_a Sample.page_red [] Sample.tall
              eq_refl eq_refl) as (P & _ & _ & _ & _ & F & _).
  destruct (@inside_cover_follows_first_page
              Sample.env [] Sample.page_a Sample.page_bare_red [] Sample.tall
              eq_refl eq_refl) as (_ & _ & _ & _ & _ & F' & _).
  split; [split; [exact P|]|].
  - eexists. split; [rewrite F; reflexivity|reflexivity].
  - rewrite F'. reflexivity.
Defined.

(** ** Text masking *)

Lemma mask_length (s : jsstring) :
  List.length (mask s)
  = List.length s + 2 * List.length (filter (fun c => negb (is_ws c)) s).
Proof.
  induction s as [|c s IH]; [reflexivity|].
  unfold mask, replace_ink in *. cbn [flat_map filter].
  rewrite length_app, IH.
  destruct (is_ws c); simpl; lia.
Qed.

(** With a replacement of one character that is not white space, the
    replacement keeps the length and the white space where it is. *)
Lemma replace_ink_one (g : N) (s : jsstring) :
  is_ws g = false ->
  List.length (replace_ink [g] s) = List.length s
  /\ forall i, is_ws (nth i (replace_ink [g] s) 0%N) = is_ws (nth i s 0%N).
Proof.
  intros Hg. unfold replace_ink.
  induction s as [|c s [IHl IHn]]; [split; [reflexivity|now intros [|i]]|].
  cbn [flat_map]. destruct (is_ws c) eqn:Ec; cbn [app List.length].
  - split; [now rewrite IHl|]. intros [|i]; [reflexivity|apply IHn].
  - split; [now rewrite IHl|]. intros [|i]; cbn [nth]; [congruence|apply IHn].
Qed.

(** C6.  The code does not do what the claim says.  The replacement
    text of the source is not one glyph but the three code units U+00E2,
    U+2013, U+00AE (the bytes of U+25AE read in a one-byte encoding), so
    every character that is not white space becomes three: the masked text
    is longer by twice their number.  For the text Hello World under an
    element tagged redact-text the masked text has 31 code units, not 11,
    and at index 5, where the original has its space, the masked text has
    a character that is not white space.  The replacement itself is as the
    claim describes it: with the single glyph U+25AE for replacement text
    it keeps the length and the place of every white space. *)
Theorem mask_triples_each_character :
  (forall s,
      List.length (mask s)
      = List.length s
        + 2 * List.length (filter (fun c => negb (is_ws c)) s))
  /\ (forall s,
        List.length (replace_ink [9646%N] s) = List.length s
        /\ forall i, is_ws (nth i (replace_ink [9646%N] s) 0%N)
                     = is_ws (nth i s 0%N))
  /\ List.length mask_text = 3
  /\ text_leaves (redact Sample.hello) = [mask (js "Hello World")]
  /\ List.length (js "Hello World") = 11
  /\ List.length (mask (js "Hello World")) = 31
  /\ is_ws (nth 5 (js "Hello World") 0%N) = true
  /\ is_ws (nth 5 (mask (js "Hello World")) 0%N) = false.
Proof.
  split; [exact mask_length|].
  split; [intros s; now apply replace_ink_one|].
  repeat split; reflexivity.
Qed.

(** ** Tag toggling *)

Module Import TagFacts.
Import TaggingEditor.

Lemma has_In (t : jsstring) (s : TagSet) : has t s = true <-> In t s.
Proof.
  unfold has. rewrite existsb_exists. split.
  - intros (x & Hx & E). apply eqb_eq in E. now subst.
  - intros H. exists t. split; [exact H|apply eqb_refl].
Qed.

Lemma has_not_In (t : jsstring) (s : TagSet) : has t s = false <-> ~ In t s.
Proof.
  rewrite <- has_In. destruct (has t s); split; congruence.
Qed.

Lemma delete_In (tag t : jsstring) (s : TagSet) :
  In t (delete tag s) <-> In t s /\ t <> tag.
Proof.
  unfold delete. rewrite filter_In. split; intros [H1 H2]; split; auto.
  - apply negb_true_iff, eqb_neq in H2. congruence.
  - apply negb_true_iff, eqb_neq. congruence.
Qed.

Lemma add_In (tag t : jsstring) (s : TagSet) :
  In t (add tag s) <-> In t s \/ t = tag.
Proof.
  unfold add. destruct (has tag s) eqn:E.
  - apply has_In in E. split; [now left|]. intros [H| ->]; assumption.
  - rewrite in_app_iff. simpl. intuition (subst; auto).
Qed.

Lemma add_NoDup (tag : jsstring) (s : TagSet) :
  NoDup s -> NoDup (add tag s).
Proof.
  intros H. unfold add. destruct (has tag s) eqn:E; [exact H|].
  apply has_not_In in E.
  apply NoDup_app; [exact H|repeat constructor; now intros []|].
  intros x Hx [<-|[]]. contradiction.
Qed.

Lemma set_of_acc (l acc : list jsstring) :
  NoDup acc ->
  NoDup (fold_left (fun s t => add t s) l acc)
  /\ forall t, In t (fold_left (fun s t => add t s) l acc)
               <-> In t acc \/ In t l.
Proof.
  revert acc. induction l as [|x l IH]; intros acc Hn; simpl.
  - split; [exact Hn|]. intros t. tauto.
  - destruct (IH (add x acc) (add_NoDup x Hn)) as [N I].
    split; [exact N|]. intros t. rewrite I, add_In.
    split; intros H; intuition (subst; auto).
Qed.

Lemma set_of_NoDup_id (l acc : list jsstring) :
  NoDup (acc ++ l) -> fold_left (fun s t => add t s) l acc = acc ++ l.
Proof.
  revert acc. induction l as [|x l IH]; intros acc Hn; simpl.
  - now rewrite app_nil_r.
  - assert (E : add x acc = acc ++ [x]).
    { unfold add. destruct (has x acc) eqn:Hx; [|reflexivity].
      apply has_In in Hx. apply NoDup_remove_2 in Hn.
      exfalso. apply Hn. apply in_or_app. now left. }
    rewrite E, IH; rewrite <- app_assoc; [reflexivity|exact Hn].
Qed.

Lemma set_of_fixed (s : TagSet) : NoDup s -> set_of s = s.
Proof. intros H. unfold set_of. now rewrite set_of_NoDup_id. Qed.

Lemma split_free (w : jsstring) : ~ In comma w -> split comma w = [w].
Proof.
  induction w as [|x w IH]; intros H; simpl; [reflexivity|].
  destruct (N.eqb x comma) eqn:E.
  - apply N.eqb_eq in E. exfalso. apply H. now left.
  - rewrite IH; [reflexivity|]. intros Hin. apply H. now right.
Qed.

Lemma split_app_sep (w r : jsstring) :
  ~ In comma w -> split comma (w ++ comma :: r) = w :: split comma r.
Proof.
  induction w as [|x w IH]; intros H; simpl.
  - reflexivity.
  - destruct (N.eqb x comma) eqn:E.
    + apply N.eqb_eq in E. exfalso. apply H. now left.
    + rewrite IH; [reflexivity|]. intros Hin. apply H. now right.
Qed.

Lemma split_join (l : list jsstring) :
  l <> [] -> Forall (fun w => ~ In comma w) l ->
  split comma (join comma l) = l.
Proof.
  induction l as [|w l IH]; intros Hne Hf; [congruence|].
  inversion Hf as [|? ? Hw Hl]; subst.
  destruct l as [|w2 l].
  - simpl. now apply split_free.
  - change (join comma (w :: w2 :: l))
      with (w ++ comma :: join comma (w2 :: l)).
    rewrite split_app_sep by exact Hw.
    rewrite IH; [reflexivity|discriminate|exact Hl].
Qed.

Lemma split_pieces_free (s : jsstring) :
  Forall (fun w => ~ In comma w) (split comma s).
Proof.
  induction s as [|x s IH]; simpl.
  - constructor; [now intros []|constructor].
  - destruct (N.eqb x comma) eqn:E.
    + constructor; [now intros []|exact IH].
    + destruct (split comma s) as [|w ws]; [repeat constructor|].
      * intros [H|[]]. subst. now rewrite N.eqb_refl in E.
      * inversion IH as [|? ? Hw Hws]; subst. constructor; [|exact Hws].
        intros [H|H]; [subst; now rewrite N.eqb_refl in E|contradiction].
Qed.

Lemma join_not_empty (w : jsstring) (l : list jsstring) :
  w <> [] -> join comma (w :: l) <> [].
Proof.
  intros Hw. destruct l; simpl; [exact Hw|].
  destruct w; [congruence|discriminate].
Qed.

Lemma currentTags_NoDup (a : Attrs) : NoDup (currentTags a).
Proof.
  unfold currentTags.
  destruct (truthy (getAttribute (js "data-tags") a)); [|constructor].
  apply set_of_acc. constructor.
Qed.

Lemma currentTags_free (a : Attrs) :
  Forall (fun w => ~ In comma w) (currentTags a).
Proof.
  unfold currentTags.
  destruct (truthy (getAttribute (js "data-tags") a)) as [s|]; [|constructor].
  apply Forall_forall. intros t Ht.
  apply (set_of_acc (split comma s) (NoDup_nil _)) in Ht as [[]|Ht].
  exact (proj1 (Forall_forall _ _) (split_pieces_free s) t Ht).
Qed.

Lemma toggle_one_In (cur : TagSet) (tag t : jsstring) :
  In t (toggle_one cur tag)
  <-> (In t cur /\ t <> tag) \/ (t = tag /\ ~ In tag cur).
Proof.
  unfold toggle_one. destruct (has tag cur) eqn:E.
  - apply has_In in E. rewrite delete_In. tauto.
  - apply has_not_In in E. rewrite add_In.
    destruct (list_eq_dec N.eq_dec t tag) as [->|Hne]; tauto.
Qed.

Lemma toggle_one_NoDup (cur : TagSet) (tag : jsstring) :
  NoDup cur -> NoDup (toggle_one cur tag).
Proof.
  intros H. unfold toggle_one. destruct (has tag cur).
  - unfold delete. now apply NoDup_filter.
  - now apply add_NoDup.
Qed.

Lemma In_dec_tag (t : jsstring) (s : TagSet) : In t s \/ ~ In t s.
Proof.
  destruct (has t s) eqn:E;
    [left; now apply has_In|right; now apply has_not_In].
Qed.

Lemma toggle_In (active cur : TagSet) (t : jsstring) :
  NoDup active ->
  (In t (toggle active cur)
   <-> (In t cur /\ ~ In t active) \/ (~ In t cur /\ In t active)).
Proof.
  unfold toggle. change (fun cur tag => if has tag cur then delete tag cur
                                        else add tag cur) with toggle_one.
  revert cur. induction active as [|tag rest IH]; intros cur Hn; simpl.
  - tauto.
  - inversion Hn as [|? ? Hnot Hrest]; subst.
    rewrite (IH _ Hrest), toggle_one_In.
    destruct (In_dec_tag t cur), (In_dec_tag t rest),
      (In_dec_tag tag cur);
      destruct (list_eq_dec N.eq_dec t tag) as [->|Hne];
      intuition congruence.
Qed.

Lemma toggle_NoDup (active cur : TagSet) :
  NoDup cur -> NoDup (toggle active cur).
Proof.
  unfold toggle. change (fun cur tag => if has tag cur then delete tag cur
                                        else add tag cur) with toggle_one.
  revert cur. induction active as [|tag rest IH]; intros cur Hn; simpl;
    [exact Hn|].
  apply IH. now apply toggle_one_NoDup.
Qed.

(** After a click the element carries exactly the toggled set, as long
    as its names are well formed. *)
Lemma currentTags_after_click (active : TagSet) (a : Attrs) :
  active <> [] ->
  NoDup (toggle active (currentTags a)) ->
  Forall well_formed_tag (toggle active (currentTags a)) ->
  currentTags (handleSvgClick active a) = toggle active (currentTags a).
Proof.
  intros Ha Hn Hw. unfold handleSvgClick.
  destruct active as [|t0 rest]; [congruence|].
  set (s := toggle (t0 :: rest) (currentTags a)) in *.
  destruct s as [|w l] eqn:Es.
  - simpl. unfold currentTags. now rewrite getAttribute_remove_same.
  - inversion Hw as [|? ? [Hw1 Hw2] Hl]; subst.
    assert (Hj := join_not_empty l Hw1).
    destruct (join comma (w :: l)) as [|c j] eqn:Ej; [congruence|].
    unfold currentTags at 1. rewrite getAttribute_set_same. simpl truthy.
    rewrite <- Ej, split_join; [now apply set_of_fixed|discriminate|].
    constructor; [exact Hw2|].
    eapply Forall_impl; [|exact Hl]. intros x [_ Hx]. exact Hx.
Qed.

End TagFacts.

(** C7, as the specification states it, fails: the tag named [a,b],
    which the tag form accepts, toggled twice on an element without tags,
    leaves the element with the tags [a] and [b]. *)
Lemma toggle_twice_with_comma :
  let active := [js "a,b"] in
  let a2 := TaggingEditor.handleSvgClick active
              (TaggingEditor.handleSvgClick active []) in
  active <> []
  /\ tag_set [] = []
  /\ tag_set a2 = [js "a"; js "b"]
  /\ ~ same_tags (tag_set a2) (tag_set []).
Proof.
  repeat split; try reflexivity; try discriminate.
  intros H. apply (proj1 (H (js "a"))). now left.
Qed.

(** C7, amended.  For every element whose tag annotation holds no empty
    name, and every non-empty set of active tags each of which is not
    empty and has no comma, toggling the active tags twice in succession
    restores the tag set of the element, as a set, whatever the order.
    ([NoDup] says that the active tags are a set.) *)
Theorem toggle_twice_restores (active : list jsstring) (a : Attrs) :
  active <> [] ->
  NoDup active ->
  Forall well_formed_tag active ->
  ~ In [] (tag_set a) ->
  same_tags
    (tag_set (TaggingEditor.handleSvgClick active
                (TaggingEditor.handleSvgClick active a)))
    (tag_set a).
Proof.
  intros Hne Hnd Hwf Hemp. unfold tag_set in *.
  set (s0 := TaggingEditor.currentTags a) in *.
  assert (N0 : NoDup s0) by apply currentTags_NoDup.
  assert (W0 : Forall well_formed_tag s0).
  { apply Forall_forall. intros t Ht. split.
    - intros ->. contradiction.
    - exact (proj1 (Forall_forall _ _) (currentTags_free a) t Ht). }
  assert (Wt : forall s, Forall well_formed_tag s ->
                Forall well_formed_tag (TaggingEditor.toggle active s)).
  { intros s Hs. apply Forall_forall. intros t Ht.
    apply (toggle_In s t Hnd) in Ht as [[Ht _]|[_ Ht]].
    - exact (proj1 (Forall_forall _ _) Hs t Ht).
    - exact (proj1 (Forall_forall _ _) Hwf t Ht). }
  assert (E1 : TaggingEditor.currentTags (TaggingEditor.handleSvgClick active a)
               = TaggingEditor.toggle active s0).
  { apply currentTags_after_click; [exact Hne| |now apply Wt].
    now apply toggle_NoDup. }
  assert (E2 : TaggingEditor.currentTags
                 (TaggingEditor.handleSvgClick active
                    (TaggingEditor.handleSvgClick active a))
               = TaggingEditor.toggle active (TaggingEditor.toggle active s0)).
  { rewrite currentTags_after_click; rewrite ?E1; [reflexivity|exact Hne| |].
    - now apply toggle_NoDup, toggle_NoDup.
    - now apply Wt, Wt. }
  rewrite E2. intros t.
  rewrite (toggle_In _ t Hnd), (toggle_In s0 t Hnd).
  destruct (In_dec_tag t s0), (In_dec_tag t active); tauto.
Qed.

Lemma toggle_twice_restores_witness :
  same_tags
    (tag_set (TaggingEditor.handleSvgClick [js "redact-text"; js "draft"]
                (TaggingEditor.handleSvgClick [js "redact-text"; js "draft"]
                   [(js "data-tags", js "draft,cover")])))
    (tag_set [(js "data-tags", js "draft,cover")]).
Proof.
  apply toggle_twice_restores.
  - discriminate.
  - repeat constructor; simpl; intuition discriminate.
  - repeat constructor; try discriminate; vm_compute; intuition discriminate.
  - vm_compute. intuition discriminate.
Defined.

(** ** Asset resolution *)

Section ResolutionFacts.
Variable env : Env.
Variable pool : AssetPool.

Lemma sound_record href name b st :
  startsWith (js "http") href = true
  \/ pool_get (getFilename env href) pool <> None ->
  sound env pool st -> sound env pool (record_asset href name b st).
Proof.
  intros Hk [Hm He]. split; [|exact He].
  intros k v. simpl.
  destruct (list_eq_dec N.eq_dec k href) as [->|Hne]; [intros _; exact Hk|].
  rewrite getAttribute_set_other by exact Hne. apply Hm.
Qed.

Lemma sound_error href m st :
  startsWith (js "http") href = true ->
  sound env pool st -> sound env pool (push_error (load_error href m) st).
Proof.
  intros Hh [Hm He]. split; [exact Hm|]. simpl.
  apply Forall_app. split; [exact He|].
  constructor; [|constructor]. now exists href, m.
Qed.

Lemma sound_processAsset href isFont st :
  sound env pool st ->
  sound env pool (snd (processAsset env pool href isFont st)).
Proof.
  intros Hs. unfold processAsset.
  destruct (is_empty href || startsWith (js "data:") href
            || startsWith (js "#") href); [exact Hs|].
  destruct (truthy (getAttribute href (urlToFilenameMap st))); [exact Hs|].
  destruct (pool_get (getFilename env href) pool) as [b|] eqn:Hp.
  - simpl. apply sound_record; [right; congruence|exact Hs].
  - destruct (startsWith (js "http") href) eqn:Hh; [|exact Hs].
    assert (Hf : sound env pool (fetched st)) by exact Hs.
    destruct (fetch env (b_fetches st) href) as [m|[|] ct [m|b]]; simpl.
    + now apply sound_error.
    + now apply sound_error.
    + apply sound_record; [now left|exact Hf].
    + now apply sound_error.
    + now apply sound_error.
Qed.

Lemma reachable_sound st : reachable env pool st -> sound env pool st.
Proof.
  induction 1 as [|st href isFont _ IH|st total _ IH].
  - split; [discriminate|constructor].
  - now apply sound_processAsset.
  - exact IH.
Qed.

(** A network reference is none of the references that are skipped. *)
Lemma http_not_skipped href :
  startsWith (js "http") href = true ->
  is_empty href || startsWith (js "data:") href || startsWith (js "#") href
  = false.
Proof.
  intros H. change (js "http") with [104; 116; 116; 112]%N in H.
  destruct href as [|c href]; cbn [startsWith] in H; [discriminate H|].
  destruct (N.eqb 104 c) eqn:E; [|discriminate H].
  apply N.eqb_eq in E. subst c. reflexivity.
Qed.

Lemma visit_reachable f n st :
  (forall nm a s,
      reachable env pool s -> reachable env pool (snd (f nm a s))) ->
  reachable env pool st -> reachable env pool (snd (visit f n st)).
Proof.
  intros Hf. revert st.
  induction n as [d|nm a ch IH] using Node_ind; intros st Hr; [exact Hr|].
  cbn [visit]. specialize (Hf nm a st Hr).
  destruct (f nm a st) as [a' s1]. cbn [snd] in Hf.
  revert s1 Hf. induction IH as [|c r Hc _ IHr]; intros s1 H1.
  - exact H1.
  - specialize (Hc s1 H1). destruct (visit f c s1) as [c' s']. cbn [snd] in Hc.
    specialize (IHr s' Hc).
    destruct ((fix go (l : list Node) (s : BState) {struct l} :=
                 match l with
                 | [] => ([], s)
                 | c0 :: r0 =>
                     let '(c'0, s'0) := visit f c0 s in
                     let '(r', s'') := go r0 s'0 in (c'0 :: r', s'')
                 end) r s') as [r' s''].
    exact IHr.
Qed.

Lemma process_image_reachable total a st :
  reachable env pool st ->
  reachable env pool (snd (process_image env pool total a st)).
Proof.
  intros Hr. unfold process_image.
  destruct (truthy (or_else (getAttribute (js "href") a)
                            (getAttribute (js "xlink:href") a))) as [href|].
  - pose proof (reach_asset href false Hr) as H.
    destruct (processAsset env pool href false st) as [[name|] st1];
      cbn [snd] in *; now apply reach_progress.
  - now apply reach_progress.
Qed.

Lemma process_matches_reachable total ms css st :
  reachable env pool st ->
  reachable env pool (snd (process_matches env pool total ms css st)).
Proof.
  revert css st. induction ms as [|url ms IH]; intros css st Hr; [exact Hr|].
  cbn [process_matches].
  destruct (isFontFile url).
  - pose proof (reach_asset url true Hr) as H.
    destruct (processAsset env pool url true st) as [[name|] st1];
      cbn [snd] in H; apply IH; now apply reach_progress.
  - apply IH. now apply reach_progress.
Qed.

Lemma style_pass_reachable total n st :
  reachable env pool st ->
  reachable env pool (snd (style_pass env pool total n st)).
Proof.
  revert st.
  induction n as [d|nm a ch IH] using Node_ind; intros st Hr; [exact Hr|].
  cbn [style_pass].
  set (go := fix go (l : list Node) (st : BState) {struct l} :=
               match l with
               | [] => ([], st)
               | c :: r =>
                   let '(c', st1) := style_pass env pool total c st in
                   let '(r', st2) := go r st1 in (c' :: r', st2)
               end).
  assert (G : forall s, reachable env pool s ->
                        reachable env pool (snd (go ch s))).
  { induction IH as [|c r Hc _ IHr]; intros s Hs; [exact Hs|].
    cbn [go]. specialize (Hc s Hs).
    destruct (style_pass env pool total c s) as [c' s1]. cbn [snd] in Hc.
    specialize (IHr s1 Hc). destruct (go r s1) as [r' s2]. exact IHr. }
  destruct (JS.eqb nm (js "style")).
  - destruct (UrlRegex.matchAll (flat_map textContent ch)) as [|u ms] eqn:Em.
    + specialize (G st Hr). destruct (go ch st). exact G.
    + pose proof (process_matches_reachable total (u :: ms)
                    (flat_map textContent ch) Hr) as H.
      destruct (process_matches env pool total (u :: ms)
                  (flat_map textContent ch) st) as [css' st1].
      cbn [snd] in H. specialize (G st1 H). destruct (go ch st1). exact G.
  - specialize (G st Hr). destruct (go ch st). exact G.
Qed.

Lemma bundleResources_errors doc r :
  bundleResources env doc pool = inr r -> Forall network_error (r_errors r).
Proof.
  unfold bundleResources.
  destruct (getElementsByTagName (js "parsererror") doc); [|discriminate].
  set (total := _ + _).
  pose proof (@visit_reachable
                (fun nm a st => if JS.eqb nm (js "image")
                                then process_image env pool total a st
                                else (a, st)) doc initial) as H1.
  unfold image_pass.
  destruct (visit _ doc initial) as [doc1 st1]. cbn [snd] in H1.
  assert (R1 : reachable env pool st1).
  { apply H1; [|constructor]. intros nm a s Hs.
    destruct (JS.eqb nm (js "image")); [|exact Hs].
    now apply process_image_reachable. }
  pose proof (style_pass_reachable total doc1 R1) as H2.
  destruct (style_pass env pool total doc1 st1) as [doc2 st2].
  cbn [snd] in H2. intros E. injection E as <-. simpl.
  exact (proj2 (reachable_sound H2)).
Qed.

End ResolutionFacts.

Lemma startsWith_app (p s t : jsstring) :
  startsWith p s = true -> startsWith p (s ++ t) = true.
Proof.
  revert s. induction p as [|x p IH]; intros [|y s]; simpl; try reflexivity;
    try discriminate.
  intros H. apply andb_prop in H as [H1 H2]. now rewrite H1, IH.
Qed.

(** A load error names a network reference only if the reference it
    names is one. *)
Lemma load_error_names_http (href m : jsstring) :
  network_error (load_error href m) -> startsWith (js "http") href = true.
Proof.
  intros (h & m' & E & Hh).
  unfold load_error in E. apply app_inv_head in E.
  assert (H : startsWith (js "http") (href ++ js ": " ++ m) = true).
  { rewrite E. now apply startsWith_app. }
  clear - H. change (js "http") with [104; 116; 116; 112]%N in *.
  change (js ": ") with [58; 32]%N in H.
  destruct href as [|c1 [|c2 [|c3 [|c4 r]]]];
    cbn [startsWith app] in H |- *;
    repeat match type of H with
           | context [N.eqb ?a ?b] => is_var b; destruct (N.eqb a b)
           end;
    cbn in H |- *; try discriminate H; reflexivity.
Qed.

Lemma processAsset_errors env pool href isFont st :
  b_errors (snd (processAsset env pool href isFont st)) = b_errors st
  \/ exists e, b_errors (snd (processAsset env pool href isFont st))
               = b_errors st ++ [e] /\ network_error e.
Proof.
  unfold processAsset.
  destruct (is_empty href || startsWith (js "data:") href
            || startsWith (js "#") href); [now left|].
  destruct (truthy (getAttribute href (urlToFilenameMap st))); [now left|].
  destruct (pool_get (getFilename env href) pool) as [b|]; [now left|].
  destruct (startsWith (js "http") href) eqn:E; [|now left].
  destruct (fetch env (b_fetches st) href) as [m|[|] ct [m|b]]; cbn;
    try (now left); right; eexists; (split; [reflexivity|]);
    now eexists _, _.
Qed.

Lemma process_image_snd env pool total a st :
  snd (process_image env pool total a st)
  = updateProgress total
      match truthy (or_else (getAttribute (js "href") a)
                            (getAttribute (js "xlink:href") a)) with
      | Some href => snd (processAsset env pool href false st)
      | None => st
      end.
Proof.
  unfold process_image.
  destruct (truthy (or_else (getAttribute (js "href") a)
                            (getAttribute (js "xlink:href") a))) as [h|];
    [|reflexivity].
  destruct (processAsset env pool h false st) as [[n|] st1]; reflexivity.
Qed.

(** C4, as the specification states it, fails: bundling a page whose
    image refers to pics/a.jpg, a relative reference without a match in the
    empty pool, leaves the reference as it is and records no error. *)
Lemma relative_reference_without_error :
  startsWith (js "http") (js "pics/a.jpg") = false
  /\ pool_get (getFilename Sample.env (js "pics/a.jpg")) [] = None
  /\ exists r,
      bundleResources Sample.env Sample.relative_image [] = inr r
      /\ content r = Sample.relative_image
      /\ r_assets r = []
      /\ r_errors r = [].
Proof.
  split; [reflexivity|]. split; [reflexivity|].
  eexists. split; [reflexivity|]. repeat split; reflexivity.
Qed.




(** ** The redaction transform *)

Lemma labels_Elem nm a ch :
  labels (Elem nm a ch) = (nm, a) :: flat_map labels ch.
Proof.
  unfold labels. cbn [elements map]. f_equal.
  induction ch as [|c r IH]; [reflexivity|].
  cbn [flat_map]. now rewrite map_app, IH.
Qed.

Lemma flat_map_ext_Forall (A B : Type) (f g : A -> list B) (l : list A) :
  Forall (fun x => f x = g x) l -> flat_map f l = flat_map g l.
Proof.
  induction 1 as [|x r Hx _ IH]; [reflexivity|].
  cbn [flat_map]. now rewrite Hx, IH.
Qed.

Lemma map_ext_Forall_eq (A B : Type) (f g : A -> B) (l : list A) :
  Forall (fun x => f x = g x) l -> map f l = map g l.
Proof.
  induction 1 as [|x r Hx _ IH]; [reflexivity|].
  cbn [map]. now rewrite Hx, IH.
Qed.

Lemma labels_erase n : labels (erase n) = labels n.
Proof.
  induction n as [d|nm a ch IH] using Node_ind; [reflexivity|].
  cbn [erase]. rewrite !labels_Elem. f_equal.
  rewrite flat_map_concat_map, map_map, <- flat_map_concat_map.
  now apply flat_map_ext_Forall.
Qed.

Lemma erase_redactTextNodes n : erase (redactTextNodes n) = erase n.
Proof.
  induction n as [d|nm a ch IH] using Node_ind.
  - cbn [redactTextNodes]. destruct (has_ink d); reflexivity.
  - cbn [redactTextNodes erase]. f_equal. rewrite map_map.
    now apply map_ext_Forall_eq.
Qed.

Lemma erase_update_nth i f ch :
  (forall c, erase (f c) = erase c) ->
  map erase (update_nth i f ch) = map erase ch.
Proof.
  intros Hf. revert i. induction ch as [|c r IH]; intros [|i]; cbn;
    try reflexivity.
  - now rewrite Hf.
  - now rewrite IH.
Qed.

Lemma erase_update_at p f n :
  (forall c, erase (f c) = erase c) ->
  erase (update_at p f n) = erase n.
Proof.
  intros Hf. revert n. induction p as [|i p IH]; intros n; [apply Hf|].
  destruct n as [nm a ch|d]; [|reflexivity].
  cbn [update_at erase]. f_equal. now apply erase_update_nth.
Qed.

Lemma erase_redact_text doc : erase (redact_text doc) = erase doc.
Proof.
  unfold redact_text.
  generalize (paths (js "text") doc ++ paths (js "tspan") doc).
  intros ps. revert doc. induction ps as [|p ps IH]; intros doc;
    [reflexivity|].
  cbn [fold_left]. rewrite IH. unfold redact_container.
  destruct (node_at p doc) as [[nm a ch|d]|]; try reflexivity.
  destruct (shouldRedact a); [|reflexivity].
  apply erase_update_at, erase_redactTextNodes.
Qed.

Lemma labels_redact_text doc : labels (redact_text doc) = labels doc.
Proof. now rewrite <- labels_erase, erase_redact_text, labels_erase. Qed.

Lemma filter_map_length (A B : Type) (f : A -> B) (g : B -> bool)
      (l : list A) :
  List.length (filter (fun x => g (f x)) l)
  = List.length (filter g (map f l)).
Proof.
  induction l as [|x l IH]; [reflexivity|]. cbn [filter map].
  destruct (g (f x)); cbn [List.length]; now rewrite IH.
Qed.

Lemma filter_twice (A : Type) (p q : A -> bool) (l : list A) :
  filter p (filter q l) = filter (fun x => q x && p x) l.
Proof.
  induction l as [|x l IH]; [reflexivity|]. cbn [filter].
  destruct (q x); cbn [filter andb]; [|exact IH].
  destruct (p x); now rewrite IH.
Qed.

Lemma filter_count_labels doc : filter_count doc = ids (labels doc).
Proof.
  unfold filter_count, ids, labels.
  now rewrite <- (filter_map_length label lab_id).
Qed.

Lemma target_count_labels doc :
  List.length (imagesToRedact doc) = targets (labels doc).
Proof.
  unfold imagesToRedact, getElementsByTagName, targets, labels.
  rewrite filter_twice.
  now rewrite <- (filter_map_length label lab_target).
Qed.

Lemma ids_app l1 l2 : ids (l1 ++ l2) = ids l1 + ids l2.
Proof. unfold ids. now rewrite filter_app, length_app. Qed.

Lemma targets_app l1 l2 : targets (l1 ++ l2) = targets l1 + targets l2.
Proof. unfold targets. now rewrite filter_app, length_app. Qed.

Lemma getElementById_count doc :
  getElementById FILTER_ID doc = None <-> filter_count doc = 0.
Proof.
  unfold getElementById, filter_count.
  induction (elements doc) as [|e l IH]; cbn [find filter]; [tauto|].
  destruct (has_id FILTER_ID e); cbn [List.length]; [|exact IH].
  split; discriminate.
Qed.

Lemma labels_map_attrs f n :
  labels (map_attrs f n) = map (fun x => (fst x, f (fst x) (snd x))) (labels n).
Proof.
  induction n as [d|nm a ch IH] using Node_ind; [reflexivity|].
  cbn [map_attrs]. rewrite !labels_Elem. cbn [map fst snd]. f_equal.
  rewrite flat_map_concat_map, map_map, <- flat_map_concat_map.
  rewrite (flat_map_ext_Forall _ _ IH).
  induction ch as [|c r IHr]; [reflexivity|].
  cbn [flat_map]. rewrite map_app. f_equal.
  apply IHr. now inversion IH.
Qed.

Lemma set_filter_id x :
  lab_id (fst x, set_filter (fst x) (snd x)) = lab_id x.
Proof.
  unfold lab_id, set_filter. cbn [snd].
  destruct (JS.eqb (js "image") (fst x) && shouldRedact (snd x));
    [|reflexivity].
  now rewrite getAttribute_set_other by discriminate.
Qed.

Lemma set_filter_target x :
  lab_target (fst x, set_filter (fst x) (snd x)) = lab_target x.
Proof.
  unfold lab_target, set_filter. cbn [fst snd].
  destruct (JS.eqb (js "image") (fst x)); [|reflexivity]. cbn [andb].
  destruct (shouldRedact (snd x)) eqn:E; [|exact E].
  unfold shouldRedact in *.
  now rewrite getAttribute_set_other by discriminate.
Qed.

Lemma ids_set_filter l :
  ids (map (fun x => (fst x, set_filter (fst x) (snd x))) l) = ids l.
Proof.
  unfold ids. rewrite <- filter_map_length.
  induction l as [|x l IH]; [reflexivity|]. cbn [filter].
  rewrite set_filter_id. destruct (lab_id x); cbn [List.length];
    now rewrite IH.
Qed.

Lemma targets_set_filter l :
  targets (map (fun x => (fst x, set_filter (fst x) (snd x))) l) = targets l.
Proof.
  unfold targets. rewrite <- filter_map_length.
  induction l as [|x l IH]; [reflexivity|]. cbn [filter].
  rewrite set_filter_target. destruct (lab_target x); cbn [List.length];
    now rewrite IH.
Qed.

(** Appending a child to the first element of a name inserts the
    labels of the child among those of the tree. *)
Lemma append_labels tag c n n' :
  append_to_first tag c n = Some n' ->
  exists l1 l2, labels n = l1 ++ l2 /\ labels n' = l1 ++ labels c ++ l2.
Proof.
  revert n'. induction n as [d|nm a ch IH] using Node_ind; intros n';
    [discriminate|].
  cbn [append_to_first].
  destruct (JS.eqb tag nm).
  - intros E. injection E as <-. exists (labels (Elem nm a ch)), [].
    rewrite !app_nil_r. split; [reflexivity|].
    rewrite !labels_Elem, flat_map_app. cbn [flat_map].
    now rewrite app_nil_r.
  - set (go := fix go (l : list Node) : option (list Node) :=
                 match l with
                 | [] => None
                 | x :: r =>
                     match append_to_first tag c x with
                     | Some x' => Some (x' :: r)
                     | None => match go r with
                               | Some r' => Some (x :: r')
                               | None => None
                               end
                     end
                 end).
    assert (G : forall ch', go ch = Some ch' ->
                exists l1 l2, flat_map labels ch = l1 ++ l2
                              /\ flat_map labels ch' = l1 ++ labels c ++ l2).
    { induction IH as [|x r Hx _ IHr]; intros ch'; [discriminate|].
      cbn [go]. destruct (append_to_first tag c x) as [x'|].
      - intros E. injection E as <-.
        destruct (Hx x' eq_refl) as (m1 & m2 & E1 & E2).
        exists m1, (m2 ++ flat_map labels r). cbn [flat_map].
        rewrite E1, E2. now rewrite <- !app_assoc.
      - destruct (go r) as [r'|]; [|discriminate].
        intros E. injection E as <-.
        destruct (IHr r' eq_refl) as (m1 & m2 & E1 & E2).
        exists (labels x ++ m1), m2. cbn [flat_map].
        rewrite E1, E2. now rewrite <- !app_assoc. }
    destruct (go ch) as [ch'|]; [|discriminate].
    intros E. injection E as <-.
    destruct (G ch' eq_refl) as (m1 & m2 & E1 & E2).
    exists ((nm, a) :: m1), m2. rewrite !labels_Elem, E1, E2.
    now split.
Qed.

Lemma append_some tag c n :
  getElementsByTagName tag n <> [] ->
  append_to_first tag c n <> None.
Proof.
  induction n as [d|nm a ch IH] using Node_ind; [intros H; now elim H|].
  unfold getElementsByTagName.
  cbn [elements filter el_name fst append_to_first].
  destruct (JS.eqb tag nm); [discriminate|].
  set (go := fix go (l : list Node) : option (list Node) :=
               match l with
               | [] => None
               | x :: r =>
                   match append_to_first tag c x with
                   | Some x' => Some (x' :: r)
                   | None => match go r with
                             | Some r' => Some (x :: r')
                             | None => None
                             end
                   end
               end).
  intros H.
  assert (G : go ch <> None).
  { induction IH as [|x r Hx _ IHr]; [now elim H|].
    cbn [go]. cbn [flat_map] in H. rewrite filter_app in H.
    destruct (append_to_first tag c x) as [x'|]; [discriminate|].
    destruct (filter (fun e => JS.eqb tag (el_name e)) (elements x)) eqn:Ex.
    - specialize (IHr H). destruct (go r); [discriminate|congruence].
    - exfalso. apply Hx; [|reflexivity]. unfold getElementsByTagName.
      rewrite Ex. discriminate. }
  destruct (go ch); [discriminate|congruence].
Qed.

Lemma ensure_defs_counts doc :
  ids (labels (ensure_defs doc)) = ids (labels doc)
  /\ targets (labels (ensure_defs doc)) = targets (labels doc)
  /\ (targets (labels doc) <> 0 ->
      getElementsByTagName (js "defs") (ensure_defs doc) <> []).
Proof.
  unfold ensure_defs.
  destruct (getElementsByTagName (js "defs") doc) as [|e l] eqn:E.
  - destruct doc as [nm a ch|d].
    + rewrite !labels_Elem. cbn [flat_map]. rewrite labels_Elem.
      assert (Hd : forall s, lab_id (js "defs", declared s []) = false
                             /\ lab_target (js "defs", declared s []) = false).
      { intros [ns|]; unfold declared; [destruct (JS.eqb ns SVG_NS)|];
          now split. }
      destruct (Hd (in_scope None a)) as [Hi Ht].
      unfold ids, targets. cbn [flat_map app filter].
      rewrite Hi, Ht.
      repeat split. intros _. unfold getElementsByTagName.
      cbn [elements flat_map filter el_name fst].
      destruct (JS.eqb (js "defs") nm); [discriminate|].
      cbn [app filter el_name fst]. rewrite eqb_refl. discriminate.
    + repeat split. intros H. now elim H.
  - repeat split. intros _. rewrite E. discriminate.
Qed.

Lemma blur_filter_labels s :
  ids (labels (blur_filter s)) = 1 /\ targets (labels (blur_filter s)) = 0.
Proof.
  destruct s as [ns|]; unfold blur_filter, declared;
    [destruct (JS.eqb ns SVG_NS)|]; now split.
Qed.

(** What the image redaction does to the number of filter definitions
    and of images to redact, and to the filter reference of the latter. *)
Lemma redact_images_counts doc :
  filter_count (redact_images doc)
  = (if targets (labels doc) =? 0 then filter_count doc
     else Nat.max 1 (filter_count doc))
  /\ targets (labels (redact_images doc)) = targets (labels doc)
  /\ (forall x, In x (labels (redact_images doc)) ->
                lab_target x = true ->
                getAttribute (js "filter") (snd x) = Some filter_ref).
Proof.
  unfold redact_images.
  pose proof (target_count_labels doc) as Ht.
  destruct (imagesToRedact doc) as [|t ts] eqn:Ei.
  - cbn [List.length] in Ht. rewrite <- Ht. cbn [Nat.eqb].
    repeat split. intros x Hx Hxt. exfalso.
    assert (In x (filter lab_target (labels doc)))
      by (apply filter_In; now split).
    unfold targets in Ht.
    destruct (filter lab_target (labels doc)); [contradiction|discriminate].
  - cbn [List.length] in Ht.
    assert (Hpos : targets (labels doc) <> 0) by (rewrite <- Ht; discriminate).
    destruct (ensure_defs_counts doc) as (I1 & T1 & D1).
    specialize (D1 Hpos).
    set (doc1 := ensure_defs doc) in *.
    set (doc2 := match getElementById FILTER_ID doc1 with
                 | Some _ => doc1
                 | None => match append_to_first
                                   (js "defs") (blur_filter (defs_scope doc1))
                                   doc1
                           with Some d => d | None => doc1 end
                 end).
    assert (C2 : ids (labels doc2) = Nat.max 1 (filter_count doc)
                 /\ targets (labels doc2) = targets (labels doc)).
    { unfold doc2. rewrite filter_count_labels, <- I1.
      destruct (getElementById FILTER_ID doc1) as [e|] eqn:Eg.
      - split; [|exact T1].
        assert (filter_count doc1 <> 0).
        { intros H0. apply getElementById_count in H0. congruence. }
        rewrite filter_count_labels in H. lia.
      - apply getElementById_count in Eg. rewrite filter_count_labels in Eg.
        pose proof (@append_some (js "defs") (blur_filter (defs_scope doc1))
                                 doc1 D1) as Hs.
        destruct (append_to_first (js "defs") (blur_filter (defs_scope doc1))
                                  doc1) as [d|] eqn:Ea;
          [|congruence].
        destruct (@append_labels (js "defs") (blur_filter (defs_scope doc1))
                                 doc1 d Ea)
          as (l1 & l2 & E1 & E2).
        assert (Eg' : ids l1 + ids l2 = 0)
          by (rewrite <- ids_app, <- E1; exact Eg).
        assert (T1' : targets l1 + targets l2 = targets (labels doc))
          by (rewrite <- targets_app, <- E1; exact T1).
        rewrite E2, !ids_app, !targets_app, Eg.
        destruct (blur_filter_labels (defs_scope doc1)) as [B1 B2].
        rewrite B1, B2. split; lia. }
    change (map_attrs _ doc2) with (map_attrs set_filter doc2).
    rewrite filter_count_labels, labels_map_attrs.
    rewrite ids_set_filter, targets_set_filter.
    destruct (targets (labels doc) =? 0) eqn:E0;
      [apply Nat.eqb_eq in E0; congruence|].
    split; [exact (proj1 C2)|]. split; [exact (proj2 C2)|].
    intros x Hx Hxt. apply in_map_iff in Hx as (y & <- & _).
    rewrite set_filter_target in Hxt. cbn [snd]. unfold set_filter.
    unfold lab_target in Hxt. rewrite Hxt.
    apply getAttribute_set_same.
Qed.

Lemma redact_counts doc :
  filter_count (redact doc)
  = (if targets (labels doc) =? 0 then filter_count doc
     else Nat.max 1 (filter_count doc))
  /\ targets (labels (redact doc)) = targets (labels doc)
  /\ targets_filtered (redact doc).
Proof.
  destruct (redact_images_counts doc) as (C & T & F).
  unfold redact. rewrite filter_count_labels, labels_redact_text.
  rewrite <- filter_count_labels. split; [exact C|]. split; [exact T|].
  intros e He Het.
  apply (F (label e)); [|exact Het].
  rewrite <- labels_redact_text. now apply in_map.
Qed.

(** The element that receives the child has it among its children. *)
Lemma append_child tag c n n' :
  append_to_first tag c n = Some n' ->
  exists e, In e (elements n')
            /\ JS.eqb tag (el_name e) = true
            /\ In c (el_children e).
Proof.
  revert n'. induction n as [d|nm a ch IH] using Node_ind; intros n';
    [discriminate|].
  cbn [append_to_first].
  destruct (JS.eqb tag nm) eqn:Et.
  - intros E. injection E as <-. exists (nm, a, ch ++ [c]).
    split; [now left|]. split; [exact Et|].
    apply in_or_app. right. now left.
  - set (go := fix go (l : list Node) : option (list Node) :=
                 match l with
                 | [] => None
                 | x :: r =>
                     match append_to_first tag c x with
                     | Some x' => Some (x' :: r)
                     | None => match go r with
                               | Some r' => Some (x :: r')
                               | None => None
                               end
                     end
                 end).
    assert (G : forall ch', go ch = Some ch' ->
                exists e, In e (flat_map elements ch')
                          /\ JS.eqb tag (el_name e) = true
                          /\ In c (el_children e)).
    { induction IH as [|x r Hx _ IHr]; intros ch'; [discriminate|].
      cbn [go]. destruct (append_to_first tag c x) as [x'|].
      - intros E. injection E as <-.
        destruct (Hx x' eq_refl) as (e & He & Hn & Hc).
        exists e. split; [|now split]. cbn [flat_map].
        apply in_or_app. now left.
      - destruct (go r) as [r'|]; [|discriminate].
        intros E. injection E as <-.
        destruct (IHr r' eq_refl) as (e & He & Hn & Hc).
        exists e. split; [|now split]. cbn [flat_map].
        apply in_or_app. now right. }
    destruct (go ch) as [ch'|]; [|discriminate].
    intros E. injection E as <-.
    destruct (G ch' eq_refl) as (e & He & Hn & Hc).
    exists e. split; [|now split]. cbn [elements]. now right.
Qed.

(** The elements of a tree rewritten node by node. *)
Lemma elements_transform (T : Node -> Node) (f : jsstring -> Attrs -> Attrs) :
  (forall nm a ch, T (Elem nm a ch) = Elem nm (f nm a) (map T ch)) ->
  (forall d, exists d', T (Text d) = Text d') ->
  forall n,
    elements (T n)
    = map (fun e => (el_name e, f (el_name e) (el_attrs e),
                     map T (el_children e)))
          (elements n).
Proof.
  intros HE HT.
  induction n as [d|nm a ch IH] using Node_ind.
  - destruct (HT d) as (d' & ->). reflexivity.
  - rewrite HE. cbn [elements map el_name el_attrs el_children fst snd].
    f_equal.
    induction IH as [|c r Hc _ IHr]; [reflexivity|].
    cbn [map flat_map]. now rewrite map_app, Hc, IHr.
Qed.

Lemma existsb_map_ext (A B : Type) (h : A -> B) (p : B -> bool)
      (q : A -> bool) (l : list A) :
  (forall x, p (h x) = q x) -> existsb p (map h l) = existsb q l.
Proof.
  intros H. induction l as [|x l IH]; [reflexivity|].
  cbn [map existsb]. now rewrite H, IH.
Qed.

(** What is read off the labels of a document is kept by the redaction
    when the elements it creates contribute nothing and the filter
    attribute does not count. *)
Lemma redact_labels_stable (B : Type) (m : jsstring * Attrs -> list B) doc :
  (forall s, m (js "defs", declared s []) = []) ->
  (forall s, flat_map m (labels (blur_filter s)) = []) ->
  (forall x, m (fst x, set_filter (fst x) (snd x)) = m x) ->
  flat_map m (labels (redact doc)) = flat_map m (labels doc).
Proof.
  intros Hd Hb Hs. unfold redact. rewrite labels_redact_text.
  unfold redact_images.
  destruct (imagesToRedact doc) as [|t ts]; [reflexivity|].
  change (map_attrs _ ?d) with (map_attrs set_filter d).
  rewrite labels_map_attrs.
  assert (M : forall l,
             flat_map m (map (fun x => (fst x, set_filter (fst x) (snd x))) l)
             = flat_map m l).
  { induction l as [|x l IH]; [reflexivity|].
    cbn [map flat_map]. now rewrite Hs, IH. }
  rewrite M.
  assert (E1 : flat_map m (labels (ensure_defs doc)) = flat_map m (labels doc)).
  { unfold ensure_defs.
    destruct (getElementsByTagName (js "defs") doc); [|reflexivity].
    destruct doc as [nm a ch|d]; [|reflexivity].
    rewrite !labels_Elem. cbn [flat_map]. rewrite labels_Elem.
    cbn [flat_map app]. f_equal.
    transitivity (@nil B ++ flat_map m (flat_map labels ch));
      [f_equal; apply Hd|reflexivity]. }
  destruct (getElementById FILTER_ID (ensure_defs doc)); [exact E1|].
  destruct (append_to_first (js "defs")
              (blur_filter (defs_scope (ensure_defs doc))) (ensure_defs doc))
    as [d|] eqn:Ea; [|exact E1].
  destruct (@append_labels (js "defs")
              (blur_filter (defs_scope (ensure_defs doc)))
              (ensure_defs doc) d Ea)
    as (l1 & l2 & L1 & L2).
  rewrite <- E1, L1, L2, !flat_map_app, Hb. reflexivity.
Qed.

Lemma getAttribute_declared s k a :
  k <> js "xmlns" -> getAttribute k (declared s a) = getAttribute k a.
Proof.
  intros Hk. apply eqb_neq in Hk.
  destruct s as [ns|]; unfold declared; [destruct (JS.eqb ns SVG_NS)|];
    cbn [getAttribute]; now rewrite ?Hk.
Qed.


(** *** The blur filter *)

Lemma lab_definition_id x :
  lab_definition x = JS.eqb (fst x) (js "filter") && lab_id x.
Proof.
  unfold lab_definition, lab_id.
  now destruct (getAttribute (js "id") (snd x)).
Qed.

Lemma lab_id_reads x :
  lab_id x = true <-> getAttribute (js "id") (snd x) = Some (js "redact-blur").
Proof.
  unfold lab_id. destruct (getAttribute (js "id") (snd x)) as [v|].
  - split.
    + intros H. apply eqb_eq in H. now subst.
    + intros [= ->]. apply eqb_refl.
  - split; discriminate.
Qed.

Lemma reserved_strays doc :
  id_is_reserved doc <-> flat_map strays (labels doc) = [].
Proof.
  unfold id_is_reserved, labels. split.
  - intros H. induction (elements doc) as [|e l IH]; [reflexivity|].
    cbn [map flat_map].
    rewrite IH by (intros e' He'; apply H; now right).
    rewrite app_nil_r. unfold strays, label. cbn [fst snd].
    destruct (lab_id (el_name e, el_attrs e)) eqn:E; [|reflexivity].
    apply lab_id_reads in E. cbn [snd] in E.
    rewrite (H e (or_introl eq_refl) E). reflexivity.
  - intros H e He Hid.
    induction (elements doc) as [|e' l IH]; [destruct He|].
    cbn [map flat_map] in H. apply app_eq_nil in H as [H1 H2].
    destruct He as [->|He]; [|now apply IH].
    unfold strays, label in H1. cbn [fst snd] in H1.
    assert (E : lab_id (el_name e, el_attrs e) = true)
      by (now apply lab_id_reads).
    rewrite E in H1. cbn [andb] in H1.
    destruct (JS.eqb (el_name e) (js "filter")) eqn:En;
      [now apply eqb_eq in En|discriminate H1].
Qed.

Lemma reserved_count doc :
  id_is_reserved doc -> definitions doc = filter_count doc.
Proof.
  intros H. apply reserved_strays in H.
  rewrite filter_count_labels. unfold definitions, ids.
  induction (labels doc) as [|x l IH]; [reflexivity|].
  cbn [flat_map] in H. apply app_eq_nil in H as [H1 H2].
  cbn [filter]. rewrite lab_definition_id.
  unfold strays in H1.
  destruct (lab_id x); [|rewrite andb_false_r; now apply IH].
  destruct (JS.eqb (fst x) (js "filter")); [|discriminate H1].
  cbn [andb List.length]. f_equal. now apply IH.
Qed.

Lemma redact_keeps_reserved doc :
  id_is_reserved doc -> id_is_reserved (redact doc).
Proof.
  rewrite !reserved_strays. intros H. rewrite <- H.
  apply redact_labels_stable.
  - intros s. unfold strays, lab_id. cbn [snd].
    now rewrite getAttribute_declared by discriminate.
  - intros s.
    destruct s as [ns|]; unfold blur_filter, declared;
      [destruct (JS.eqb ns SVG_NS)|]; reflexivity.
  - intros x. unfold strays. now rewrite set_filter_id.
Qed.

Lemma target_spec e : is_target_image e = true <-> redaction_target e.
Proof.
  unfold is_target_image, redaction_target, shouldRedact. split.
  - intros H. apply andb_true_iff in H as [Hn Hs].
    apply eqb_eq in Hn. split; [now symmetry|].
    destruct (getAttribute (js "data-tags") (el_attrs e)) as [[|c t]|];
      try discriminate Hs.
    now exists (c :: t).
  - intros (Hn & tags & Ht & Hi). rewrite Hn, Ht. cbn [andb].
    destruct tags as [|c t]; [discriminate Hi|exact Hi].
Qed.

Lemma targets_exist doc :
  (exists e, In e (elements doc) /\ redaction_target e)
  <-> imagesToRedact doc <> [].
Proof.
  unfold imagesToRedact, getElementsByTagName. rewrite filter_twice. split.
  - intros (e & He & Ht). apply target_spec in Ht.
    intros N.
    assert (Hin : In e (filter (fun x => JS.eqb (js "image") (el_name x)
                                         && shouldRedact (el_attrs x))
                               (elements doc)))
      by (apply filter_In; now split).
    rewrite N in Hin. destruct Hin.
  - intros H.
    destruct (filter _ (elements doc)) as [|e l] eqn:E; [congruence|].
    assert (Hin : In e (filter (fun x => JS.eqb (js "image") (el_name x)
                                         && shouldRedact (el_attrs x))
                               (elements doc)))
      by (rewrite E; now left).
    apply filter_In in Hin as [Hin Ht].
    exists e. split; [exact Hin|now apply target_spec].
Qed.

Lemma is_blur_filter s : is_blur (blur_filter s) = true.
Proof.
  destruct s as [ns|]; unfold blur_filter, declared;
    [destruct (JS.eqb ns SVG_NS)|]; reflexivity.
Qed.

(** The blur filter held by a definitions section stays under a
    rewriting of the attributes that leaves every element other than
    the images as it is. *)
Lemma defs_hold_blur_transform (T : Node -> Node)
      (f : jsstring -> Attrs -> Attrs) n :
  (forall nm a ch, T (Elem nm a ch) = Elem nm (f nm a) (map T ch)) ->
  (forall d, exists d', T (Text d) = Text d') ->
  (forall nm a, JS.eqb (js "image") nm = false -> f nm a = a) ->
  defs_hold_blur (T n) = defs_hold_blur n.
Proof.
  intros HE HT Hf. unfold defs_hold_blur.
  rewrite (elements_transform T f HE HT).
  apply existsb_map_ext. intros e.
  cbn [el_name el_children fst snd]. f_equal.
  apply existsb_map_ext. intros [nm a ch|d].
  - rewrite HE. unfold is_blur.
    destruct (JS.eqb nm (js "filter")) eqn:En; [|reflexivity].
    apply eqb_eq in En. subst nm. rewrite Hf by reflexivity.
    f_equal. apply existsb_map_ext. intros [gn ga gch|gd].
    + rewrite HE. unfold is_gaussian_blur.
      destruct (JS.eqb gn (js "feGaussianBlur")) eqn:Eg; [|reflexivity].
      apply eqb_eq in Eg. subst gn. now rewrite Hf by reflexivity.
    + destruct (HT gd) as (d' & ->). reflexivity.
  - destruct (HT d) as (d' & ->). reflexivity.
Qed.

Lemma redact_defs_hold_blur doc :
  imagesToRedact doc <> [] ->
  getElementById FILTER_ID doc = None ->
  defs_hold_blur (redact doc) = true.
Proof.
  intros Hi Hg. unfold redact.
  rewrite <- (defs_hold_blur_transform erase (fun _ a => a)
                (redact_text (redact_images doc)));
    [|reflexivity|intros d; now exists []|reflexivity].
  rewrite erase_redact_text.
  rewrite (defs_hold_blur_transform erase (fun _ a => a));
    [|reflexivity|intros d; now exists []|reflexivity].
  unfold redact_images.
  pose proof (target_count_labels doc) as Ht.
  destruct (imagesToRedact doc) as [|t ts]; [congruence|].
  assert (Hpos : targets (labels doc) <> 0) by (rewrite <- Ht; discriminate).
  destruct (ensure_defs_counts doc) as (I1 & _ & D1).
  specialize (D1 Hpos).
  apply getElementById_count in Hg.
  rewrite filter_count_labels, <- I1, <- filter_count_labels in Hg.
  apply getElementById_count in Hg. rewrite Hg.
  set (c := blur_filter (defs_scope (ensure_defs doc))).
  pose proof (@append_some (js "defs") c (ensure_defs doc) D1) as Hs.
  destruct (append_to_first (js "defs") c (ensure_defs doc))
    as [d|] eqn:Ea; [|congruence].
  change (map_attrs _ d) with (map_attrs set_filter d).
  rewrite (defs_hold_blur_transform (map_attrs set_filter) set_filter);
    [|reflexivity|intros x; now exists x|].
  - destruct (@append_child (js "defs") c (ensure_defs doc) d Ea)
      as (e & He & Hn & Hc).
    unfold defs_hold_blur. apply existsb_exists. exists e.
    split; [exact He|]. rewrite Hn. cbn [andb].
    apply existsb_exists. exists c. split; [exact Hc|apply is_blur_filter].
  - intros nm a Hn. unfold set_filter. now rewrite Hn.
Qed.

(** C8, as the specification states it, fails: where another element
    has the id of the filter, a rect here, the transform finds the id
    taken and creates nothing.  There is an image to redact, and
    afterwards the document has no filter element at all, so no
    definition, while the image refers to the id. *)
Lemma squatter_gets_no_definition :
  (exists e, In e (elements Sample.squatter) /\ redaction_target e)
  /\ getElementsByTagName (js "filter") (redact Sample.squatter) = []
  /\ definitions (redact Sample.squatter) = 0
  /\ defs_hold_blur (redact Sample.squatter) = false
  /\ In (js "image",
         [(js "href", js "images/a.jpg");
          (js "data-tags", js "redact-image");
          (js "filter", js "url(#redact-blur)")], [])
        (elements (redact Sample.squatter)).
Proof.
  split; [|repeat split; try reflexivity].
  - exists (js "image", [(js "href", js "images/a.jpg");
                         (js "data-tags", js "redact-image")], []).
    split; [cbn; tauto|].
    split; [reflexivity|]. exists (js "redact-image"). now split.
  - cbn. tauto.
Qed.

(** C8, amended.  In a document where no element other than a filter
    element carries the id redact-blur, the redaction transform creates
    at most one filter element with that id: their number stays as it
    was, or goes from none to one.  When some image is to be redacted
    (an image element whose tag annotation contains redact, in any case
    of letters) such a definition exists afterwards, every image to
    redact has the filter attribute url(#redact-blur), and where there
    was no definition exactly one is created, as a child of a definitions
    section: a filter element with that id, over the region from -50%
    with 200% of the size, holding a Gaussian blur of deviation 150.  A
    document that already has a definition keeps the number it has, and
    the output satisfies the same condition on the id, so that running
    the transform again on its own output never duplicates it. *)
Theorem blur_filter_is_created_once (doc : Node) :
  id_is_reserved doc ->
  (definitions (redact doc) = definitions doc
   \/ (definitions doc = 0 /\ definitions (redact doc) = 1))
  /\ ((exists e, In e (elements doc) /\ redaction_target e) ->
      definitions (redact doc) <> 0
      /\ (forall e, In e (elements (redact doc)) ->
                    redaction_target e ->
                    getAttribute (js "filter") (el_attrs e)
                    = Some (js "url(#redact-blur)"))
      /\ (definitions doc = 0 ->
          definitions (redact doc) = 1
          /\ defs_hold_blur (redact doc) = true))
  /\ (definitions doc <> 0 ->
      definitions (redact doc) = definitions doc)
  /\ id_is_reserved (redact doc)
  /\ definitions (redact (redact doc)) = definitions (redact doc)
  /\ ((exists e, In e (elements (redact doc)) /\ redaction_target e)
      <-> (exists e, In e (elements doc) /\ redaction_target e)).
Proof.
  intros Hres.
  pose proof (redact_keeps_reserved Hres) as Hres1.
  pose proof (redact_keeps_reserved Hres1) as Hres2.
  rewrite (reserved_count Hres), (reserved_count Hres1),
    (reserved_count Hres2).
  destruct (redact_counts doc) as (C & T & F).
  destruct (redact_counts (redact doc)) as (C' & _ & _).
  rewrite T in C'.
  split; [|split; [|split; [|split; [|split]]]].
  - destruct (targets (labels doc) =? 0); [now left|]. lia.
  - intros He. apply targets_exist in He.
    assert (Hpos : targets (labels doc) <> 0).
    { rewrite <- target_count_labels. destruct (imagesToRedact doc);
        [congruence|discriminate]. }
    apply Nat.eqb_neq in Hpos. rewrite Hpos in C.
    split; [lia|]. split.
    + intros e Hin Ht. apply target_spec in Ht.
      now rewrite (F e Hin Ht).
    + intros Hn. split; [lia|].
      apply redact_defs_hold_blur; [exact He|].
      now apply getElementById_count.
  - intros Hp. destruct (targets (labels doc) =? 0); lia.
  - exact Hres1.
  - destruct (targets (labels doc) =? 0); lia.
  - rewrite !targets_exist.
    assert (L : List.length (imagesToRedact (redact doc))
                = List.length (imagesToRedact doc))
      by (now rewrite !target_count_labels).
    destruct (imagesToRedact (redact doc)), (imagesToRedact doc);
      try discriminate L; split; congruence.
Qed.

Lemma blur_filter_is_created_once_witness :
  definitions (redact Sample.tagged_image) = 1
  /\ defs_hold_blur (redact Sample.tagged_image) = true
  /\ In (js "image",
         [(js "href", js "images/a.jpg");
          (js "data-tags", js "Redact-Image");
          (js "filter", js "url(#redact-blur)")], [])
        (elements (redact Sample.tagged_image)).
Proof.
  assert (Hres : id_is_reserved Sample.tagged_image).
  { intros e He. cbn in He.
    destruct He as [<-|[<-|[]]]; discriminate. }
  assert (Ht : exists e, In e (elements Sample.tagged_image)
                         /\ redaction_target e).
  { exists (js "image", [(js "href", js "images/a.jpg");
                         (js "data-tags", js "Redact-Image")], []).
    split; [cbn; tauto|].
    split; [reflexivity|]. exists (js "Redact-Image"). now split. }
  destruct (blur_filter_is_created_once Hres) as (_ & H & _).
  destruct (H Ht) as (_ & _ & Hc).
  destruct (Hc eq_refl) as [H1 H2].
  split; [exact H1|]. split; [exact H2|]. cbn. tauto.
Defined.

(** ** Intake and the archive *)









(** C9, as the specification states it, fails: a file whose text does
    not parse enters the collection at intake, with its content and the
    status IDLE, and is at once among the files that the two exports
    take. *)
Lemma malformed_enters_collection :
  let bad := {| file_name := js "bad.svg";
                file_text := Some Sample.malformed |} in
  let st := handleFilesAdded Sample.env [bad] [] empty_app in
  getElementsByTagName (js "parsererror") Sample.malformed <> []
  /\ exists f,
      app_files st = [f]
      /\ processedContent f = Some Sample.malformed
      /\ status f = IDLE
      /\ getValidFiles st = [f]
      /\ downloadZip st <> None
      /\ downloadPdf Sample.env st <> None.
Proof.
  split; [discriminate|].
  eexists. repeat split; try reflexivity; discriminate.
Qed.

Lemma updateFileStatus_files fid upd st g :
  In g (app_files (updateFileStatus fid upd st)) ->
  exists f, In f (app_files st)
            /\ g = if JS.eqb (id f) fid then upd f else f.
Proof.
  unfold updateFileStatus. simpl. intros H.
  apply in_map_iff in H as (f & E & Hf). exists f. now split.
Qed.

(** C9, amended.  Intake does not check the text of a file: a document
    that does not parse enters the collection with its content and the
    status IDLE, eligible for export.  It is rejected when its resources
    are bundled: [bundleResources] throws, and [bundleFile] leaves every
    entry with the identifier of the document in the status ERROR, with
    the message of the error, so that it is no longer eligible. *)
Theorem malformed_is_rejected_by_bundling
        (env : Env) (file : File) (newAssets : list (jsstring * Blob))
        (st : AppState) (c : Node) :
  file_text file = Some c ->
  getElementsByTagName (js "parsererror") c <> [] ->
  let f := new_entry env (app_ids st) file in
  let st1 := handleFilesAdded env [file] newAssets st in
  In f (app_files st1)
  /\ processedContent f = Some c
  /\ status f = IDLE
  /\ In f (getValidFiles st1)
  /\ bundleResources env c (preloadedAssets st1)
     = inl (js "Invalid SVG file format")
  /\ forall g,
      In g (app_files (bundleFile env f st1)) ->
      id g = id f ->
      status g = ERROR
      /\ errors g = [js "Invalid SVG file format"]
      /\ ~ In g (getValidFiles (bundleFile env f st1)).
Proof.
  intros Ht Hp f st1.
  assert (Hin : In f (app_files st1)).
  { unfold st1, handleFilesAdded. simpl. apply in_or_app. right. now left. }
  assert (Hb : forall pool, bundleResources env c pool
                            = inl (js "Invalid SVG file format")).
  { intros pool. unfold bundleResources.
    destruct (getElementsByTagName (js "parsererror") c); congruence. }
  repeat split; try assumption.
  - unfold getValidFiles. apply filter_In. now split.
  - apply Hb.
  - unfold bundleFile in H.
    change (processedContent f) with (file_text file) in H.
    rewrite Ht, Hb in H.
    apply updateFileStatus_files in H as (f' & _ & E).
    rewrite E. destruct (JS.eqb (id f') (id f)) eqn:Eid; [reflexivity|].
    apply eqb_neq in Eid. subst g. contradiction.
  - unfold bundleFile in H.
    change (processedContent f) with (file_text file) in H.
    rewrite Ht, Hb in H.
    apply updateFileStatus_files in H as (f' & _ & E).
    rewrite E. destruct (JS.eqb (id f') (id f)) eqn:Eid; [reflexivity|].
    apply eqb_neq in Eid. subst g. contradiction.
  - intros Hv. unfold getValidFiles in Hv. apply filter_In in Hv as [_ Hv].
    unfold bundleFile in H.
    change (processedContent f) with (file_text file) in H.
    rewrite Ht, Hb in H.
    apply updateFileStatus_files in H as (f' & _ & E).
    destruct (JS.eqb (id f') (id f)) eqn:Eid.
    + subst g. discriminate Hv.
    + apply eqb_neq in Eid. subst g. contradiction.
Qed.

Lemma malformed_is_rejected_by_bundling_witness :
  let bad := {| file_name := js "bad.svg";
                file_text := Some Sample.malformed |} in
  bundleResources Sample.env Sample.malformed [] =
  inl (js "Invalid SVG file format").
Proof.
  intros bad.
  refine (proj1 (proj2 (proj2 (proj2 (proj2
            (@malformed_is_rejected_by_bundling
               Sample.env bad [] empty_app Sample.malformed eq_refl _)))))).
  discriminate.
Defined.

(* ================================================================= *)
(** * Further properties of the program *)

(** ** Asset resolution: deduplication *)

Lemma bundleResources_reachable env pool doc r :
  bundleResources env doc pool = inr r ->
  exists st, reachable env pool st
             /\ r_assets r = b_assets st
             /\ r_errors r = b_errors st
             /\ r_progress r = b_progress st.
Proof.
  unfold bundleResources.
  destruct (getElementsByTagName (js "parsererror") doc); [|discriminate].
  set (total := _ + _).
  pose proof (@visit_reachable env pool
                (fun nm a st => if JS.eqb nm (js "image")
                                then process_image env pool total a st
                                else (a, st)) doc initial) as H1.
  unfold image_pass.
  destruct (visit _ doc initial) as [doc1 st1]. cbn [snd] in H1.
  assert (R1 : reachable env pool st1).
  { apply H1; [|constructor]. intros nm a s Hs.
    destruct (JS.eqb nm (js "image")); [|exact Hs].
    now apply process_image_reachable. }
  pose proof (@style_pass_reachable env pool total doc1 st1 R1) as H2.
  destruct (style_pass env pool total doc1 st1) as [doc2 st2].
  cbn [snd] in H2. intros E. injection E as <-. simpl.
  exists st2. now repeat split.
Qed.

Lemma NoDup_snoc (A : Type) (l : list A) (x : A) :
  NoDup l -> ~ In x l -> NoDup (l ++ [x]).
Proof.
  intros Hl Hx. apply NoDup_app; [exact Hl|repeat constructor; now intros []|].
  intros y Hy [<-|[]]. contradiction.
Qed.

Lemma deduplicated_record env pool href name b st :
  truthy (getAttribute href (urlToFilenameMap st)) = None ->
  name <> [] ->
  provenance env pool
    {| originalUrl := href; localFileName := name; blob := b |} ->
  deduplicated env pool st ->
  deduplicated env pool (record_asset href name b st).
Proof.
  intros Hm Hn Hp [Hd Ha].
  assert (Hfresh : ~ In href (map originalUrl (b_assets st))).
  { intros Hin. apply in_map_iff in Hin as (a & <- & Hin).
    destruct (Ha a Hin) as (Hg & Hne & _). rewrite Hg in Hm.
    destruct (localFileName a); [congruence|discriminate]. }
  split; cbn [record_asset b_assets urlToFilenameMap].
  - rewrite map_app. now apply NoDup_snoc.
  - intros a Hin. apply in_app_or in Hin as [Hin|[<-|[]]].
    + destruct (Ha a Hin) as (Hg & Hne & Hpr).
      split; [|now split].
      rewrite getAttribute_set_other; [exact Hg|].
      intros E. apply Hfresh. rewrite <- E. now apply in_map.
    + cbn [originalUrl localFileName].
      split; [apply getAttribute_set_same|now split].
Qed.

Lemma deduplicated_processAsset env pool href isFont st :
  pool_get [] pool = None ->
  deduplicated env pool st ->
  deduplicated env pool (snd (processAsset env pool href isFont st)).
Proof.
  intros He Hs. unfold processAsset.
  destruct (is_empty href || startsWith (js "data:") href
            || startsWith (js "#") href); [exact Hs|].
  destruct (truthy (getAttribute href (urlToFilenameMap st))) eqn:Hm;
    [exact Hs|].
  destruct (pool_get (getFilename env href) pool) as [b|] eqn:Hp.
  - cbn [snd]. apply deduplicated_record; [exact Hm| |now left|exact Hs].
    intros E. rewrite E in Hp. congruence.
  - destruct (startsWith (js "http") href) eqn:Hh; [|exact Hs].
    destruct (fetch env (b_fetches st) href) as [m|[|] ct [m|b]];
      cbn [snd]; try exact Hs.
    apply deduplicated_record; [exact Hm|discriminate| |exact Hs].
    right. cbn [originalUrl localFileName]. now repeat split.
Qed.

Lemma reachable_deduplicated env pool st :
  pool_get [] pool = None ->
  reachable env pool st -> deduplicated env pool st.
Proof.
  intros He. induction 1 as [|st href isFont _ IH|st total _ IH].
  - split; [constructor|intros a []].
  - now apply deduplicated_processAsset.
  - exact IH.
Qed.

(** X1.  Once a reference has been resolved in a call, resolving it
    again, as an image or as a font, gives the same local name and changes
    nothing: no second asset, no second fetch. *)
Theorem resolved_reference_is_reused
        (env : Env) (pool : AssetPool) (href : jsstring)
        (isFont isFont' : bool) (st : BState) (name : jsstring) :
  fst (processAsset env pool href isFont st) = Some name ->
  processAsset env pool href isFont'
               (snd (processAsset env pool href isFont st))
  = (Some name, snd (processAsset env pool href isFont st)).
Proof.
  intros Hfst.
  destruct (processAsset env pool href isFont st) as [o st'] eqn:E.
  cbn [fst snd] in *. subst o.
  unfold processAsset in E.
  destruct (is_empty href || startsWith (js "data:") href
            || startsWith (js "#") href) eqn:Hs; [discriminate E|].
  assert (Hit : truthy (getAttribute href (urlToFilenameMap st')) = Some name
                -> processAsset env pool href isFont' st' = (Some name, st')).
  { intros Hn. unfold processAsset. now rewrite Hs, Hn. }
  assert (Rec : forall n b s,
             (truthy (Some n), record_asset href n b s) = (Some name, st') ->
             truthy (getAttribute href (urlToFilenameMap st')) = Some name).
  { intros n b s Hn. injection Hn as Hn <-.
    cbn [record_asset urlToFilenameMap].
    now rewrite getAttribute_set_same. }
  apply Hit.
  destruct (truthy (getAttribute href (urlToFilenameMap st))) as [n|] eqn:Hm.
  - injection E as <- <-. exact Hm.
  - destruct (pool_get (getFilename env href) pool) as [b|].
    + now apply (Rec _ _ _ E).
    + destruct (startsWith (js "http") href); [|discriminate E].
      destruct (fetch env (b_fetches st) href) as [m|[|] ct [m|b]];
        try discriminate E.
      now apply (Rec _ _ _ E).
Qed.

Lemma resolved_reference_is_reused_witness :
  processAsset Sample.env [] (js "https://ex.com/a.jpg") true
    (snd (processAsset Sample.env [] (js "https://ex.com/a.jpg") false
                       initial))
  = (Some (js "asset_k3x9qz.jpg"),
     snd (processAsset Sample.env [] (js "https://ex.com/a.jpg") false
                       initial)).
Proof.
  apply (@resolved_reference_is_reused
           Sample.env [] (js "https://ex.com/a.jpg") false true initial).
  reflexivity.
Defined.

(** X2.  When no pool entry has the empty name, the assets that a
    bundling call returns are one per original reference, none has an
    empty local name, and each comes either from the pool, under the file
    name derived from its reference and with the blob of the pool, or from
    the network, under a generated name, and then only because the pool
    had no entry for the derived file name. *)
Theorem bundled_assets_are_deduplicated
        (env : Env) (pool : AssetPool) (doc : Node) (r : BundleResult) :
  pool_get [] pool = None ->
  bundleResources env doc pool = inr r ->
  NoDup (map originalUrl (r_assets r))
  /\ forall a, In a (r_assets r) ->
               localFileName a <> [] /\ provenance env pool a.
Proof.
  intros He Hb.
  destruct (bundleResources_reachable env pool doc Hb) as (st & Hr & Ea & _).
  destruct (reachable_deduplicated He Hr) as [Hd Ha].
  rewrite Ea. split; [exact Hd|].
  intros a Hin. destruct (Ha a Hin) as (_ & Hn & Hp). now split.
Qed.

Lemma bundled_assets_are_deduplicated_witness :
  exists r, bundleResources Sample.env two_images [] = inr r
            /\ NoDup (map originalUrl (r_assets r))
            /\ List.length (r_assets r) = 1.
Proof.
  eexists. split; [reflexivity|]. split; [|reflexivity].
  apply (@bundled_assets_are_deduplicated Sample.env [] two_images);
    reflexivity.
Defined.

(** ** Asset resolution: failures and progress *)

(** X3.  A network reference that the pool does not match and whose
    fetch does not deliver a body is reported by exactly one error that
    names it, and nothing else happens to the document and the assets:
    the image keeps its attributes, no asset is recorded, and the dedup
    map is left as it was, so that a later occurrence of the same
    reference is fetched anew. *)
Theorem failed_fetch_is_reported
        (env : Env) (pool : AssetPool) (totalItems : nat) (a : Attrs)
        (st : BState) (href : jsstring) :
  truthy (or_else (getAttribute (js "href") a)
                  (getAttribute (js "xlink:href") a)) = Some href ->
  startsWith (js "http") href = true ->
  truthy (getAttribute href (urlToFilenameMap st)) = None ->
  pool_get (getFilename env href) pool = None ->
  (forall ct b, fetch env (b_fetches st) href <> Response true ct (inr b)) ->
  exists message,
    process_image env pool totalItems a st
    = (a, updateProgress totalItems
            (push_error (load_error href message) (fetched st)))
    /\ b_errors (snd (process_image env pool totalItems a st))
       = b_errors st ++ [load_error href message]
    /\ b_assets (snd (process_image env pool totalItems a st)) = b_assets st
    /\ urlToFilenameMap (snd (process_image env pool totalItems a st))
       = urlToFilenameMap st
    /\ b_fetches (snd (process_image env pool totalItems a st))
       = S (b_fetches st).
Proof.
  intros Ha Hh Hm Hp Hf.
  assert (E : exists message,
             processAsset env pool href false st
             = (None, push_error (load_error href message) (fetched st))).
  { unfold processAsset. rewrite (http_not_skipped href Hh), Hm, Hp, Hh.
    destruct (fetch env (b_fetches st) href) as [m|[|] ct [m|b]] eqn:Ef.
    - now exists m.
    - now exists m.
    - elim (Hf ct b eq_refl).
    - now eexists.
    - now eexists. }
  destruct E as (message & E). exists message.
  unfold process_image. rewrite Ha, E. now repeat split.
Qed.

Lemma failed_fetch_is_reported_witness :
  exists message,
    process_image offline_env [] 1 [(js "href", js "https://ex.com/a.jpg")]
                  initial
    = ([(js "href", js "https://ex.com/a.jpg")],
       updateProgress 1
         (push_error (load_error (js "https://ex.com/a.jpg") message)
                     (fetched initial))).
Proof.
  destruct (@failed_fetch_is_reported
              offline_env [] 1 [(js "href", js "https://ex.com/a.jpg")]
              initial (js "https://ex.com/a.jpg")
              eq_refl eq_refl eq_refl eq_refl)
    as (message & E & _).
  - intros ct b H. discriminate H.
  - exists message. exact E.
Defined.

Lemma iter_tick_add total n m x :
  ticks total (n + m) x
  = ticks total m (ticks total n x).
Proof.
  revert x. induction m as [|m IH]; intros x.
  - now rewrite Nat.add_0_r.
  - rewrite Nat.add_succ_r. cbn [ticks]. now rewrite IH.
Qed.

Lemma meter_processAsset env pool href isFont st :
  meter (snd (processAsset env pool href isFont st)) = meter st.
Proof.
  unfold processAsset.
  destruct (is_empty href || startsWith (js "data:") href
            || startsWith (js "#") href); [reflexivity|].
  destruct (truthy (getAttribute href (urlToFilenameMap st))); [reflexivity|].
  destruct (pool_get (getFilename env href) pool); [reflexivity|].
  destruct (startsWith (js "http") href); [|reflexivity].
  destruct (fetch env (b_fetches st) href) as [m|[|] ct [m|b]]; reflexivity.
Qed.

Lemma meter_updateProgress total st :
  meter (updateProgress total st) = tick total (meter st).
Proof. reflexivity. Qed.

Lemma meter_process_image env pool total a st :
  meter (snd (process_image env pool total a st)) = tick total (meter st).
Proof.
  rewrite process_image_snd, meter_updateProgress.
  destruct (truthy (or_else (getAttribute (js "href") a)
                            (getAttribute (js "xlink:href") a)));
    [|reflexivity].
  now rewrite meter_processAsset.
Qed.

Lemma meter_process_matches env pool total ms css st :
  meter (snd (process_matches env pool total ms css st))
  = ticks total (List.length ms) (meter st).
Proof.
  revert css st. induction ms as [|u ms IH]; intros css st; [reflexivity|].
  cbn [process_matches List.length].
  change (S (List.length ms)) with (1 + List.length ms).
  rewrite iter_tick_add. cbn [ticks].
  destruct (isFontFile u).
  - pose proof (meter_processAsset env pool u true st) as Hm.
    destruct (processAsset env pool u true st) as [[n|] st1];
      cbn [snd] in Hm; rewrite IH, meter_updateProgress, Hm; reflexivity.
  - now rewrite IH, meter_updateProgress.
Qed.

(** The images of a tree, counted tree by tree. *)
Lemma image_count_Elem nm a ch :
  List.length (getElementsByTagName (js "image") (Elem nm a ch))
  = (if JS.eqb (js "image") nm then 1 else 0)
    + list_sum (map (fun c => List.length
                                (getElementsByTagName (js "image") c)) ch).
Proof.
  unfold getElementsByTagName. cbn [elements filter el_name fst].
  assert (E : List.length (filter (fun e => JS.eqb (js "image") (el_name e))
                                  (flat_map elements ch))
              = list_sum
                  (map (fun c => List.length
                                   (filter (fun e => JS.eqb (js "image")
                                                            (el_name e))
                                           (elements c))) ch)).
  { induction ch as [|c r IH]; [reflexivity|].
    cbn [flat_map map list_sum]. now rewrite filter_app, length_app, IH. }
  destruct (JS.eqb (js "image") nm); cbn [List.length]; now rewrite E.
Qed.

Lemma font_items_count doc : count_font_items doc = font_items doc.
Proof.
  unfold count_font_items, getElementsByTagName.
  induction doc as [d|nm a ch IH] using Node_ind; [reflexivity|].
  cbn [elements filter el_name fst font_items].
  assert (E : list_sum
                (map (fun e => List.length
                                 (UrlRegex.matchAll
                                    (flat_map textContent (el_children e))))
                     (filter (fun e => JS.eqb (js "style") (el_name e))
                             (flat_map elements ch)))
              = list_sum (map font_items ch)).
  { induction IH as [|c r Hc _ IHr]; [reflexivity|].
    cbn [flat_map map list_sum].
    now rewrite filter_app, map_app, list_sum_app, Hc, IHr. }
  destruct (JS.eqb (js "style") nm); cbn [map el_children snd];
    unfold list_sum in *; cbn [fold_right]; now rewrite E.
Qed.

(** The image pass rewrites attributes only. *)
Lemma visit_keeps_text (St : Type) (f : jsstring -> Attrs -> St -> Attrs * St)
      n st :
  textContent (fst (visit f n st)) = textContent n
  /\ font_items (fst (visit f n st)) = font_items n.
Proof.
  revert st. induction n as [d|nm a ch IH] using Node_ind; intros st;
    [now split|].
  cbn [visit]. destruct (f nm a st) as [a' s1].
  set (go := fix go (l : list Node) (s : St) {struct l} : list Node * St :=
               match l with
               | [] => ([], s)
               | c :: r =>
                   let '(c', s') := visit f c s in
                   let '(r', s'') := go r s' in (c' :: r', s'')
               end).
  assert (G : forall s, flat_map textContent (fst (go ch s))
                        = flat_map textContent ch
                        /\ map font_items (fst (go ch s)) = map font_items ch).
  { induction IH as [|c r Hc _ IHr]; intros s; [now split|].
    cbn [go]. destruct (Hc s) as [T1 F1].
    destruct (visit f c s) as [c' s']. cbn [fst] in T1, F1.
    destruct (IHr s') as [T2 F2].
    destruct (go r s') as [r' s'']. cbn [fst] in *.
    cbn [flat_map map]. now rewrite T1, T2, F1, F2. }
  destruct (G s1) as [T F]. destruct (go ch s1) as [ch' s2].
  cbn [fst] in *. cbn [textContent font_items]. now rewrite T, F.
Qed.

Lemma meter_visit env pool total n st :
  meter (snd (image_pass env pool total n st))
  = ticks total (List.length (getElementsByTagName (js "image") n))
          (meter st).
Proof.
  unfold image_pass.
  set (f := fun nm a st => if JS.eqb nm (js "image")
                           then process_image env pool total a st
                           else (a, st)).
  assert (F : forall nm a st,
             meter (snd (f nm a st))
             = ticks total (if JS.eqb (js "image") nm then 1 else 0)
                     (meter st)).
  { intros nm a s. unfold f. rewrite (eqb_sym nm).
    destruct (JS.eqb (js "image") nm); [|reflexivity].
    apply meter_process_image. }
  clearbody f. revert st.
  induction n as [d|nm a ch IH] using Node_ind; intros st; [reflexivity|].
  rewrite image_count_Elem, iter_tick_add. cbn [visit].
  rewrite <- (F nm a st). destruct (f nm a st) as [a' s1]. cbn [snd].
  revert s1.
  induction IH as [|c r Hc _ IHr]; intros s1; [reflexivity|].
  change (list_sum (map ?g (c :: r))) with (g c + list_sum (map g r)).
  rewrite iter_tick_add, <- Hc.
  destruct (visit f c s1) as [c' s']. cbn [snd].
  specialize (IHr s').
  destruct ((fix go (l : list Node) (s : BState) {struct l} :=
               match l with
               | [] => ([], s)
               | c0 :: r0 =>
                   let '(c'0, s'0) := visit f c0 s in
                   let '(r', s'') := go r0 s'0 in (c'0 :: r', s'')
               end) r s') as [r' s''].
  exact IHr.
Qed.

Lemma meter_style_pass env pool total n st :
  meter (snd (style_pass env pool total n st))
  = ticks total (font_items n) (meter st).
Proof.
  revert st. induction n as [d|nm a ch IH] using Node_ind; intros st;
    [reflexivity|].
  cbn [style_pass font_items].
  set (go := fix go (l : list Node) (st : BState) {struct l} :=
               match l with
               | [] => ([], st)
               | c :: r =>
                   let '(c', st1) := style_pass env pool total c st in
                   let '(r', st2) := go r st1 in (c' :: r', st2)
               end).
  assert (G : forall s, meter (snd (go ch s))
                        = ticks total (list_sum (map font_items ch)) (meter s)).
  { induction IH as [|c r Hc _ IHr]; intros s; [reflexivity|].
    cbn [go].
    change (list_sum (map ?g (c :: r))) with (g c + list_sum (map g r)).
    rewrite iter_tick_add, <- Hc.
    destruct (style_pass env pool total c s) as [c' s1]. cbn [snd].
    rewrite <- IHr. destruct (go r s1) as [r' s2]. reflexivity. }
  rewrite iter_tick_add, (eqb_sym nm).
  destruct (JS.eqb (js "style") nm).
  - destruct (UrlRegex.matchAll (flat_map textContent ch)) as [|u ms] eqn:Em.
    + cbn [List.length ticks]. rewrite <- G.
      destruct (go ch st). reflexivity.
    + rewrite <- (meter_process_matches env pool total (u :: ms)
                    (flat_map textContent ch) st).
      destruct (process_matches env pool total (u :: ms)
                  (flat_map textContent ch) st) as [css' st1].
      cbn [snd]. rewrite <- G. destruct (go ch st1). reflexivity.
  - cbn [ticks]. rewrite <- G. destruct (go ch st). reflexivity.
Qed.

Lemma iter_tick_log total n :
  0 < total ->
  ticks total n (0, [])
  = (n, map (fun k => (k, total)) (seq 1 n)).
Proof.
  intros Ht. induction n as [|n IH]; [reflexivity|].
  cbn [ticks]. rewrite IH. unfold tick. cbn [fst snd].
  apply Nat.ltb_lt in Ht. rewrite Ht.
  now rewrite seq_S, map_app.
Qed.

(** X4.  The progress callback of a bundling call is invoked once for
    every discovered unit (every image element, every url match of every
    style element) and for nothing else: it receives the counts 1, 2, ...
    up to the total, each with the total, so that the counts only grow and
    the last call reports the whole; a document without units gets no
    call. *)
Theorem progress_counts_every_unit
        (env : Env) (pool : AssetPool) (doc : Node) (r : BundleResult) :
  bundleResources env doc pool = inr r ->
  let totalItems :=
    List.length (getElementsByTagName (js "image") doc)
    + count_font_items doc in
  r_progress r = map (fun k => (k, totalItems)) (seq 1 totalItems).
Proof.
  unfold bundleResources.
  destruct (getElementsByTagName (js "parsererror") doc); [|discriminate].
  set (total := _ + _).
  pose proof (meter_visit env pool total doc initial) as M1.
  pose proof (visit_keeps_text
                (fun nm a st => if JS.eqb nm (js "image")
                                then process_image env pool total a st
                                else (a, st)) doc initial) as [_ K].
  unfold image_pass in *.
  destruct (visit _ doc initial) as [doc1 st1]. cbn [fst snd] in *.
  pose proof (meter_style_pass env pool total doc1 st1) as M2.
  destruct (style_pass env pool total doc1 st1) as [doc2 st2].
  cbn [snd] in M2. intros E. injection E as <-. cbn [r_progress].
  rewrite M1, K, <- iter_tick_add, <- font_items_count in M2.
  change (List.length (getElementsByTagName (js "image") doc)
          + count_font_items doc) with total in M2.
  change (meter initial) with (0, @nil (nat * nat)) in M2.
  destruct total as [|t] eqn:Et.
  - cbn in M2. now injection M2.
  - rewrite iter_tick_log in M2 by lia. now injection M2.
Qed.

Lemma progress_counts_every_unit_witness :
  exists r, bundleResources Sample.env two_images [] = inr r
            /\ r_progress r = [(1, 2); (2, 2)].
Proof.
  eexists. split; [reflexivity|].
  exact (@progress_counts_every_unit Sample.env [] two_images _ eq_refl).
Defined.

(** ** File names and the url scan *)

Lemma split_pieces (c : N) (s : jsstring) :
  Forall (fun w => ~ In c w /\ forall x, In x w -> In x s) (split c s).
Proof.
  induction s as [|x s IH]; cbn [split].
  - constructor; [|constructor]. split; [now intros []|now intros ? []].
  - destruct (N.eqb x c) eqn:E.
    + constructor; [split; [now intros []|now intros ? []]|].
      eapply Forall_impl; [|exact IH]. intros w [H1 H2].
      split; [exact H1|]. intros y Hy. right. now apply H2.
    + apply N.eqb_neq in E.
      destruct (split c s) as [|w ws].
      * constructor; [|constructor]. split.
        -- intros [H|[]]. congruence.
        -- intros y [<-|[]]. now left.
      * inversion IH as [|? ? [H1 H2] Hws]; subst. constructor.
        -- split.
           ++ intros [H|H]; [congruence|contradiction].
           ++ intros y [<-|Hy]; [now left|right; now apply H2].
        -- eapply Forall_impl; [|exact Hws]. intros v [V1 V2].
           split; [exact V1|]. intros y Hy. right. now apply V2.
Qed.

Lemma Forall_last (A : Type) (P : A -> Prop) (l : list A) (d : A) :
  P d -> Forall P l -> P (last l d).
Proof.
  intros Hd. induction 1 as [|x r Hx Hr IH]; [exact Hd|].
  destruct r; [exact Hx|exact IH].
Qed.

Lemma Forall_hd (A : Type) (P : A -> Prop) (l : list A) (d : A) :
  P d -> Forall P l -> P (hd d l).
Proof. intros Hd [|x r Hx _]; assumption. Qed.

(** X5.  The file name derived from a reference is a single path
    segment: it never contains a slash, whatever the reference and
    whatever the URL parser makes of it.  For a reference that is not an
    absolute URL it contains no question mark either and is never empty,
    the name unknown standing for an empty one. *)
Theorem derived_filename_is_a_segment (env : Env) (path : jsstring) :
  ~ In slash (getFilename env path)
  /\ (url_pathname env path = None ->
      ~ In qmark (getFilename env path) /\ getFilename env path <> []).
Proof.
  unfold getFilename, after_last.
  destruct (url_pathname env path) as [pathname|].
  - split; [|discriminate].
    apply (@Forall_last jsstring (fun w => ~ In slash w)
                        (split slash pathname) []); [now intros []|].
    eapply Forall_impl; [|apply split_pieces]. now intros w [H _].
  - set (seg := last (split slash path) []).
    assert (Hseg : ~ In slash seg).
    { apply (@Forall_last jsstring (fun w => ~ In slash w)
                          (split slash path) []); [now intros []|].
      eapply Forall_impl; [|apply split_pieces]. now intros w [H _]. }
    assert (Hq : ~ In qmark (hd [] (split qmark seg))
                 /\ forall x, In x (hd [] (split qmark seg)) -> In x seg).
    { apply (@Forall_hd jsstring
                        (fun w => ~ In qmark w
                                  /\ forall x, In x w -> In x seg)
                        (split qmark seg) []);
        [split; [now intros []|now intros ? []]|apply split_pieces]. }
    destruct (hd [] (split qmark seg)) as [|c w] eqn:E.
    + split; [|intros _; split; [|discriminate]];
        vm_compute; intuition discriminate.
    + destruct Hq as [Q1 Q2]. split; [|intros _; split;
                                        [exact Q1|discriminate]].
      intros H. apply Hseg. now apply Q2.
Qed.

Lemma run_spec (s : jsstring) :
  Forall (fun c => UrlRegex.in_run c = true) (fst (UrlRegex.run s))
  /\ s = fst (UrlRegex.run s) ++ snd (UrlRegex.run s).
Proof.
  induction s as [|c s [IH1 IH2]]; cbn [UrlRegex.run]; [now split|].
  destruct (UrlRegex.in_run c) eqn:E; [|now split].
  destruct (UrlRegex.run s) as [u r]. cbn [fst snd] in *.
  split; [now constructor|]. cbn [app]. now rewrite <- IH2.
Qed.

Lemma includes_app (u pre post : jsstring) :
  includes u (pre ++ u ++ post) = true.
Proof.
  assert (S : forall v w, startsWith v (v ++ w) = true).
  { induction v as [|x v IH]; intros w; [reflexivity|].
    cbn [app startsWith]. now rewrite N.eqb_refl, IH. }
  induction pre as [|x pre IH].
  - cbn [app]. destruct (u ++ post) eqn:E; cbn [includes];
      rewrite <- E, S; reflexivity.
  - cbn [app includes]. rewrite IH. apply orb_true_r.
Qed.

Lemma skip_ws_suffix (s : jsstring) :
  exists pre, s = pre ++ fst (UrlRegex.skip_ws s).
Proof.
  induction s as [|c s [pre IH]]; cbn [UrlRegex.skip_ws]; [now exists []|].
  destruct (is_ws c); [|now exists []].
  destruct (UrlRegex.skip_ws s) as [r n]. cbn [fst] in *.
  exists (c :: pre). cbn [app]. now rewrite <- IH.
Qed.

Lemma match_at_spec (s u : jsstring) (len : nat) :
  UrlRegex.match_at s = Some (u, len) ->
  u <> [] /\ Forall (fun c => UrlRegex.in_run c = true) u
  /\ 1 <= len /\ exists pre post, s = pre ++ u ++ post.
Proof.
  unfold UrlRegex.match_at.
  destruct (startsWith (js "url") s); [|discriminate].
  destruct (skip_ws_suffix (skipn 3 s)) as (p1 & E1).
  destruct (UrlRegex.skip_ws (skipn 3 s)) as [r1 nws]. cbn [fst] in E1.
  destruct r1 as [|c1 r2]; [discriminate|].
  destruct (N.eqb_spec c1 40);
    [subst c1|destruct c1 as [|[p|p|]]; try discriminate;
              repeat (destruct p as [p|p|]; try discriminate); congruence].
  set (q1 := match r2 with
             | c :: r => if UrlRegex.is_quote c then (r, 1) else (r2, 0)
             | [] => (r2, 0)
             end).
  assert (E2 : exists p2, r2 = p2 ++ fst q1).
  { unfold q1. destruct r2 as [|c r]; [now exists []|].
    destruct (UrlRegex.is_quote c); [now exists [c]|now exists []]. }
  destruct E2 as (p2 & E2). destruct q1 as [r3 nq1]. cbn [fst] in E2.
  destruct (run_spec r3) as [F3 E3].
  destruct (UrlRegex.run r3) as [u' r4]. cbn [fst snd] in *.
  destruct u' as [|c u']; [discriminate|].
  destruct (match r4 with
            | c0 :: r => if UrlRegex.is_quote c0 then (r, 1) else (r4, 0)
            | [] => (r4, 0)
            end) as [r5 nq2].
  destruct r5 as [|c5 r6]; [discriminate|].
  destruct (UrlRegex.is_close c5); [|discriminate].
  intros E. injection E as <- <-.
  split; [discriminate|]. split; [exact F3|]. split; [lia|].
  exists (firstn 3 s ++ p1 ++ [40%N] ++ p2), r4.
  transitivity (firstn 3 s ++ skipn 3 s); [symmetry; apply firstn_skipn|].
  rewrite E1, E2, E3. repeat rewrite <- app_assoc. reflexivity.
Qed.

Lemma matchAll_from_spec (P : jsstring -> Prop) (s : jsstring) :
  (forall t u len pre, s = pre ++ t ->
                       UrlRegex.match_at t = Some (u, len) -> P u) ->
  forall skip, Forall P (UrlRegex.matchAll_from skip s).
Proof.
  induction s as [|c s IH]; intros H skip; [constructor|].
  assert (IH' : forall k, Forall P (UrlRegex.matchAll_from k s)).
  { apply IH. intros t u len pre E. apply (H t u len (c :: pre)).
    cbn [app]. now rewrite E. }
  cbn [UrlRegex.matchAll_from].
  destruct skip; [|apply IH'].
  destruct (UrlRegex.match_at (c :: s)) as [[u len]|] eqn:E; [|apply IH'].
  constructor; [|apply IH']. now apply (H (c :: s) u len []).
Qed.

(** X6.  Every reference that the stylesheet scan captures is not
    empty, contains neither a quote nor a closing parenthesis, and occurs
    in the text that was scanned, so that the replacement of the
    reference in that text always finds it. *)
Theorem captured_urls_are_clean (css : jsstring) :
  Forall (fun u => u <> []
                   /\ Forall (fun c => c <> 39%N /\ c <> 34%N /\ c <> 41%N) u
                   /\ includes u css = true)
         (UrlRegex.matchAll css).
Proof.
  unfold UrlRegex.matchAll. apply matchAll_from_spec.
  intros t u len pre E Hm.
  destruct (match_at_spec t Hm) as (Hne & Hrun & _ & p & q & Et).
  split; [exact Hne|]. split.
  - eapply Forall_impl; [|exact Hrun]. intros c Hc.
    unfold UrlRegex.in_run, UrlRegex.is_quote, UrlRegex.is_close in Hc.
    apply negb_true_iff in Hc.
    apply orb_false_iff in Hc as [Hq Hcl].
    apply orb_false_iff in Hq as [H1 H2].
    apply N.eqb_neq in H1, H2, Hcl. now repeat split.
  - rewrite E, Et, app_assoc. apply includes_app.
Qed.

Lemma derived_filename_is_a_segment_witness :
  ~ In qmark (getFilename Sample.env (js "pics/a.jpg?v=2"))
  /\ getFilename Sample.env (js "pics/a.jpg?v=2") <> [].
Proof.
  apply (proj2 (derived_filename_is_a_segment Sample.env
                  (js "pics/a.jpg?v=2"))).
  reflexivity.
Defined.

(** ** More on the redaction transform *)

Lemma node_at_elements p n nm a ch :
  node_at p n = Some (Elem nm a ch) -> In (nm, a, ch) (elements n).
Proof.
  revert n. induction p as [|i p IH]; intros n; cbn [node_at].
  - intros E. injection E as ->. now left.
  - destruct n as [nm' a' ch'|d]; [|discriminate].
    destruct (nth_error ch' i) as [c|] eqn:En; [|discriminate].
    intros H. cbn [elements]. right. apply in_flat_map.
    exists c. split; [now apply nth_error_In with i|now apply IH].
Qed.

Lemma redact_untagged (doc : Node) : untagged doc -> redact doc = doc.
Proof.
  intros Hu. unfold redact.
  assert (Hi : redact_images doc = doc).
  { unfold redact_images, imagesToRedact, getElementsByTagName.
    rewrite filter_twice.
    destruct (filter _ (elements doc)) as [|e l] eqn:E; [reflexivity|].
    assert (Hin : In e (filter (fun x => JS.eqb (js "image") (el_name x)
                                         && shouldRedact (el_attrs x))
                               (elements doc)))
      by (rewrite E; now left).
    apply filter_In in Hin as [Hin Hc].
    rewrite (Hu e Hin), andb_false_r in Hc. discriminate Hc. }
  rewrite Hi. unfold redact_text.
  generalize (paths (js "text") doc ++ paths (js "tspan") doc).
  intros ps. induction ps as [|p ps IH]; [reflexivity|].
  cbn [fold_left].
  assert (E : redact_container doc p = doc).
  { unfold redact_container.
    destruct (node_at p doc) as [[nm a ch|d]|] eqn:En; try reflexivity.
    apply node_at_elements in En. pose proof (Hu _ En) as H.
    cbn [el_attrs fst snd] in H. now rewrite H. }
  now rewrite E.
Qed.

(** X7.  A document in which no element is tagged for redaction goes
    through the redaction transform unchanged: no filter definition, no
    definitions section, no masked text. *)
Theorem untagged_document_is_unchanged (doc : Node) :
  untagged doc -> redact doc = doc.
Proof. apply redact_untagged. Qed.

Lemma untagged_document_is_unchanged_witness :
  redact Sample.relative_image = Sample.relative_image.
Proof.
  apply untagged_document_is_unchanged.
  intros e He. vm_compute in He.
  destruct He as [<-|[<-|[]]]; reflexivity.
Defined.

Lemma setAttribute_idem k v a :
  setAttribute k v (setAttribute k v a) = setAttribute k v a.
Proof.
  induction a as [|[k' v'] a IH]; cbn [setAttribute].
  - now rewrite eqb_refl.
  - destruct (JS.eqb k k') eqn:E; cbn [setAttribute]; rewrite E;
      [reflexivity|now rewrite IH].
Qed.

Lemma set_filter_idem nm a : set_filter nm (set_filter nm a) = set_filter nm a.
Proof.
  pose proof (set_filter_target (nm, a)) as H.
  unfold lab_target in H. cbn [fst snd] in H.
  unfold set_filter at 1. rewrite H. unfold set_filter.
  destruct (JS.eqb (js "image") nm && shouldRedact a); [|reflexivity].
  apply setAttribute_idem.
Qed.

Lemma map_attrs_idem f n :
  (forall nm a, f nm (f nm a) = f nm a) ->
  map_attrs f (map_attrs f n) = map_attrs f n.
Proof.
  intros Hf. induction n as [d|nm a ch IH] using Node_ind; [reflexivity|].
  cbn [map_attrs]. rewrite Hf, map_map. f_equal.
  now apply map_ext_Forall_eq.
Qed.

Lemma tag_count_labels tag n :
  List.length (getElementsByTagName tag n) = named tag (labels n).
Proof.
  unfold getElementsByTagName, named, labels.
  now rewrite <- (filter_map_length label (fun x => JS.eqb tag (fst x))).
Qed.

Lemma named_app tag l1 l2 : named tag (l1 ++ l2) = named tag l1 + named tag l2.
Proof. unfold named. now rewrite filter_app, length_app. Qed.

Lemma named_set_filter tag l :
  named tag (map (fun x => (fst x, set_filter (fst x) (snd x))) l)
  = named tag l.
Proof.
  unfold named.
  rewrite <- (filter_map_length
                (fun x => (fst x, set_filter (fst x) (snd x)))
                (fun x => JS.eqb tag (fst x))).
  reflexivity.
Qed.

(** The image redaction, when there is an image to redact, is the
    setting of the filter reference on a tree that has a definitions
    section and the filter definition. *)
Lemma redact_images_shape doc :
  imagesToRedact doc <> [] ->
  exists doc2,
    redact_images doc = map_attrs set_filter doc2
    /\ named (js "defs") (labels doc2) <> 0.
Proof.
  intros Hi. unfold redact_images.
  pose proof (target_count_labels doc) as Ht.
  destruct (imagesToRedact doc) as [|t ts]; [congruence|].
  assert (Hpos : targets (labels doc) <> 0) by (rewrite <- Ht; discriminate).
  destruct (ensure_defs_counts doc) as (_ & _ & D1).
  specialize (D1 Hpos).
  assert (N1 : named (js "defs") (labels (ensure_defs doc)) <> 0).
  { rewrite <- tag_count_labels.
    destruct (getElementsByTagName (js "defs") (ensure_defs doc));
      [congruence|discriminate]. }
  eexists. split; [reflexivity|].
  destruct (getElementById FILTER_ID (ensure_defs doc)); [exact N1|].
  set (c := blur_filter (defs_scope (ensure_defs doc))).
  destruct (append_to_first (js "defs") c (ensure_defs doc))
    as [d|] eqn:Ea; [|exact N1].
  destruct (@append_labels (js "defs") c (ensure_defs doc) d Ea)
    as (l1 & l2 & L1 & L2).
  rewrite L1, named_app in N1. rewrite L2, !named_app. lia.
Qed.

(** X8.  The image part of the redaction is idempotent: run on its own
    output it returns that output, tree for tree; no second definitions
    section, no second filter, no change of attributes. *)
Theorem image_redaction_is_idempotent (doc : Node) :
  redact_images (redact_images doc) = redact_images doc.
Proof.
  destruct (imagesToRedact doc) as [|t ts] eqn:Ei.
  - unfold redact_images at 2. rewrite Ei.
    unfold redact_images. now rewrite Ei.
  - assert (Hi : imagesToRedact doc <> []) by (rewrite Ei; discriminate).
    destruct (redact_images_counts doc) as (C & T & _).
    destruct (@redact_images_shape doc Hi) as (doc2 & E & Hd).
    set (d' := redact_images doc) in *.
    assert (Hpos : targets (labels doc) <> 0).
    { rewrite <- target_count_labels, Ei. discriminate. }
    unfold redact_images.
    pose proof (target_count_labels d') as Ht'. rewrite T in Ht'.
    destruct (imagesToRedact d') as [|t' ts'];
      [cbn [List.length] in Ht'; congruence|].
    assert (Ed : ensure_defs d' = d').
    { unfold ensure_defs.
      pose proof (tag_count_labels (js "defs") d') as Hn.
      rewrite E, labels_map_attrs, named_set_filter in Hn.
      rewrite <- E in Hn.
      destruct (getElementsByTagName (js "defs") d');
        [cbn [List.length] in Hn; congruence|reflexivity]. }
    rewrite Ed.
    apply Nat.eqb_neq in Hpos. rewrite Hpos in C.
    destruct (getElementById FILTER_ID d') eqn:Eg.
    2:{ apply getElementById_count in Eg. lia. }
    change (map_attrs _ d') with (map_attrs set_filter d').
    rewrite E. apply map_attrs_idem, set_filter_idem.
Qed.

Lemma mask_layout (s s' : jsstring) :
  ws_layout s = ws_layout s' -> mask s = mask s' /\ has_ink s = has_ink s'.
Proof.
  unfold ws_layout, mask, replace_ink, has_ink.
  revert s'. induction s as [|c s IH]; intros [|c' s'] H; try discriminate;
    [now split|].
  cbn [map] in H. injection H as Hc Hs.
  destruct (IH s' Hs) as [IM II].
  cbn [flat_map existsb]. rewrite IM, II.
  destruct (is_ws c) eqn:Ec, (is_ws c') eqn:Ec'; try discriminate;
    [|now split].
  injection Hc as ->. now split.
Qed.

Lemma blank_layout (s s' : jsstring) :
  has_ink s = false -> ws_layout s = ws_layout s' -> s = s'.
Proof.
  unfold has_ink, ws_layout.
  revert s'. induction s as [|c s IH]; intros [|c' s'] E H; try discriminate;
    [reflexivity|].
  cbn [map] in H. cbn [existsb] in E. injection H as Hc Hs.
  apply orb_false_iff in E as [E1 E2].
  apply negb_false_iff in E1. rewrite E1 in Hc.
  destruct (is_ws c'); [|discriminate]. injection Hc as ->.
  f_equal. now apply IH.
Qed.

(** X9.  What the masking writes depends on nothing but the white space
    of the text and its places: two texts with the same white space at the
    same places are replaced by the same text, so the replacement tells
    their other characters apart in no way.  The white space itself is
    kept, in order, and every other character of the result is one of the
    replacement text. *)
Theorem masking_reveals_only_white_space :
  (forall s s',
      ws_layout s = ws_layout s' ->
      redactTextNodes (Text s) = redactTextNodes (Text s'))
  /\ (forall s, filter is_ws (mask s) = filter is_ws s)
  /\ (forall s, Forall (fun c => is_ws c = true \/ In c mask_text) (mask s)).
Proof.
  split; [|split].
  - intros s s' H. destruct (mask_layout s s' H) as [Hm Hi].
    cbn [redactTextNodes]. rewrite Hm, <- Hi.
    destruct (has_ink s) eqn:E; [reflexivity|].
    f_equal. now apply blank_layout.
  - intros s. unfold mask, replace_ink.
    induction s as [|c s IH]; [reflexivity|].
    cbn [flat_map]. rewrite filter_app, IH.
    destruct (is_ws c) eqn:E; cbn [filter app]; now rewrite ?E.
  - intros s. unfold mask, replace_ink.
    induction s as [|c s IH]; [constructor|].
    cbn [flat_map]. apply Forall_app. split; [|exact IH].
    destruct (is_ws c) eqn:E.
    + constructor; [now left|constructor].
    + apply Forall_forall. intros x Hx. now right.
Qed.

Lemma masking_reveals_only_white_space_witness :
  redactTextNodes (Text (js "Hello World"))
  = redactTextNodes (Text (js "Adieu Monde")).
Proof.
  apply (proj1 masking_reveals_only_white_space). reflexivity.
Defined.

Lemma getAttribute_remove_other k k' a :
  k' <> k -> getAttribute k' (removeAttribute k a) = getAttribute k' a.
Proof.
  intros Hne. induction a as [|[k0 v0] a IH]; [reflexivity|].
  cbn [removeAttribute getAttribute].
  destruct (JS.eqb k k0) eqn:E.
  - apply eqb_eq in E. subst k0. apply eqb_neq in Hne. now rewrite Hne.
  - cbn [getAttribute]. destruct (JS.eqb k' k0); [reflexivity|exact IH].
Qed.

Lemma untag_no_tags a : getAttribute (js "data-tags") (untag a) = None.
Proof.
  unfold untag, hasAttribute.
  destruct (getAttribute (js "data-tags") a) eqn:E; [|exact E].
  apply getAttribute_remove_same.
Qed.

Lemma untag_other k a :
  k <> js "data-tags" -> getAttribute k (untag a) = getAttribute k a.
Proof.
  intros Hk. unfold untag.
  destruct (hasAttribute (js "data-tags") a); [|reflexivity].
  now apply getAttribute_remove_other.
Qed.

Lemma text_leaves_map_attrs f n :
  text_leaves (map_attrs f n) = text_leaves n.
Proof.
  induction n as [d|nm a ch IH] using Node_ind; [reflexivity|].
  cbn [map_attrs text_leaves].
  induction IH as [|c r Hc _ IHr]; [reflexivity|].
  cbn [map flat_map]. now rewrite Hc, IHr.
Qed.

(** X10.  After the tags of a page are cleared no element carries a tag
    annotation, every other attribute of every element is as it was, and
    the redaction transform has nothing left to do: it returns the cleared
    document unchanged. *)
Theorem cleared_document_is_not_redacted (doc : Node) :
  annotations (TagCommands.clearAllTags doc) = []
  /\ (forall k, k <> js "data-tags" ->
                map (fun x => (fst x, getAttribute k (snd x)))
                    (labels (TagCommands.clearAllTags doc))
                = map (fun x => (fst x, getAttribute k (snd x))) (labels doc))
  /\ text_leaves (TagCommands.clearAllTags doc) = text_leaves doc
  /\ redact (TagCommands.clearAllTags doc) = TagCommands.clearAllTags doc.
Proof.
  unfold TagCommands.clearAllTags.
  change (fun (_ : jsstring) (a : Attrs) =>
            if hasAttribute (js "data-tags") a
            then removeAttribute (js "data-tags") a else a)
    with (fun (_ : jsstring) (a : Attrs) => untag a).
  split; [|split; [|split]].
  - unfold annotations. rewrite labels_map_attrs.
    induction (labels doc) as [|x l IH]; [reflexivity|].
    cbn [map flat_map]. rewrite IH. unfold annotation. cbn [snd].
    now rewrite untag_no_tags.
  - intros k Hk. rewrite labels_map_attrs, map_map. apply map_ext.
    intros x. cbn [fst snd]. now rewrite untag_other.
  - apply text_leaves_map_attrs.
  - apply redact_untagged. intros e He.
    rewrite (elements_transform (map_attrs (fun _ a => untag a))
               (fun _ a => untag a)) in He;
      [|reflexivity|intros d; now exists d].
    apply in_map_iff in He as (e0 & <- & _).
    unfold shouldRedact. cbn [el_attrs fst snd].
    now rewrite untag_no_tags.
Qed.

Lemma cleared_document_is_not_redacted_witness :
  annotations (TagCommands.clearAllTags Sample.tagged_image) = []
  /\ map (fun x => (fst x, getAttribute (js "href") (snd x)))
         (labels (TagCommands.clearAllTags Sample.tagged_image))
     = map (fun x => (fst x, getAttribute (js "href") (snd x)))
           (labels Sample.tagged_image).
Proof.
  destruct (cleared_document_is_not_redacted Sample.tagged_image)
    as (H1 & H2 & _).
  split; [exact H1|]. apply H2. discriminate.
Defined.

(** ** More on the paginated export *)

Lemma svg_root_dimensions env a ch ch' :
  getSvgDimensions env (Elem (js "svg") a ch)
  = getSvgDimensions env (Elem (js "svg") a ch').
Proof.
  unfold getSvgDimensions, getElementsByTagName.
  cbn [elements filter el_name fst]. now rewrite eqb_refl.
Qed.

Lemma redact_keeps_svg_root a ch :
  exists ch', redact (Elem (js "svg") a ch) = Elem (js "svg") a ch'.
Proof.
  assert (I : exists ch1, redact_images (Elem (js "svg") a ch)
                          = Elem (js "svg") a ch1).
  { unfold redact_images.
    destruct (imagesToRedact (Elem (js "svg") a ch)); [now exists ch|].
    assert (E1 : exists c1, ensure_defs (Elem (js "svg") a ch)
                            = Elem (js "svg") a c1).
    { unfold ensure_defs.
      destruct (getElementsByTagName (js "defs") (Elem (js "svg") a ch));
        now eexists. }
    destruct E1 as (c1 & ->).
    assert (E2 : exists c2,
               match getElementById FILTER_ID (Elem (js "svg") a c1) with
               | Some _ => Elem (js "svg") a c1
               | None =>
                   match append_to_first
                           (js "defs")
                           (blur_filter (defs_scope (Elem (js "svg") a c1)))
                           (Elem (js "svg") a c1) with
                   | Some d => d
                   | None => Elem (js "svg") a c1
                   end
               end = Elem (js "svg") a c2).
    { destruct (getElementById FILTER_ID (Elem (js "svg") a c1));
        [now exists c1|].
      generalize (blur_filter (defs_scope (Elem (js "svg") a c1))) as bf.
      intros bf. cbn [append_to_first].
      change (JS.eqb (js "defs") (js "svg")) with false. cbn iota.
      match goal with
      | |- context [match ?g c1 with _ => _ end] => destruct (g c1)
      end; now eexists. }
    destruct E2 as (c2 & ->). cbn [map_attrs].
    change (JS.eqb (js "image") (js "svg")) with false. cbn [andb].
    now eexists. }
  destruct I as (ch1 & I). unfold redact. rewrite I.
  pose proof (erase_redact_text (Elem (js "svg") a ch1)) as E.
  destruct (redact_text (Elem (js "svg") a ch1)) as [nm a' ch'|d];
    [|discriminate E].
  cbn [erase] in E. injection E as -> -> _. now exists ch'.
Qed.

Lemma embed_keeps_svg_root env pool file a ch :
  exists ch', embedAssets env pool (Elem (js "svg") a ch) file
              = Elem (js "svg") a ch'.
Proof.
  unfold embedAssets.
  destruct (getElementsByTagName (js "parsererror") (Elem (js "svg") a ch));
    [|now exists ch].
  cbn [map_attrs].
  change (JS.eqb (js "svg") (js "image")) with false. cbn iota.
  cbn [embed_styles].
  change (JS.eqb (js "svg") (js "style")) with false. cbn iota.
  now eexists.
Qed.

(** X12.  For a document whose root is the svg element, redaction and
    the inlining of assets leave the measured size as it is: the size of
    the exported page is the one of the source document, whatever is
    redacted or inlined. *)
Theorem export_keeps_page_size
        (env : Env) (pool : AssetPool) (file : ProcessedSVG)
        (a : Attrs) (ch : list Node) :
  getSvgDimensions env (embedAssets env pool (redact (Elem (js "svg") a ch))
                                    file)
  = getSvgDimensions env (Elem (js "svg") a ch)
  /\ page_height env (embedAssets env pool (redact (Elem (js "svg") a ch))
                                  file)
     = page_height env (Elem (js "svg") a ch).
Proof.
  destruct (redact_keeps_svg_root a ch) as (c1 & ->).
  destruct (embed_keeps_svg_root env pool file a c1) as (c2 & ->).
  unfold page_height. now rewrite (svg_root_dimensions env a c2 ch).
Qed.

Lemma step_console env pool files i f st :
  console (step env pool files i f st)
  = console st
    ++ (if has_content f && negb (reaches_success env pool files i f)
        then [i + 1] else []).
Proof.
  unfold step, has_content, reaches_success.
  destruct (processedContent f) as [c|]; [|now rewrite app_nil_r].
  destruct (try_page_appends env pool files i f c (doc st)) as (new & E & _).
  rewrite E.
  destruct (snd (try_page env pool files i f c None)); cbn;
    [now rewrite app_nil_r|reflexivity].
Qed.

Lemma loop_console_exact env pool files i rest st :
  console (loop env pool files i rest st)
  = console st ++ failures env pool files i rest.
Proof.
  revert i st. induction rest as [|f r IH]; intros i st; cbn [loop failures].
  - now rewrite app_nil_r.
  - now rewrite IH, step_console, app_assoc.
Qed.

(** X13.  The reports [Failed to process page N] that the catch block
    of the export writes name exactly the pages that fail: the page
    number of every document with content whose processing raises, once
    each and in the order of the documents, and no other number; when
    nothing raises there is no such report.  (Other console output, of
    the inlining or the rasterization, is not concerned.) *)
Theorem failure_reports_name_the_failing_pages
        (env : Env) (pool : AssetPool) (files : list ProcessedSVG) :
  console (run env pool files) = failures env pool files 0 files
  /\ ((forall i, raises env i = None) -> console (run env pool files) = []).
Proof.
  assert (E : console (run env pool files) = failures env pool files 0 files).
  { unfold run. now rewrite loop_console_exact. }
  split; [exact E|]. intros Hn. rewrite E.
  generalize 0. generalize files at 2 as rest.
  induction rest as [|f r IH]; intros i; [reflexivity|].
  cbn [failures]. rewrite IH.
  unfold reaches_success, has_content.
  destruct (processedContent f) as [c|]; [|reflexivity].
  now rewrite (@try_page_no_raise env pool files i f c (Hn i)).
Qed.

Lemma failure_reports_name_the_failing_pages_witness :
  console (run Sample.env [] [Sample.page_a; Sample.page_b]) = [].
Proof.
  apply (proj2 (failure_reports_name_the_failing_pages
                  Sample.env [] [Sample.page_a; Sample.page_b])).
  reflexivity.
Defined.

Lemma chunk_length env pool files i f :
  (if has_content f then 1 else 0) <= List.length (chunk env pool files i f)
  /\ List.length (chunk env pool files i f)
     <= (if has_content f then (if i =? 0 then 3 else 2) else 0).
Proof.
  unfold chunk, step, has_content.
  destruct (processedContent f) as [c|]; [|cbn; lia].
  cbn [doc]. unfold try_page, placeholder.
  destruct (throws env i Redact); [cbn; destruct (i =? 0); lia|].
  destruct (throws env i Embed); [cbn; destruct (i =? 0); lia|].
  destruct (throws env i Measure); [cbn; destruct (i =? 0); lia|].
  destruct (throws env i AddPage); [cbn; destruct (i =? 0); lia|].
  destruct (throws env i Rasterize); [cbn; destruct (i =? 0); lia|].
  destruct (throws env i AddImage); [cbn; destruct (i =? 0); lia|].
  destruct (i =? 0); cbn [andb]; [|cbn; lia].
  destruct (1 <? List.length files); [|cbn; lia].
  destruct (throws env i CoverAddPage); [cbn; lia|].
  destruct (negb (white (cover_color env files))); [|cbn; lia].
  destruct (throws env i CoverFill); cbn; lia.
Qed.

Lemma chunks_length env pool files i rest :
  List.length (filter has_content rest)
  <= List.length (chunks env pool files i rest)
  /\ List.length (chunks env pool files i rest)
     <= 2 * List.length (filter has_content rest)
        + (if i =? 0 then 1 else 0).
Proof.
  revert i. induction rest as [|f r IH]; intros i; cbn [chunks filter].
  - cbn. destruct (i =? 0); lia.
  - rewrite length_app.
    destruct (chunk_length env pool files i f) as [L U].
    destruct (IH (S i)) as [L' U']. cbn [Nat.eqb] in U'.
    destruct (has_content f); cbn [List.length]; destruct (i =? 0); lia.
Qed.

(** X14.  The exported document has at least one page for every input
    document with content, rendered or placeholder, and at most two for
    each of them plus one: no document with content is dropped, whatever
    raises. *)
Theorem every_document_with_content_gets_a_page
        (env : Env) (pool : AssetPool) (files : list ProcessedSVG) :
  List.length (filter has_content files)
  <= List.length (pages (generate env pool files))
  /\ List.length (pages (generate env pool files))
     <= 2 * List.length (filter has_content files) + 1.
Proof.
  rewrite generate_pages. exact (chunks_length env pool files 0 files).
Qed.

Lemma embed_styles_elements env pool file n e :
  In e (elements (embed_styles env pool file n)) ->
  exists e0, In e0 (elements n) /\ label e = label e0.
Proof.
  revert e. induction n as [d|nm a ch IH] using Node_ind; intros e He;
    [destruct He|].
  cbn [embed_styles] in He. destruct (JS.eqb nm (js "style")).
  - exists (nm, a, ch). split; [now left|].
    destruct (embed_css env pool file _ _); cbn in He;
      destruct He as [<-|He]; try reflexivity; destruct He.
  - cbn [elements] in He. destruct He as [<-|He].
    + exists (nm, a, ch). split; [now left|reflexivity].
    + apply in_flat_map in He as (c' & Hc' & He).
      apply in_map_iff in Hc' as (c & <- & Hc).
      rewrite Forall_forall in IH.
      destruct (IH c Hc e He) as (e0 & He0 & El).
      exists e0. split; [|exact El].
      cbn [elements]. right. apply in_flat_map. now exists c.
Qed.

Lemma embed_image_other env pool file a k :
  k <> js "href" -> k <> js "xlink:href" ->
  getAttribute k (embed_image env pool file a) = getAttribute k a.
Proof.
  intros H1 H2. unfold embed_image.
  destruct (truthy _) as [href|]; [|reflexivity].
  destruct (findBlob env pool file href) as [b|]; [|reflexivity].
  cbv zeta. destruct (hasAttribute _ _).
  - rewrite getAttribute_remove_other by exact H2.
    now apply getAttribute_set_other.
  - now apply getAttribute_set_other.
Qed.






(** ** Bundling and the tags *)

Lemma visit_frame (St : Type) (f : jsstring -> Attrs -> St -> Attrs * St)
      (key : jsstring) :
  (forall nm a s, getAttribute key (fst (f nm a s)) = getAttribute key a) ->
  forall n s,
    is_text (fst (visit f n s)) = is_text n
    /\ plain_styles (fst (visit f n s)) = plain_styles n
    /\ readings key (fst (visit f n s)) = readings key n.
Proof.
  intros Hf n.
  induction n as [d|nm a ch IH] using Node_ind; intros s;
    [now repeat split|].
  cbn [visit]. pose proof (Hf nm a s) as Ha.
  destruct (f nm a s) as [a' s1]. cbn [fst] in Ha.
  set (go := fix go (l : list Node) (s : St) {struct l} : list Node * St :=
               match l with
               | [] => ([], s)
               | c :: r =>
                   let '(c', s') := visit f c s in
                   let '(r', s'') := go r s' in (c' :: r', s'')
               end).
  assert (G : forall s,
             forallb is_text (fst (go ch s)) = forallb is_text ch
             /\ forallb plain_styles (fst (go ch s))
                = forallb plain_styles ch
             /\ map (fun x => (fst x, getAttribute key (snd x)))
                    (flat_map labels (fst (go ch s)))
                = map (fun x => (fst x, getAttribute key (snd x)))
                      (flat_map labels ch)).
  { induction IH as [|c r Hc _ IHr]; intros s0; [now repeat split|].
    cbn [go]. destruct (Hc s0) as (T1 & P1 & L1).
    destruct (visit f c s0) as [c' s']. cbn [fst] in T1, P1, L1.
    destruct (IHr s') as (T2 & P2 & L2).
    destruct (go r s') as [r' s'']. cbn [fst] in *.
    cbn [forallb flat_map]. rewrite !map_app.
    unfold readings in L1. now rewrite T1, T2, P1, P2, L1, L2. }
  destruct (G s1) as (T & P & L). destruct (go ch s1) as [ch' s2].
  cbn [fst] in *. split; [reflexivity|]. split.
  - cbn [plain_styles]. now rewrite T, P.
  - unfold readings. rewrite !labels_Elem. cbn [map fst snd].
    now rewrite Ha, L.
Qed.

Lemma text_children_no_labels (ch : list Node) :
  forallb is_text ch = true -> flat_map labels ch = [].
Proof.
  induction ch as [|[nm a l|d] r IH]; cbn [forallb is_text andb];
    [reflexivity|discriminate|].
  intros H. cbn [flat_map]. now rewrite IH.
Qed.

Lemma style_pass_labels env pool total n st :
  plain_styles n = true ->
  labels (fst (style_pass env pool total n st)) = labels n.
Proof.
  revert st. induction n as [d|nm a ch IH] using Node_ind; intros st Hp;
    [reflexivity|].
  cbn [plain_styles] in Hp. apply andb_true_iff in Hp as [Hs Hc].
  cbn [style_pass].
  set (go := fix go (l : list Node) (st : BState) {struct l} :=
               match l with
               | [] => ([], st)
               | c :: r =>
                   let '(c', st1) := style_pass env pool total c st in
                   let '(r', st2) := go r st1 in (c' :: r', st2)
               end).
  assert (G : forall s, flat_map labels (fst (go ch s)) = flat_map labels ch).
  { clear Hs. induction IH as [|c r Hc0 _ IHr]; intros s; [reflexivity|].
    cbn [forallb] in Hc. apply andb_true_iff in Hc as [Hc1 Hc2].
    cbn [go]. pose proof (Hc0 s Hc1) as L1.
    destruct (style_pass env pool total c s) as [c' s1]. cbn [fst] in L1.
    pose proof (IHr Hc2 s1) as L2.
    destruct (go r s1) as [r' s2]. cbn [fst] in *.
    cbn [flat_map]. now rewrite L1, L2. }
  destruct (JS.eqb nm (js "style")).
  - destruct (UrlRegex.matchAll (flat_map textContent ch)) as [|u ms].
    + pose proof (G st) as L. destruct (go ch st) as [ch' st'].
      cbn [fst] in *. rewrite !labels_Elem. now rewrite L.
    + destruct (process_matches env pool total (u :: ms)
                  (flat_map textContent ch) st) as [css' st1].
      destruct (go ch st1) as [ch' st2]. cbn [fst].
      rewrite !labels_Elem, (text_children_no_labels _ Hs). reflexivity.
  - pose proof (G st) as L. destruct (go ch st) as [ch' st'].
    cbn [fst] in *. rewrite !labels_Elem. now rewrite L.
Qed.

Lemma process_image_other env pool total a st key :
  key <> js "href" -> key <> js "xlink:href" ->
  getAttribute key (fst (process_image env pool total a st))
  = getAttribute key a.
Proof.
  intros H1 H2. unfold process_image.
  destruct (truthy _) as [href|]; [|reflexivity].
  destruct (processAsset env pool href false st) as [[l|] st1];
    [|reflexivity].
  cbv zeta. destruct (hasAttribute _ _); cbn [fst].
  - rewrite getAttribute_set_other by exact H2.
    now apply getAttribute_set_other.
  - now apply getAttribute_set_other.
Qed.

Lemma annotations_readings n :
  annotations n
  = flat_map (fun y => match snd y with
                       | Some tags => [(fst y, tags)]
                       | None => []
                       end)
             (readings (js "data-tags") n).
Proof.
  unfold annotations, readings.
  induction (labels n) as [|x l IH]; [reflexivity|].
  cbn [flat_map map fst snd]. now rewrite IH.
Qed.

(** X25.  Bundling keeps the tags: in a document whose style elements
    hold text only, a successful bundling call returns a content with the
    same elements in the same order, on which every attribute other than
    href and xlink:href reads as before; in particular the tag
    annotations are those of the source, element by element. *)
Theorem bundling_keeps_the_tags
        (env : Env) (pool : AssetPool) (doc : Node) (r : BundleResult) :
  bundleResources env doc pool = inr r ->
  plain_styles doc = true ->
  annotations (content r) = annotations doc
  /\ forall key, key <> js "href" -> key <> js "xlink:href" ->
                 readings key (content r) = readings key doc.
Proof.
  intros Hb Hp.
  assert (R : forall key, key <> js "href" -> key <> js "xlink:href" ->
                          readings key (content r) = readings key doc).
  { intros key H1 H2. unfold bundleResources in Hb.
    destruct (getElementsByTagName (js "parsererror") doc); [|discriminate].
    set (total := _ + _) in Hb.
    assert (Hf : forall nm a s,
               getAttribute key
                 (fst ((fun nm a st =>
                          if JS.eqb nm (js "image")
                          then process_image env pool total a st
                          else (a, st)) nm a s))
               = getAttribute key a).
    { intros nm a s. cbv beta. destruct (JS.eqb nm (js "image"));
        [now apply process_image_other|reflexivity]. }
    destruct (visit_frame _ key Hf doc initial) as (_ & P & L).
    fold (image_pass env pool total doc initial) in P, L.
    destruct (image_pass env pool total doc initial) as [doc1 st1].
    cbn [fst] in P, L. rewrite Hp in P.
    pose proof (style_pass_labels env pool total doc1 st1 P) as S.
    destruct (style_pass env pool total doc1 st1) as [doc2 st2].
    cbn [fst] in S. injection Hb as <-. cbn [content].
    unfold readings in *. now rewrite S. }
  split; [|exact R].
  rewrite !annotations_readings. now rewrite R by discriminate.
Qed.

Lemma bundling_keeps_the_tags_witness :
  exists r, bundleResources Sample.env Sample.tagged_image [] = inr r
            /\ annotations (content r) = annotations Sample.tagged_image.
Proof.
  eexists. split; [reflexivity|].
  apply (@bundling_keeps_the_tags Sample.env [] Sample.tagged_image);
    reflexivity.
Defined.

(** ** References without a match, in a whole call *)

Lemma processAsset_quiet env pool href isFont st :
  reachable env pool st ->
  startsWith (js "http") href = false ->
  pool_get (getFilename env href) pool = None ->
  processAsset env pool href isFont st = (None, st).
Proof.
  intros Hr Hh Hp. unfold processAsset.
  destruct (is_empty href || startsWith (js "data:") href
            || startsWith (js "#") href); [reflexivity|].
  destruct (truthy (getAttribute href (urlToFilenameMap st))) as [n|] eqn:Em.
  - exfalso.
    destruct (getAttribute href (urlToFilenameMap st)) as [v|] eqn:Eg;
      [|discriminate Em].
    destruct (proj1 (reachable_sound Hr) href v Eg); congruence.
  - now rewrite Hp, Hh.
Qed.

Lemma process_matches_quiet env pool total ms css st :
  reachable env pool st ->
  Forall (quiet env pool) ms ->
  fst (process_matches env pool total ms css st) = css.
Proof.
  revert st. induction ms as [|u ms IH]; intros st Hr Hq; [reflexivity|].
  inversion Hq as [|? ? Hu Hms]; subst.
  cbn [process_matches]. destruct (isFontFile u) eqn:Ef.
  - destruct (Hu Ef) as [Hh Hp].
    rewrite (@processAsset_quiet env pool u true st Hr Hh Hp).
    apply IH; [now apply reach_progress|exact Hms].
  - apply IH; [now apply reach_progress|exact Hms].
Qed.

(** The elements of a tree that is visited: names kept, attributes
    rewritten by the function, the text below each element kept. *)
Lemma visit_rel (env : Env) (pool : AssetPool)
      (R : jsstring -> Attrs -> Attrs -> Prop)
      (f : jsstring -> Attrs -> BState -> Attrs * BState) :
  (forall nm a s, reachable env pool s ->
                  reachable env pool (snd (f nm a s))
                  /\ R nm a (fst (f nm a s))) ->
  forall n s,
    reachable env pool s ->
    reachable env pool (snd (visit f n s))
    /\ Forall2 (fun e e' =>
                  el_name e' = el_name e
                  /\ R (el_name e) (el_attrs e) (el_attrs e')
                  /\ flat_map textContent (el_children e')
                     = flat_map textContent (el_children e))
               (elements n) (elements (fst (visit f n s))).
Proof.
  intros Hf n.
  induction n as [d|nm a ch IH] using Node_ind; intros s Hs;
    [split; [exact Hs|constructor]|].
  cbn [visit]. destruct (Hf nm a s Hs) as [H1 HR].
  destruct (f nm a s) as [a' s1]. cbn [fst snd] in H1, HR.
  set (go := fix go (l : list Node) (s : BState) {struct l}
               : list Node * BState :=
               match l with
               | [] => ([], s)
               | c :: r =>
                   let '(c', s') := visit f c s in
                   let '(r', s'') := go r s' in (c' :: r', s'')
               end).
  assert (G : forall s0,
             reachable env pool s0 ->
             reachable env pool (snd (go ch s0))
             /\ Forall2 (fun e e' =>
                           el_name e' = el_name e
                           /\ R (el_name e) (el_attrs e) (el_attrs e')
                           /\ flat_map textContent (el_children e')
                              = flat_map textContent (el_children e))
                        (flat_map elements ch)
                        (flat_map elements (fst (go ch s0)))
             /\ flat_map textContent (fst (go ch s0))
                = flat_map textContent ch).
  { induction IH as [|c r Hc _ IHr]; intros s0 H0;
      [split; [exact H0|split; [constructor|reflexivity]]|].
    cbn [go]. destruct (Hc s0 H0) as [A1 A2].
    pose proof (proj1 (visit_keeps_text f c s0)) as A3.
    destruct (visit f c s0) as [c' s']. cbn [fst snd] in A1, A2, A3.
    destruct (IHr s' A1) as (B1 & B2 & B3).
    destruct (go r s') as [r' s'']. cbn [fst snd] in *.
    split; [exact B1|]. split.
    - cbn [flat_map]. now apply Forall2_app.
    - cbn [flat_map]. now rewrite A3, B3. }
  destruct (G s1 H1) as (G1 & G2 & G3).
  destruct (go ch s1) as [ch' s2]. cbn [fst snd] in *.
  split; [exact G1|]. cbn [elements]. constructor; [|exact G2].
  cbn [el_name el_attrs el_children fst snd]. now repeat split.
Qed.

Lemma Forall2_nth (A B : Type) (R : A -> B -> Prop) l l' k x :
  Forall2 R l l' -> nth_error l k = Some x ->
  exists y, nth_error l' k = Some y /\ R x y.
Proof.
  intros H. revert k. induction H as [|a b l l' Hab _ IH]; intros k E.
  - destruct k; discriminate E.
  - destruct k as [|k]; cbn [nth_error] in *.
    + injection E as <-. now exists b.
    + now apply IH.
Qed.

Lemma Forall2_filter (A B : Type) (R : A -> B -> Prop)
      (p : A -> bool) (q : B -> bool) l l' :
  Forall2 (fun x y => q y = p x /\ (p x = true -> R x y)) l l' ->
  Forall2 R (filter p l) (filter q l').
Proof.
  induction 1 as [|a b l l' [Hq Hab] _ IH]; [constructor|].
  cbn [filter]. rewrite Hq. destruct (p a); [|exact IH].
  constructor; [now apply Hab|exact IH].
Qed.

Lemma style_pass_text_only env pool total ch :
  forallb is_text ch = true ->
  forall st,
    (fix go (l : list Node) (st : BState) {struct l} :=
       match l with
       | [] => ([], st)
       | c :: r =>
           let '(c', st1) := style_pass env pool total c st in
           let '(r', st2) := go r st1 in (c' :: r', st2)
       end) ch st = (ch, st).
Proof.
  induction ch as [|[nm a l|d] r IH]; cbn [forallb is_text andb];
    [reflexivity|discriminate|].
  intros H st. cbn [style_pass]. now rewrite (IH H).
Qed.

Lemma text_children_no_elements (ch : list Node) :
  forallb is_text ch = true -> flat_map elements ch = [].
Proof.
  induction ch as [|[nm a l|d] r IH]; cbn [forallb is_text andb];
    [reflexivity|discriminate|].
  intros H. cbn [flat_map elements]. now rewrite IH.
Qed.

(** The style elements of a tree with plain style elements after the
    style pass: attributes kept, and the text kept where resolution
    passes over every font reference of the style sheet. *)
Lemma style_pass_styles env pool total n :
  plain_styles n = true ->
  forall st,
    reachable env pool st ->
    Forall2 (fun e e' =>
               el_attrs e' = el_attrs e
               /\ (Forall (quiet env pool)
                          (UrlRegex.matchAll
                             (flat_map textContent (el_children e))) ->
                   flat_map textContent (el_children e')
                   = flat_map textContent (el_children e)))
            (getElementsByTagName (js "style") n)
            (getElementsByTagName (js "style")
               (fst (style_pass env pool total n st))).
Proof.
  unfold getElementsByTagName.
  induction n as [d|nm a ch IH] using Node_ind; intros Hp st Hr;
    [constructor|].
  cbn [plain_styles] in Hp. apply andb_true_iff in Hp as [Hs Hc].
  cbn [style_pass].
  set (go := fix go (l : list Node) (st : BState) {struct l} :=
               match l with
               | [] => ([], st)
               | c :: r =>
                   let '(c', st1) := style_pass env pool total c st in
                   let '(r', st2) := go r st1 in (c' :: r', st2)
               end).
  destruct (JS.eqb nm (js "style")) eqn:En.
  - apply eqb_eq in En. subst nm.
    pose proof (style_pass_text_only env pool total ch Hs) as Hg.
    fold go in Hg.
    destruct (UrlRegex.matchAll (flat_map textContent ch)) as [|u ms] eqn:Em.
    + rewrite Hg. cbn [fst elements filter el_name].
      change (JS.eqb (js "style") (js "style")) with true. cbn iota.
      rewrite (text_children_no_elements _ Hs). cbn [filter].
      constructor; [|constructor]. now split.
    + pose proof (@process_matches_quiet env pool total (u :: ms)
                    (flat_map textContent ch) st Hr) as Hq.
      destruct (process_matches env pool total (u :: ms)
                  (flat_map textContent ch) st) as [css' st1].
      cbn [fst] in Hq.
      rewrite Hg. cbn [fst elements filter el_name flat_map app].
      change (JS.eqb (js "style") (js "style")) with true. cbn iota.
      rewrite (text_children_no_elements _ Hs). cbn [filter].
      constructor; [|constructor].
      cbn [el_attrs el_children fst snd flat_map textContent].
      split; [reflexivity|]. intros Q. rewrite app_nil_r.
      rewrite Em in Q. now apply Hq.
  - assert (G : forall s0,
               reachable env pool s0 ->
               Forall2 (fun e e' =>
                          el_attrs e' = el_attrs e
                          /\ (Forall (quiet env pool)
                                     (UrlRegex.matchAll
                                        (flat_map textContent
                                                  (el_children e))) ->
                              flat_map textContent (el_children e')
                              = flat_map textContent (el_children e)))
                       (filter (fun e => JS.eqb (js "style") (el_name e))
                               (flat_map elements ch))
                       (filter (fun e => JS.eqb (js "style") (el_name e))
                               (flat_map elements (fst (go ch s0))))).
    { clear Hs. induction IH as [|c r Hc0 _ IHr]; intros s0 H0;
        [constructor|].
      cbn [forallb] in Hc. apply andb_true_iff in Hc as [Hc1 Hc2].
      cbn [go]. pose proof (Hc0 Hc1 s0 H0) as A.
      pose proof (@style_pass_reachable env pool total c s0 H0) as A1.
      destruct (style_pass env pool total c s0) as [c' s1].
      cbn [fst snd] in A, A1.
      pose proof (IHr Hc2 s1 A1) as B.
      destruct (go r s1) as [r' s2]. cbn [fst] in *.
      cbn [flat_map]. rewrite !filter_app. now apply Forall2_app. }
    pose proof (G st Hr) as G1. destruct (go ch st) as [ch' st'].
    cbn [fst] in *. cbn [elements filter el_name fst].
    rewrite eqb_sym, En. exact G1.
Qed.

(** C4, amended.  During asset resolution, a reference that does not
    start with the letters http (the test by which the code takes a
    reference for a network address) and whose file name has no match in
    the pool is passed over, and NO error is recorded for it:
    [processAsset] returns null and leaves the state as it is, the step
    of the image keeps its attributes and the step of the reference in a
    style sheet keeps the text.  In the whole of a call the only errors
    recorded are failed loads, each Failed to load, the reference, a
    colon and the message, of references that start with http, so none
    names this reference.  In a document whose style elements hold text
    only, the returned markup has every image with such a reference at
    its place and with the attributes it had, and every style element
    at its place with its attributes and, where resolution passes over
    each of its font references, with its text.  (A style sheet in which
    another reference resolves is rewritten at the first occurrence of
    the text of that reference, which may lie within this one.) *)
Theorem unmatched_relative_reference_is_silent
        (env : Env) (pool : AssetPool) :
  (forall st href,
      reachable env pool st ->
      startsWith (js "http") href = false ->
      pool_get (getFilename env href) pool = None ->
      (forall isFont, processAsset env pool href isFont st = (None, st))
      /\ (forall totalItems a,
            truthy (or_else (getAttribute (js "href") a)
                            (getAttribute (js "xlink:href") a)) = Some href ->
            process_image env pool totalItems a st
            = (a, updateProgress totalItems st))
      /\ (forall totalItems css,
            process_matches env pool totalItems [href] css st
            = (css, updateProgress totalItems st))
      /\ (forall totalItems a,
            b_errors (snd (process_image env pool totalItems a st))
            = b_errors st
            \/ exists e,
                b_errors (snd (process_image env pool totalItems a st))
                = b_errors st ++ [e] /\ network_error e))
  /\ (forall doc r,
        bundleResources env doc pool = inr r ->
        (forall e, In e (r_errors r) ->
                   exists href message,
                     e = js "Failed to load " ++ href ++ js ": " ++ message
                     /\ startsWith (js "http") href = true)
        /\ (forall href message,
              startsWith (js "http") href = false ->
              ~ In (js "Failed to load " ++ href ++ js ": " ++ message)
                   (r_errors r))
        /\ (plain_styles doc = true ->
            (forall k x href,
                nth_error (labels doc) k = Some x ->
                fst x = js "image" ->
                truthy (or_else (getAttribute (js "href") (snd x))
                                (getAttribute (js "xlink:href") (snd x)))
                = Some href ->
                startsWith (js "http") href = false ->
                pool_get (getFilename env href) pool = None ->
                nth_error (labels (content r)) k = Some x)
            /\ (forall k e,
                  nth_error (getElementsByTagName (js "style") doc) k
                  = Some e ->
                  exists e',
                    nth_error (getElementsByTagName (js "style") (content r))
                              k = Some e'
                    /\ el_attrs e' = el_attrs e
                    /\ ((forall u,
                            In u (UrlRegex.matchAll
                                    (flat_map textContent (el_children e))) ->
                            isFontFile u = true ->
                            startsWith (js "http") u = false
                            /\ pool_get (getFilename env u) pool = None) ->
                        flat_map textContent (el_children e')
                        = flat_map textContent (el_children e))))).
Proof.
  split.
  - intros st href Hr Hh Hp.
    assert (PA : forall isFont,
               processAsset env pool href isFont st = (None, st))
      by (intros isFont; now apply processAsset_quiet).
    split; [exact PA|]. split; [|split].
    + intros total a Ha. unfold process_image. now rewrite Ha, PA.
    + intros total css. cbn [process_matches].
      destruct (isFontFile href); [now rewrite PA|reflexivity].
    + intros total a. rewrite process_image_snd.
      destruct (truthy (or_else (getAttribute (js "href") a)
                                (getAttribute (js "xlink:href") a))) as [h|];
        [|now left].
      apply processAsset_errors.
  - intros doc r Hb.
    pose proof (@bundleResources_errors env pool doc r Hb) as Hall.
    split; [|split].
    + intros e He. exact (proj1 (Forall_forall _ _) Hall e He).
    + intros href m Hh Hin.
      apply (proj1 (Forall_forall _ _) Hall) in Hin.
      apply (@load_error_names_http href m) in Hin. congruence.
    + intros Hp. unfold bundleResources in Hb.
      destruct (getElementsByTagName (js "parsererror") doc);
        [|discriminate Hb].
      set (total := _ + _) in Hb.
      set (F := fun nm a st => if JS.eqb nm (js "image")
                               then process_image env pool total a st
                               else (a, st)).
      set (R := fun (nm : jsstring) (a a' : Attrs) =>
                  (JS.eqb nm (js "image") = false -> a' = a)
                  /\ (forall href,
                         truthy (or_else (getAttribute (js "href") a)
                                         (getAttribute (js "xlink:href") a))
                         = Some href ->
                         startsWith (js "http") href = false ->
                         pool_get (getFilename env href) pool = None ->
                         a' = a)).
      assert (HF : forall nm a s,
                 reachable env pool s ->
                 reachable env pool (snd (F nm a s))
                 /\ R nm a (fst (F nm a s))).
      { intros nm a s Hs. unfold F, R.
        destruct (JS.eqb nm (js "image")).
        - split; [now apply process_image_reachable|].
          split; [discriminate|]. intros href Ha Hh Hq.
          unfold process_image.
          rewrite Ha.
          now rewrite (@processAsset_quiet env pool href false s Hs Hh Hq).
        - split; [exact Hs|]. now split. }
      destruct (visit_rel R F HF doc (reach_initial env pool)) as [R1 V].
      destruct (visit_frame F (js "data-tags")) with (n := doc) (s := initial)
        as (_ & P1 & _).
      { intros nm a s. unfold F. destruct (JS.eqb nm (js "image"));
          [apply process_image_other; discriminate|reflexivity]. }
      unfold image_pass in Hb. fold F in Hb.
      destruct (visit F doc initial) as [doc1 st1].
      cbn [fst snd] in R1, V, P1. rewrite Hp in P1.
      pose proof (style_pass_labels env pool total doc1 st1 P1) as L2.
      pose proof (@style_pass_styles env pool total doc1 P1 st1 R1) as S2.
      destruct (style_pass env pool total doc1 st1) as [doc2 st2].
      cbn [fst] in L2, S2. injection Hb as <-. cbn [content].
      split.
      * intros k x href Hk Hn Ha Hh Hq. rewrite L2.
        unfold labels in Hk |- *.
        rewrite nth_error_map in Hk |- *.
        destruct (nth_error (elements doc) k) as [e|] eqn:Ee;
          [|discriminate Hk].
        cbn [option_map] in Hk. injection Hk as <-.
        destruct (@Forall2_nth _ _ _ _ _ k e V Ee)
          as (e' & Ee' & Hn' & [_ HR] & _).
        rewrite Ee'. cbn [option_map]. f_equal.
        unfold label. cbn [fst snd] in *.
        rewrite Hn'. f_equal. now apply (HR href).
      * intros k e Hk.
        assert (V1 : Forall2
                       (fun e e' =>
                          el_attrs e' = el_attrs e
                          /\ flat_map textContent (el_children e')
                             = flat_map textContent (el_children e))
                       (getElementsByTagName (js "style") doc)
                       (getElementsByTagName (js "style") doc1)).
        { unfold getElementsByTagName. apply Forall2_filter.
          eapply Forall2_impl; [|exact V].
          intros x y (Hn & [HR _] & Ht). cbn beta.
          split; [now rewrite Hn|]. intros Es.
          split; [|exact Ht]. apply HR.
          apply eqb_eq in Es. now rewrite <- Es. }
        destruct (@Forall2_nth _ _ _ _ _ k e V1 Hk) as (e1 & E1 & A1 & T1).
        destruct (@Forall2_nth _ _ _ _ _ k e1 S2 E1) as (e2 & E2 & A2 & T2).
        exists e2. split; [exact E2|]. split; [congruence|].
        intros Q. rewrite T2, T1; [reflexivity|].
        rewrite T1. apply Forall_forall. intros u Hu Hf.
        exact (Q u Hu Hf).
Qed.

Lemma unmatched_relative_reference_is_silent_witness :
  processAsset Sample.env [] (js "pics/a.jpg") false initial
  = (None, initial)
  /\ exists r,
      bundleResources Sample.env Sample.lettered [] = inr r
      /\ r_errors r = []
      /\ nth_error (labels (content r)) 2
         = Some (js "image", [(js "href", js "pics/a.jpg")])
      /\ exists e,
          nth_error (getElementsByTagName (js "style") (content r)) 0
          = Some e
          /\ el_attrs e = []
          /\ flat_map textContent (el_children e)
             = js "url(x/a.woff2) url(a.woff)".
Proof.
  destruct (unmatched_relative_reference_is_silent Sample.env [])
    as [A B].
  split.
  - apply (proj1 (A initial (js "pics/a.jpg")
                    (reach_initial Sample.env []) eq_refl eq_refl)).
  - eexists. split; [vm_compute; reflexivity|].
    split; [reflexivity|].
    match goal with
    | |- nth_error (labels (content ?r)) _ = _ /\ _ =>
        destruct (B Sample.lettered r eq_refl) as (_ & _ & B3)
    end.
    destruct (B3 eq_refl) as [I S]. split.
    + apply (I 2 (js "image", [(js "href", js "pics/a.jpg")])
               (js "pics/a.jpg")); reflexivity.
    + destruct (S 0 (js "style", [],
                     [Text (js "url(x/a.woff2) url(a.woff)")]) eq_refl)
        as (e & E1 & E2 & E3).
      exists e. split; [exact E1|]. split; [exact E2|].
      apply E3. intros u Hu _.
      destruct Hu as [<-|[<-|[]]]; split; reflexivity.
Defined.

(** In a style sheet where one font reference resolves, the text is
    rewritten at the first occurrence of the text of that reference:
    here inside another reference, which has no match in the pool. *)
Lemma resolved_reference_rewrites_first_occurrence :
  pool_get (getFilename Sample.env (js "x/a.woff2"))
           [(js "a.woff", Sample.jpeg)] = None
  /\ exists r,
      bundleResources Sample.env Sample.lettered
                      [(js "a.woff", Sample.jpeg)] = inr r
      /\ r_errors r = []
      /\ flat_map textContent
           (flat_map el_children
                     (getElementsByTagName (js "style") (content r)))
         = js "url(x/fonts/a.woff2) url(a.woff)".
Proof.
  split; [reflexivity|].
  eexists. split; [vm_compute; reflexivity|]. split; reflexivity.
Qed.

(** A path that starts with the letters http is fetched like a network
    address, and the failure of the fetch is recorded for it. *)
Lemma path_with_http_prefix_is_fetched :
  exists r,
    bundleResources offline_env Sample.http_folder [] = inr r
    /\ content r = Sample.http_folder
    /\ r_errors r = [js "Failed to load http_images/a.jpg: Failed to fetch"].
Proof.
  eexists. split; [vm_compute; reflexivity|]. split; reflexivity.
Qed.

(** ** Redaction through the inlining *)

Lemma plain_map_attrs f n :
  plain_styles (map_attrs f n) = plain_styles n
  /\ is_text (map_attrs f n) = is_text n.
Proof.
  induction n as [d|nm a ch IH] using Node_ind; [now split|].
  split; [|reflexivity]. cbn [map_attrs plain_styles].
  assert (G : forallb is_text (map (map_attrs f) ch) = forallb is_text ch
              /\ forallb plain_styles (map (map_attrs f) ch)
                 = forallb plain_styles ch).
  { induction IH as [|c r [Hp Ht] _ IHr]; [now split|].
    destruct IHr as [I1 I2]. cbn [map forallb].
    now rewrite Hp, Ht, I1, I2. }
  destruct G as [-> ->]. reflexivity.
Qed.

Lemma plain_erase n :
  plain_styles (erase n) = plain_styles n /\ is_text (erase n) = is_text n.
Proof.
  induction n as [d|nm a ch IH] using Node_ind; [now split|].
  split; [|reflexivity]. cbn [erase plain_styles].
  assert (G : forallb is_text (map erase ch) = forallb is_text ch
              /\ forallb plain_styles (map erase ch)
                 = forallb plain_styles ch).
  { induction IH as [|c r [Hp Ht] _ IHr]; [now split|].
    destruct IHr as [I1 I2]. cbn [map forallb].
    now rewrite Hp, Ht, I1, I2. }
  destruct G as [-> ->]. reflexivity.
Qed.

Lemma append_plain tag c n n' :
  append_to_first tag c n = Some n' ->
  JS.eqb tag (js "style") = false ->
  plain_styles c = true ->
  plain_styles n = true ->
  plain_styles n' = true /\ is_text n = false.
Proof.
  intros Ha Ht Hc. revert n' Ha.
  induction n as [d|nm a ch IH] using Node_ind; intros n' Ha Hp;
    [discriminate Ha|].
  split; [|reflexivity]. cbn [append_to_first] in Ha.
  cbn [plain_styles] in Hp. apply andb_true_iff in Hp as [Hs Hch].
  destruct (JS.eqb tag nm) eqn:En.
  - injection Ha as <-. apply eqb_eq in En. subst nm.
    cbn [plain_styles]. rewrite Ht.
    rewrite forallb_app, Hch. cbn [forallb]. now rewrite Hc.
  - set (go := fix go (l : list Node) : option (list Node) :=
                 match l with
                 | [] => None
                 | x :: r =>
                     match append_to_first tag c x with
                     | Some x' => Some (x' :: r)
                     | None => match go r with
                               | Some r' => Some (x :: r')
                               | None => None
                               end
                     end
                 end) in Ha.
    assert (G : forall ch', go ch = Some ch' ->
                forallb plain_styles ch = true ->
                forallb plain_styles ch' = true
                /\ forallb is_text ch = false).
    { clear Ha Hs Hch. induction IH as [|x r Hx _ IHr]; intros ch' E Hf;
        [discriminate E|].
      cbn [forallb] in Hf. apply andb_true_iff in Hf as [Hf1 Hf2].
      cbn [go] in E. destruct (append_to_first tag c x) as [x'|].
      - injection E as <-. destruct (Hx x' eq_refl Hf1) as [P T].
        cbn [forallb]. now rewrite P, T, Hf2.
      - destruct (go r) as [r'|]; [|discriminate E]. injection E as <-.
        destruct (IHr r' eq_refl Hf2) as [P T].
        cbn [forallb]. rewrite Hf1, P, T. now rewrite andb_false_r. }
    destruct (go ch) as [ch'|]; [|discriminate Ha]. injection Ha as <-.
    destruct (G ch' eq_refl Hch) as [P T].
    cbn [plain_styles]. rewrite P.
    destruct (JS.eqb nm (js "style")); [congruence|reflexivity].
Qed.

Lemma plain_blur_filter s : plain_styles (blur_filter s) = true.
Proof. reflexivity. Qed.

(** The redaction keeps style elements plain, in a document whose root
    is not one. *)
Lemma plain_redact nm a ch :
  JS.eqb nm (js "style") = false ->
  plain_styles (Elem nm a ch) = true ->
  plain_styles (redact (Elem nm a ch)) = true.
Proof.
  intros Hn Hp. unfold redact.
  rewrite <- (proj1 (plain_erase _)), erase_redact_text,
    (proj1 (plain_erase _)).
  unfold redact_images.
  destruct (imagesToRedact (Elem nm a ch)); [exact Hp|].
  rewrite (proj1 (plain_map_attrs _ _)).
  assert (P1 : plain_styles (ensure_defs (Elem nm a ch)) = true).
  { unfold ensure_defs.
    destruct (getElementsByTagName (js "defs") (Elem nm a ch));
      [|exact Hp].
    cbn [plain_styles] in Hp |- *. rewrite Hn in Hp |- *.
    cbn [forallb plain_styles]. exact Hp. }
  destruct (getElementById FILTER_ID (ensure_defs (Elem nm a ch)));
    [exact P1|].
  destruct (append_to_first _ _ _) as [d|] eqn:Ea; [|exact P1].
  exact (proj1 (append_plain _ _ _ Ea eq_refl (plain_blur_filter _) P1)).
Qed.

Lemma embed_styles_labels env pool file n :
  plain_styles n = true ->
  labels (embed_styles env pool file n) = labels n.
Proof.
  induction n as [d|nm a ch IH] using Node_ind; intros Hp; [reflexivity|].
  cbn [plain_styles] in Hp. apply andb_true_iff in Hp as [Hs Hc].
  cbn [embed_styles]. destruct (JS.eqb nm (js "style")).
  - rewrite !labels_Elem, (text_children_no_labels _ Hs).
    now destruct (embed_css env pool file _ _).
  - rewrite !labels_Elem. f_equal.
    induction IH as [|c r Hc0 _ IHr]; [reflexivity|].
    cbn [forallb] in Hc. apply andb_true_iff in Hc as [Hc1 Hc2].
    cbn [map flat_map]. now rewrite Hc0, IHr.
Qed.

Lemma existsb_flat_map (A B : Type) (p : B -> bool) (f : A -> list B) l :
  existsb p (flat_map f l) = existsb (fun x => existsb p (f x)) l.
Proof.
  induction l as [|x l IH]; [reflexivity|].
  cbn [flat_map existsb]. now rewrite existsb_app, IH.
Qed.

Lemma defs_hold_blur_Elem nm a ch :
  defs_hold_blur (Elem nm a ch)
  = JS.eqb (js "defs") nm && existsb is_blur ch
    || existsb defs_hold_blur ch.
Proof.
  unfold defs_hold_blur. cbn [elements existsb el_name el_children fst snd].
  now rewrite existsb_flat_map.
Qed.

Lemma existsb_text (p : Node -> bool) ch :
  (forall d, p (Text d) = false) ->
  forallb is_text ch = true -> existsb p ch = false.
Proof.
  intros Hp. induction ch as [|[nm a l|d] r IH]; cbn [forallb is_text andb];
    [reflexivity|discriminate|].
  intros H. cbn [existsb]. now rewrite Hp, IH.
Qed.

Lemma embed_styles_blur env pool file n :
  plain_styles n = true ->
  defs_hold_blur (embed_styles env pool file n) = defs_hold_blur n
  /\ is_blur (embed_styles env pool file n) = is_blur n
  /\ is_gaussian_blur (embed_styles env pool file n) = is_gaussian_blur n.
Proof.
  induction n as [d|nm a ch IH] using Node_ind; intros Hp;
    [now repeat split|].
  cbn [plain_styles] in Hp. apply andb_true_iff in Hp as [Hs Hc].
  cbn [embed_styles]. destruct (JS.eqb nm (js "style")) eqn:En.
  - apply eqb_eq in En. subst nm.
    assert (E : defs_hold_blur (Elem (js "style") a ch) = false).
    { rewrite defs_hold_blur_Elem. cbn [andb orb].
      change (JS.eqb (js "defs") (js "style")) with false. cbn [andb orb].
      now apply existsb_text. }
    rewrite E.
    destruct (embed_css env pool file _ _); now repeat split.
  - rewrite !defs_hold_blur_Elem. cbn [is_blur is_gaussian_blur].
    assert (G : existsb is_blur (map (embed_styles env pool file) ch)
                = existsb is_blur ch
                /\ existsb defs_hold_blur
                     (map (embed_styles env pool file) ch)
                   = existsb defs_hold_blur ch
                /\ existsb is_gaussian_blur
                     (map (embed_styles env pool file) ch)
                   = existsb is_gaussian_blur ch).
    { induction IH as [|c r Hc0 _ IHr]; [now repeat split|].
      cbn [forallb] in Hc. apply andb_true_iff in Hc as [Hc1 Hc2].
      destruct (Hc0 Hc1) as (A1 & A2 & A3).
      destruct (IHr Hc2) as (B1 & B2 & B3).
      cbn [map existsb]. now rewrite A1, A2, A3, B1, B2, B3. }
    destruct G as (-> & -> & ->). now repeat split.
Qed.

Lemma definitions_map_attrs f n :
  (forall nm a, getAttribute (js "id") (f nm a) = getAttribute (js "id") a) ->
  definitions (map_attrs f n) = definitions n.
Proof.
  intros Hf. unfold definitions. rewrite labels_map_attrs.
  induction (labels n) as [|x l IH]; [reflexivity|].
  cbn [map filter].
  assert (E : lab_definition (fst x, f (fst x) (snd x)) = lab_definition x)
    by (unfold lab_definition; cbn [fst snd]; now rewrite Hf).
  rewrite E. destruct (lab_definition x); cbn [List.length]; now rewrite IH.
Qed.

(** X23.  What the export rasterizes keeps the redaction of images.
    After redaction and the inlining of assets, every image to redact (an
    image element whose tag annotation contains redact, in any case of
    letters) has the filter attribute url(#redact-blur), whatever the
    inlining resolves.  The definition stays as well, in a document
    whose root is not a style element, whose style elements hold text
    only and where no element other than a filter element carries the id
    redact-blur: the inlining keeps the number of filter elements with
    that id, which is not zero when there is an image to redact, and
    where the redaction has created the blur filter (a filter element
    with the id, holding a Gaussian blur of deviation 150) it is still
    the child of a definitions section. *)
Theorem exported_images_stay_blurred
        (env : Env) (pool : AssetPool) (file : ProcessedSVG)
        (nm : jsstring) (a : Attrs) (ch : list Node) :
  (forall e, In e (elements (embedAssets env pool (redact (Elem nm a ch))
                                         file)) ->
             redaction_target e ->
             getAttribute (js "filter") (el_attrs e)
             = Some (js "url(#redact-blur)"))
  /\ (nm <> js "style" ->
      plain_styles (Elem nm a ch) = true ->
      id_is_reserved (Elem nm a ch) ->
      definitions (embedAssets env pool (redact (Elem nm a ch)) file)
      = definitions (redact (Elem nm a ch))
      /\ ((exists e, In e (elements (Elem nm a ch)) /\ redaction_target e) ->
          definitions (embedAssets env pool (redact (Elem nm a ch)) file)
          <> 0
          /\ (definitions (Elem nm a ch) = 0 ->
              defs_hold_blur
                (embedAssets env pool (redact (Elem nm a ch)) file)
              = true))).
Proof.
  set (doc := Elem nm a ch).
  set (F := fun nm a => if JS.eqb nm (js "image")
                        then embed_image env pool file a else a).
  split.
  - destruct (redact_counts doc) as (_ & _ & Tf).
    intros e He Ht. apply target_spec in Ht.
    assert (G : getAttribute (js "filter") (el_attrs e) = Some filter_ref);
      [|exact G].
    revert e He Ht. unfold embedAssets. fold F.
    destruct (getElementsByTagName (js "parsererror") (redact doc));
      [|exact Tf].
    intros e He Ht.
    apply embed_styles_elements in He as (e0 & He0 & El).
    rewrite (elements_transform (map_attrs F) F) in He0;
      [|reflexivity|intros d; now exists d].
    apply in_map_iff in He0 as (e1 & <- & He1).
    unfold label in El. cbn [el_name el_attrs fst snd] in El.
    injection El as En Ea.
    unfold is_target_image in Ht. rewrite En, Ea in Ht. rewrite Ea.
    apply andb_true_iff in Ht as [Hn Hs].
    assert (Hi : JS.eqb (el_name e1) (js "image") = true)
      by (now rewrite eqb_sym).
    unfold F in Hs |- *. rewrite Hi in Hs |- *.
    rewrite embed_image_other by discriminate.
    apply (Tf e1 He1). unfold is_target_image. rewrite Hn. cbn [andb].
    unfold shouldRedact in *.
    now rewrite embed_image_other in Hs by discriminate.
  - intros Hn Hp Hres. apply eqb_neq in Hn.
    pose proof (@plain_redact nm a ch Hn Hp) as Hp1. fold doc in Hp1.
    assert (E : definitions (embedAssets env pool (redact doc) file)
                = definitions (redact doc)
                /\ defs_hold_blur (embedAssets env pool (redact doc) file)
                   = defs_hold_blur (redact doc)).
    { unfold embedAssets. fold F.
      destruct (getElementsByTagName (js "parsererror") (redact doc));
        [|now split].
      assert (Hp2 : plain_styles (map_attrs F (redact doc)) = true)
        by (now rewrite (proj1 (plain_map_attrs _ _))).
      split.
      - unfold definitions at 1.
        rewrite (@embed_styles_labels env pool file _ Hp2).
        apply (definitions_map_attrs F). intros n0 a0. unfold F.
        destruct (JS.eqb n0 (js "image")); [|reflexivity].
        now apply embed_image_other.
      - rewrite (proj1 (@embed_styles_blur env pool file _ Hp2)).
        apply (defs_hold_blur_transform (map_attrs F) F);
          [reflexivity|intros d; now exists d|].
        intros n0 a0 H0. unfold F. rewrite eqb_sym in H0. now rewrite H0. }
    destruct E as [E1 E2]. split; [exact E1|].
    intros He. rewrite E1, E2.
    pose proof (redact_keeps_reserved Hres) as Hres1.
    rewrite (reserved_count Hres1), (reserved_count Hres).
    apply targets_exist in He.
    destruct (redact_counts doc) as (C & _ & _).
    assert (Hpos : targets (labels doc) <> 0).
    { rewrite <- target_count_labels. destruct (imagesToRedact doc);
        [congruence|discriminate]. }
    apply Nat.eqb_neq in Hpos. rewrite Hpos in C.
    split; [lia|]. intros H0.
    apply redact_defs_hold_blur; [exact He|].
    now apply getElementById_count.
Qed.

Lemma exported_images_stay_blurred_witness :
  definitions (embedAssets Sample.env [] (redact Sample.tagged_image)
                           Sample.page_a)
  = 1
  /\ defs_hold_blur (embedAssets Sample.env [] (redact Sample.tagged_image)
                                 Sample.page_a)
     = true.
Proof.
  assert (Hres : id_is_reserved Sample.tagged_image).
  { intros e He. cbn in He.
    destruct He as [<-|[<-|[]]]; discriminate. }
  assert (Ht : exists e, In e (elements Sample.tagged_image)
                         /\ redaction_target e).
  { exists (js "image", [(js "href", js "images/a.jpg");
                         (js "data-tags", js "Redact-Image")], []).
    split; [cbn; tauto|].
    split; [reflexivity|]. exists (js "Redact-Image"). now split. }
  destruct (exported_images_stay_blurred
              Sample.env [] Sample.page_a (js "svg") []
              [Elem (js "image")
                    [(js "href", js "images/a.jpg");
                     (js "data-tags", js "Redact-Image")] []])
    as (_ & H).
  destruct (H ltac:(discriminate) eq_refl Hres) as (E & H2).
  destruct (H2 Ht) as (_ & H3).
  split; [exact (eq_trans E eq_refl)|exact (H3 eq_refl)].
Defined.

(** ** The archive and the collection *)

Lemma pool_get_app k (l r : AssetPool) :
  pool_get k (l ++ r)
  = match pool_get k l with Some b => Some b | None => pool_get k r end.
Proof.
  induction l as [|[k' v] l IH]; [reflexivity|].
  cbn [app pool_get]. now destruct (JS.eqb k k').
Qed.

Lemma pool_get_In k b (l : AssetPool) : pool_get k l = Some b -> In (k, b) l.
Proof.
  induction l as [|[k' v] l IH]; [discriminate|].
  cbn [pool_get]. destruct (JS.eqb k k') eqn:E.
  - intros [= ->]. apply eqb_eq in E. subst. now left.
  - intros H. right. now apply IH.
Qed.

Lemma In_pool_get k b (l : AssetPool) :
  In (k, b) l -> exists b', pool_get k l = Some b'.
Proof.
  induction l as [|[k' v] l IH]; [intros []|].
  cbn [pool_get]. intros [H|H]; destruct (JS.eqb k k') eqn:E;
    try (now eexists).
  - injection H as -> ->. now rewrite eqb_refl in E.
  - now apply IH.
Qed.

Lemma pool_get_names k (l : AssetPool) :
  In k (map fst l) <-> exists b, pool_get k l = Some b.
Proof.
  split.
  - intros H. apply in_map_iff in H as ([k' b] & E & H). cbn in E. subst k'.
    now apply In_pool_get in H.
  - intros (b & H). apply pool_get_In in H.
    apply in_map_iff. now exists (k, b).
Qed.

Lemma filed_start : filed [] {| zip_markup := []; zip_images := [];
                                zip_fonts := []; addedAssets := [] |}.
Proof.
  unfold filed, zip_assets. cbn. repeat split; try tauto; try constructor;
    try discriminate; intros [].
Qed.

Lemma filed_markup adds name data z :
  filed adds z -> filed adds (zip_file name data z).
Proof. intros H. exact H. Qed.

Lemma filed_add adds n0 b0 z :
  filed adds z -> filed (adds ++ [(n0, b0)]) (addAssetToZip n0 b0 z).
Proof.
  intros (Hn & Hf & Hi & Ha & Hc). unfold addAssetToZip.
  destruct (existsb (JS.eqb n0) (addedAssets z)) eqn:E.
  - (* already there *)
    apply has_In in E. apply Ha, in_map_iff in E as ([n' b'] & E' & E).
    cbn in E'. subst n'. apply Hc in E.
    split; [exact Hn|]. split; [exact Hf|]. split; [exact Hi|].
    split; [exact Ha|]. intros n b. rewrite Hc, pool_get_app.
    destruct (pool_get n adds) eqn:G; [tauto|].
    cbn [pool_get]. destruct (JS.eqb n n0) eqn:F;
      [|split; discriminate].
    apply eqb_eq in F. subst n. congruence.
  - (* a new name *)
    apply has_not_In in E.
    assert (Hnew : pool_get n0 adds = None).
    { destruct (pool_get n0 adds) eqn:G; [|reflexivity].
      exfalso. apply E, Ha, in_map_iff. exists (n0, b).
      split; [reflexivity|now apply Hc]. }
    assert (Hnot : ~ In n0 (map fst (zip_assets z)))
      by (intros H; now apply E, Ha).
    assert (Hlook : forall n b,
               pool_get n (adds ++ [(n0, b0)]) = Some b
               <-> pool_get n adds = Some b \/ (n = n0 /\ b = b0)).
    { intros n b. rewrite pool_get_app. cbn [pool_get].
      destruct (pool_get n adds) eqn:G.
      - split; [now left|]. intros [H|[-> _]]; [exact H|congruence].
      - destruct (JS.eqb n n0) eqn:F.
        + apply eqb_eq in F. subst. split; [intros [= ->]; now right|].
          intros [H|[_ ->]]; [discriminate|reflexivity].
        + apply eqb_neq in F. split; [discriminate|].
          intros [H|[-> _]]; [discriminate|congruence]. }
    assert (Hmem : forall n, In n (addedAssets z ++ [n0])
                             <-> In n (map fst (zip_assets z)) \/ n = n0).
    { intros n. rewrite in_app_iff, Ha. cbn [In]. intuition auto. }
    assert (Hent : forall n b,
               (In (n, b) (zip_assets z) \/ (n, b) = (n0, b0))
               <-> pool_get n (adds ++ [(n0, b0)]) = Some b).
    { intros n b. rewrite Hlook, Hc. split.
      - intros [H|[= -> ->]]; auto.
      - intros [H|[-> ->]]; auto. }
    unfold zip_assets in *.
    destruct (isFontFile n0) eqn:Font; unfold filed, zip_assets;
      cbn [zip_images zip_fonts addedAssets].
    + split; [|split; [|split; [|split]]].
      * rewrite app_assoc, map_app. cbn [map fst].
        apply NoDup_app; [exact Hn|repeat constructor; intros []|].
        intros x Hx [<-|[]]. now apply Hnot.
      * intros n b H. apply in_app_iff in H as [H|[[= <- <-]|[]]];
          [now apply (Hf n b)|exact Font].
      * exact Hi.
      * intros n. rewrite Hmem, app_assoc, !map_app, !in_app_iff.
        cbn [map fst In]. intuition auto.
      * intros n b. rewrite <- Hent, app_assoc, !in_app_iff.
        cbn [In]. intuition (auto; congruence).
    + split; [|split; [|split; [|split]]].
      * rewrite <- app_assoc, map_app. cbn [app map fst].
        apply (NoDup_Add (a := n0)
                 (l := map fst (zip_images z ++ zip_fonts z)));
          [|split; [exact Hn|exact Hnot]].
        rewrite map_app. apply Add_app.
      * exact Hf.
      * intros n b H. apply in_app_iff in H as [H|[[= <- <-]|[]]];
          [now apply (Hi n b)|exact Font].
      * intros n. rewrite Hmem, !map_app, !in_app_iff.
        cbn [map fst In]. intuition auto.
      * intros n b. rewrite <- Hent, !in_app_iff.
        cbn [In]. intuition (auto; congruence).
Qed.

Lemma filed_adds (more : list (jsstring * Blob)) adds z :
  filed adds z ->
  filed (adds ++ more)
        (fold_left (fun z kv => addAssetToZip (fst kv) (snd kv) z) more z).
Proof.
  revert adds z. induction more as [|[n b] more IH]; intros adds z H.
  - now rewrite app_nil_r.
  - cbn [fold_left fst snd].
    change (adds ++ (n, b) :: more) with (adds ++ [(n, b)] ++ more).
    rewrite app_assoc. apply IH. now apply filed_add.
Qed.

Lemma filed_document adds z f :
  filed adds z ->
  filed (adds ++ map (fun a => (localFileName a, blob a)) (assets f))
        (add_document z f).
Proof.
  intros H. unfold add_document.
  assert (H1 : filed adds
                 match processedContent f with
                 | Some c => zip_file (file_name (originalFile f)) (redact c) z
                 | None => z
                 end) by (destruct (processedContent f); exact H).
  revert H1. generalize (match processedContent f with
                         | Some c =>
                             zip_file (file_name (originalFile f)) (redact c) z
                         | None => z
                         end) as z1.
  generalize adds. induction (assets f) as [|a l IH]; intros ad z1 H1.
  - now rewrite app_nil_r.
  - cbn [fold_left map].
    change (ad ++ (localFileName a, blob a)
               :: map (fun a0 => (localFileName a0, blob a0)) l)
      with (ad ++ [(localFileName a, blob a)]
               ++ map (fun a0 => (localFileName a0, blob a0)) l).
    rewrite app_assoc. apply IH. now apply filed_add.
Qed.

Lemma filed_documents files adds z :
  filed adds z ->
  filed (adds ++ file_assets files) (fold_left add_document files z).
Proof.
  revert adds z. induction files as [|f r IH]; intros adds z H.
  - unfold file_assets. cbn. now rewrite app_nil_r.
  - cbn [fold_left]. unfold file_assets. cbn [flat_map].
    rewrite app_assoc. apply IH. now apply filed_document.
Qed.

Lemma downloadZip_filed st z :
  downloadZip st = Some z ->
  filed (preloadedAssets st ++ file_assets (getValidFiles st)) z.
Proof.
  unfold downloadZip. destruct (getValidFiles st) as [|f r] eqn:E;
    [discriminate|].
  intros [= <-]. apply (filed_documents (f :: r)).
  apply (filed_adds (preloadedAssets st) (adds := [])). apply filed_start.
Qed.

(** X15.  In a saved archive no asset name is filed twice, in either
    folder or across them, every entry of the fonts folder has a font
    extension and no entry of the images folder has one. *)
Theorem archive_files_each_asset_once (st : AppState) (z : Zip) :
  downloadZip st = Some z ->
  NoDup (map fst (zip_assets z))
  /\ (forall n b, In (n, b) (zip_fonts z) -> isFontFile n = true)
  /\ (forall n b, In (n, b) (zip_images z) -> isFontFile n = false).
Proof.
  intros H. apply downloadZip_filed in H as (H1 & H2 & H3 & _).
  now repeat split.
Qed.

(** X16.  A saved archive holds every asset of the pool under its name
    and with its blob, holds an entry for the name of every asset of
    every exported document, and holds nothing else: an entry that is not
    of the pool is an asset of an exported document, under a name that the
    pool does not have.  So where a document brings an asset under a name
    of the pool, the blob of the pool is the one archived. *)
Theorem archive_assets_are_complete (st : AppState) (z : Zip) :
  downloadZip st = Some z ->
  (forall n b, pool_get n (preloadedAssets st) = Some b ->
               In (n, b) (zip_assets z))
  /\ (forall f a, In f (getValidFiles st) -> In a (assets f) ->
                  exists b, In (localFileName a, b) (zip_assets z))
  /\ (forall n b, In (n, b) (zip_assets z) ->
                  pool_get n (preloadedAssets st) = Some b
                  \/ (pool_get n (preloadedAssets st) = None
                      /\ exists f a, In f (getValidFiles st)
                                     /\ In a (assets f)
                                     /\ localFileName a = n
                                     /\ blob a = b)).
Proof.
  intros H. apply downloadZip_filed in H as (_ & _ & _ & _ & Hc).
  split; [|split].
  - intros n b Hp. apply Hc. rewrite pool_get_app. now rewrite Hp.
  - intros f a Hf Ha.
    assert (Hin : In (localFileName a, blob a)
                     (preloadedAssets st ++ file_assets (getValidFiles st))).
    { apply in_app_iff. right. unfold file_assets. apply in_flat_map.
      exists f. split; [exact Hf|]. apply in_map_iff. now exists a. }
    apply In_pool_get in Hin as (b' & Hb). exists b'. now apply Hc.
  - intros n b Hin. apply Hc in Hin. rewrite pool_get_app in Hin.
    destruct (pool_get n (preloadedAssets st)) as [b'|] eqn:G;
      [now left|right].
    split; [reflexivity|]. apply pool_get_In in Hin.
    unfold file_assets in Hin. apply in_flat_map in Hin as (f & Hf & Hin).
    apply in_map_iff in Hin as (a & [= <- <-] & Ha). now exists f, a.
Qed.

Lemma archive_files_each_asset_once_witness :
  exists z, downloadZip shelf = Some z
            /\ NoDup (map fst (zip_assets z))
            /\ map fst (zip_fonts z) = [js "f.woff"].
Proof.
  eexists. split; [reflexivity|].
  split; [|reflexivity].
  now apply (archive_files_each_asset_once shelf).
Defined.

Lemma archive_assets_are_complete_witness :
  exists z, downloadZip shelf = Some z
            /\ In (js "a.jpg", Sample.jpeg) (zip_assets z).
Proof.
  eexists. split; [reflexivity|].
  apply (archive_assets_are_complete shelf); reflexivity.
Defined.

Lemma pool_get_set k k' v (m : AssetPool) :
  pool_get k (pool_set k' v m)
  = if JS.eqb k k' then Some v else pool_get k m.
Proof.
  induction m as [|[k0 v0] m IH]; [reflexivity|].
  cbn [pool_set]. destruct (JS.eqb k' k0) eqn:E; cbn [pool_get].
  - apply eqb_eq in E. subst k0. now destruct (JS.eqb k k').
  - rewrite IH. destruct (JS.eqb k k0) eqn:F; [|reflexivity].
    apply eqb_eq in F. subst k0. rewrite eqb_sym in E. now rewrite E.
Qed.

Lemma pool_set_names k v (m : AssetPool) :
  map fst (pool_set k v m)
  = if pool_has k m then map fst m else map fst m ++ [k].
Proof.
  unfold pool_has. induction m as [|[k0 v0] m IH]; [reflexivity|].
  cbn [pool_set pool_get]. destruct (JS.eqb k k0); [reflexivity|].
  cbn [map fst]. rewrite IH. now destruct (pool_get k m).
Qed.

Lemma pool_sets_lookup (newAssets : list (jsstring * Blob)) pool k :
  pool_get k (fold_left (fun m a => pool_set (fst a) (snd a) m)
                        newAssets pool)
  = match pool_get k (rev newAssets) with
    | Some b => Some b
    | None => pool_get k pool
    end.
Proof.
  revert pool. induction newAssets as [|[n b] l IH]; intros pool;
    [reflexivity|].
  cbn [fold_left rev fst snd]. rewrite IH, pool_get_app, pool_get_set.
  cbn [pool_get]. now destruct (pool_get k (rev l)), (JS.eqb k n).
Qed.

Lemma pool_sets_names (newAssets : list (jsstring * Blob)) pool :
  NoDup (map fst pool) ->
  NoDup (map fst (fold_left (fun m a => pool_set (fst a) (snd a) m)
                            newAssets pool)).
Proof.
  revert pool. induction newAssets as [|[n b] l IH]; intros pool H;
    [exact H|].
  cbn [fold_left fst snd]. apply IH. rewrite pool_set_names.
  unfold pool_has. destruct (pool_get n pool) eqn:E; [exact H|].
  apply NoDup_app; [exact H|repeat constructor; intros []|].
  intros x Hx [<-|[]]. apply pool_get_names in Hx as (b' & Hx). congruence.
Qed.

Lemma new_entries_fresh env n newFiles :
  map originalFile (new_entries env n newFiles) = newFiles
  /\ Forall (fun f => status f = IDLE /\ assets f = [] /\ errors f = []
                      /\ processedContent f = file_text (originalFile f))
            (new_entries env n newFiles).
Proof.
  revert n. induction newFiles as [|f r IH]; intros n; cbn [new_entries map].
  - split; constructor.
  - destruct (IH (S n)) as [E F]. split; [now rewrite E|].
    constructor; [now repeat split|exact F].
Qed.

(** X17.  Dropping files: the pool then answers a name with the last
    dropped asset of that name, and with what it held before for every
    other name, and it stays a map (no name twice); the documents
    already in the collection stay in place, and one entry per dropped
    document is appended, idle, without assets or errors, holding the
    parsed text of its file. *)
Theorem dropped_assets_replace_by_name
        (env : Env) (newFiles : list File)
        (newAssets : list (jsstring * Blob)) (st : AppState) :
  let st' := handleFilesAdded env newFiles newAssets st in
  (forall k, pool_get k (preloadedAssets st')
             = match pool_get k (rev newAssets) with
               | Some b => Some b
               | None => pool_get k (preloadedAssets st)
               end)
  /\ (NoDup (map fst (preloadedAssets st)) ->
      NoDup (map fst (preloadedAssets st')))
  /\ exists added,
      app_files st' = app_files st ++ added
      /\ map originalFile added = newFiles
      /\ Forall (fun f => status f = IDLE /\ assets f = [] /\ errors f = []
                          /\ processedContent f = file_text (originalFile f))
                added.
Proof.
  cbn zeta. unfold handleFilesAdded. cbn [preloadedAssets app_files].
  split; [intros k; apply pool_sets_lookup|].
  split; [apply pool_sets_names|].
  exists (new_entries env (app_ids st) newFiles).
  split; [reflexivity|]. apply new_entries_fresh.
Qed.

Lemma dropped_assets_replace_by_name_witness :
  NoDup (map fst (preloadedAssets
                    (handleFilesAdded Sample.env []
                       [(js "a.jpg", [1]%N); (js "a.jpg", [2]%N)] shelf))).
Proof.
  apply (dropped_assets_replace_by_name Sample.env []
           [(js "a.jpg", [1]%N); (js "a.jpg", [2]%N)] shelf).
  repeat constructor; cbn; intuition discriminate.
Defined.




(** ** Tagging *)

Import TaggingEditor.

Lemma toggled_well_formed (active : list jsstring) (a : Attrs) :
  NoDup active -> Forall well_formed_tag active ->
  ~ In [] (currentTags a) ->
  Forall well_formed_tag (toggle active (currentTags a)).
Proof.
  intros Hnd Hwf Hemp. apply Forall_forall. intros x Hx.
  apply (toggle_In (currentTags a) x Hnd) in Hx as [[Hx _]|[_ Hx]].
  - split; [intros ->; contradiction|].
    exact (proj1 (Forall_forall _ _) (currentTags_free a) x Hx).
  - exact (proj1 (Forall_forall _ _) Hwf x Hx).
Qed.

(** X19.  A click on an element flips each active tag on it and nothing
    else: a name is in the tag set afterwards exactly when it was there
    and is not active, or was not there and is active; and every
    attribute other than the tag annotation reads as before.  (The
    active tags are a set of names that are not empty and hold no comma,
    and the annotation holds no empty name.) *)
Theorem click_flips_each_active_tag (active : list jsstring) (a : Attrs) :
  active <> [] ->
  NoDup active ->
  Forall well_formed_tag active ->
  ~ In [] (tag_set a) ->
  (forall t, In t (tag_set (handleSvgClick active a))
             <-> (In t (tag_set a) /\ ~ In t active)
                 \/ (~ In t (tag_set a) /\ In t active))
  /\ (forall k, k <> js "data-tags" ->
                getAttribute k (handleSvgClick active a) = getAttribute k a).
Proof.
  intros Hne Hnd Hwf Hemp. unfold tag_set in *. split.
  - intros t. rewrite currentTags_after_click.
    + now apply toggle_In.
    + exact Hne.
    + apply toggle_NoDup, currentTags_NoDup.
    + now apply toggled_well_formed.
  - intros k Hk. unfold handleSvgClick.
    destruct active as [|t0 rest]; [congruence|].
    destruct (join comma (toggle (t0 :: rest) (currentTags a)));
      [now apply getAttribute_remove_other|now apply getAttribute_set_other].
Qed.

Lemma click_flips_each_active_tag_witness :
  getAttribute (js "href")
    (handleSvgClick [js "redact-image"] [(js "href", js "a.jpg")])
  = Some (js "a.jpg").
Proof.
  apply (@click_flips_each_active_tag [js "redact-image"]
           [(js "href", js "a.jpg")]).
  - discriminate.
  - repeat constructor. intros [].
  - repeat constructor; [discriminate|].
    cbn. intuition discriminate.
  - intros [].
  - discriminate.
Defined.

Lemma add_absorb (l : list jsstring) (acc : TagSet) :
  (forall t, In t l -> In t acc) ->
  fold_left (fun s t => add t s) l acc = acc.
Proof.
  induction l as [|x l IH]; intros H; cbn [fold_left]; [reflexivity|].
  assert (E : add x acc = acc).
  { unfold add. now rewrite (proj2 (has_In x acc) (H x (or_introl eq_refl))). }
  rewrite E. apply IH. intros t Ht. apply H. now right.
Qed.

Lemma applyTags_tags (T : TagSet) (a : Attrs) :
  Forall well_formed_tag T ->
  ~ In [] (currentTags a) ->
  currentTags (applyTags T a)
  = fold_left (fun s t => add t s) T (currentTags a)
  /\ JS.eqb (join comma (fold_left (fun s t => add t s) T (currentTags a)))
            match getAttribute (js "data-tags") (applyTags T a) with
            | Some s => s
            | None => []
            end = true.
Proof.
  intros Hwf Hemp.
  destruct (set_of_acc T (currentTags_NoDup a)) as [Nu Mu].
  assert (Fu : Forall (fun w => ~ In comma w)
                      (fold_left (fun s t => add t s) T (currentTags a))).
  { apply Forall_forall. intros x Hx. apply Mu in Hx as [Hx|Hx].
    - exact (proj1 (Forall_forall _ _) (currentTags_free a) x Hx).
    - exact (proj2 (proj1 (Forall_forall _ _) Hwf x Hx)). }
  assert (Eu : ~ In [] (fold_left (fun s t => add t s) T (currentTags a))).
  { intros Hx. apply Mu in Hx as [Hx|Hx]; [contradiction|].
    now apply (proj1 (proj1 (Forall_forall _ _) Hwf [] Hx)). }
  unfold applyTags. cbv zeta.
  remember (currentTags a) as cur eqn:Hcur.
  remember (fold_left (fun s t => add t s) T cur) as u eqn:Hu.
  clear Mu Hu.
  destruct (JS.eqb (join comma u)
                   match getAttribute (js "data-tags") a with
                   | Some s => s
                   | None => []
                   end) eqn:E.
  - split; [|exact E]. rewrite <- Hcur. apply eqb_eq in E.
    unfold currentTags in Hcur.
    destruct (getAttribute (js "data-tags") a) as [[|c s]|];
      cbn [truthy] in Hcur.
    + destruct u as [|w l]; [exact Hcur|].
      exfalso. apply (@join_not_empty w l); [|exact E].
      intros ->. apply Eu. now left.
    + rewrite Hcur, <- E, split_join; [now apply set_of_fixed| |exact Fu].
      intros ->. discriminate E.
    + destruct u as [|w l]; [exact Hcur|].
      exfalso. apply (@join_not_empty w l); [|exact E].
      intros ->. apply Eu. now left.
  - rewrite getAttribute_set_same. split; [|apply eqb_refl].
    unfold currentTags. rewrite getAttribute_set_same.
    destruct u as [|w l]; [reflexivity|].
    assert (Hw : w <> []) by (intros ->; apply Eu; now left).
    pose proof (join_not_empty l Hw) as Hj.
    destruct (join comma (w :: l)) as [|c j] eqn:Ej; [congruence|].
    cbn [truthy]. rewrite <- Ej, split_join;
      [now apply set_of_fixed|discriminate|exact Fu].
Qed.

Lemma applyTags_settled (T : TagSet) (a : Attrs) :
  Forall well_formed_tag T ->
  ~ In [] (currentTags a) ->
  applyTags T (applyTags T a) = applyTags T a
  /\ TagCommands.changes T (applyTags T a) = false.
Proof.
  intros Hwf Hemp.
  destruct (applyTags_tags a Hwf Hemp) as [Ht Hq].
  destruct (set_of_acc T (currentTags_NoDup a)) as [_ Mu].
  assert (Ab : fold_left (fun s t => add t s) T
                         (fold_left (fun s t => add t s) T (currentTags a))
               = fold_left (fun s t => add t s) T (currentTags a)).
  { apply add_absorb. intros t Ht'. apply Mu. now right. }
  remember (applyTags T a) as a' eqn:Ha'. clear Ha'.
  unfold applyTags, TagCommands.changes. cbv zeta.
  rewrite Ht, Ab, Hq. now split.
Qed.

Lemma applyTags_other (T : TagSet) (a : Attrs) k :
  k <> js "data-tags" -> getAttribute k (applyTags T a) = getAttribute k a.
Proof.
  intros Hk. unfold applyTags. cbv zeta.
  destruct (JS.eqb _ _); [reflexivity|now apply getAttribute_set_other].
Qed.

Lemma map_attrs_idem_on f n :
  (forall x, In x (labels n) ->
             f (fst x) (f (fst x) (snd x)) = f (fst x) (snd x)) ->
  map_attrs f (map_attrs f n) = map_attrs f n.
Proof.
  induction n as [d|nm a ch IH] using Node_ind; intros H; [reflexivity|].
  cbn [map_attrs]. rewrite labels_Elem in H.
  pose proof (H (nm, a) (or_introl eq_refl)) as H0.
  cbn [fst snd] in H0. rewrite H0.
  f_equal. rewrite map_map. apply map_ext_Forall_eq.
  rewrite Forall_forall in *. intros c Hc. apply (IH c Hc).
  intros x Hx. apply H. right. apply in_flat_map. now exists c.
Qed.

(** X20.  Applying the active tags to every element of a name only adds:
    text and elements stay, every attribute other than the tag
    annotation reads as before, an element of another name is untouched,
    and the tag set of an element of that name becomes the union of what
    it had and the active tags.  Applying them a second time changes
    nothing and reports no modification.  (The names applied are not
    empty and hold no comma, and no annotation holds an empty name.) *)
Theorem applied_tags_are_a_union
        (doc : Node) (tagName : jsstring) (tags : list jsstring) :
  Forall well_formed_tag tags ->
  (forall e, In e (elements doc) -> ~ In [] (tag_set (el_attrs e))) ->
  let doc' := fst (TagCommands.applyTagsToElements doc tagName tags) in
  text_leaves doc' = text_leaves doc
  /\ (forall k x,
        nth_error (labels doc) k = Some x ->
        exists a',
          nth_error (labels doc') k = Some (fst x, a')
          /\ (forall key, key <> js "data-tags" ->
                          getAttribute key a' = getAttribute key (snd x))
          /\ if JS.eqb tagName (fst x)
             then forall t, In t (tag_set a')
                            <-> In t (tag_set (snd x)) \/ In t tags
             else a' = snd x)
  /\ TagCommands.applyTagsToElements doc' tagName tags = (doc', false).
Proof.
  intros Hwf Hemp. cbn zeta. unfold TagCommands.applyTagsToElements.
  cbn [fst]. unfold tag_set in *.
  set (F := fun nm a => if JS.eqb tagName nm then applyTags tags a else a).
  assert (Hlab : forall x, In x (labels doc) -> ~ In [] (currentTags (snd x))).
  { intros x Hx. apply in_map_iff in Hx as (e & <- & He).
    now apply Hemp. }
  split; [apply text_leaves_map_attrs|]. split.
  - intros k x Hk. exists (F (fst x) (snd x)).
    split; [rewrite labels_map_attrs, nth_error_map, Hk; reflexivity|].
    assert (Hx : In x (labels doc)) by (eapply nth_error_In; exact Hk).
    unfold F. destruct (JS.eqb tagName (fst x)).
    + split; [intros key Hkey; now apply applyTags_other|].
      intros t.
      rewrite (proj1 (applyTags_tags (snd x) Hwf (Hlab x Hx))).
      apply (set_of_acc tags (currentTags_NoDup (snd x))).
    + now split.
  - f_equal.
    + apply map_attrs_idem_on. intros x Hx. unfold F.
      destruct (JS.eqb tagName (fst x)); [|reflexivity].
      apply (applyTags_settled (snd x) Hwf (Hlab x Hx)).
    + destruct (existsb _ _) eqn:E; [|reflexivity]. exfalso.
      apply existsb_exists in E as (e & He & Hc).
      unfold getElementsByTagName in He. apply filter_In in He as [He Hn].
      rewrite (elements_transform (map_attrs F) F) in He;
        [|reflexivity|intros d; now exists d].
      apply in_map_iff in He as (e0 & <- & He0).
      cbn [el_name el_attrs fst snd] in Hn, Hc. unfold F in Hc.
      rewrite Hn in Hc.
      rewrite (proj2 (applyTags_settled (el_attrs e0) Hwf (Hemp e0 He0)))
        in Hc.
      discriminate.
Qed.

Lemma applied_tags_are_a_union_witness :
  TagCommands.applyTagsToElements
    (fst (TagCommands.applyTagsToElements Sample.tagged_image (js "image")
            [js "redact-image"]))
    (js "image") [js "redact-image"]
  = (fst (TagCommands.applyTagsToElements Sample.tagged_image (js "image")
            [js "redact-image"]), false).
Proof.
  apply (@applied_tags_are_a_union Sample.tagged_image (js "image")
           [js "redact-image"]).
  - repeat constructor; [discriminate|]. cbn. intuition discriminate.
  - intros e He. cbn in He.
    destruct He as [<-|[<-|[]]]; cbn; intuition discriminate.
Defined.

(** X21.  The tag registry, from its two built-in tags and under any
    sequence of additions, each one seeing the registry that the one
    before it left, never lists a name twice, keeps the tags it has in
    their order and in front, and lists exactly the built-in tags and the
    names added. *)
Theorem registry_lists_each_tag_once (added : list jsstring) :
  let registry :=
    fold_left (fun l t => TagCommands.handleAddTag t l) added
              TagCommands.initialTags in
  NoDup registry
  /\ (exists rest, registry = TagCommands.initialTags ++ rest)
  /\ (forall t, In t registry
                <-> In t TagCommands.initialTags \/ In t added).
Proof.
  cbn zeta.
  change (fun l t => TagCommands.handleAddTag t l)
    with (fun s t => add t s).
  assert (N0 : NoDup TagCommands.initialTags).
  { repeat constructor; cbn; intuition discriminate. }
  destruct (set_of_acc added N0) as [Hn Hm].
  split; [exact Hn|]. split; [|exact Hm].
  clear. generalize TagCommands.initialTags as acc.
  induction added as [|t l IH]; intros acc; cbn [fold_left].
  - exists []. now rewrite app_nil_r.
  - destruct (IH (add t acc)) as (rest & ->). unfold add.
    destruct (has t acc); [now exists rest|].
    exists (t :: rest). now rewrite <- app_assoc.
Qed.

(** ** Reordering *)

Lemma filter_all (A : Type) (p : A -> bool) (l : list A) :
  (forall x, In x l -> p x = true) -> filter p l = l.
Proof.
  induction l as [|x l IH]; intros H; [reflexivity|].
  cbn [filter]. rewrite (H x (or_introl eq_refl)). f_equal.
  apply IH. intros y Hy. apply H. now right.
Qed.

Lemma filter_none (A : Type) (p : A -> bool) (l : list A) :
  (forall x, In x l -> p x = false) -> filter p l = [].
Proof.
  induction l as [|x l IH]; intros H; [reflexivity|].
  cbn [filter]. rewrite (H x (or_introl eq_refl)).
  apply IH. intros y Hy. apply H. now right.
Qed.

Lemma Permutation_filter_split (A : Type) (p : A -> bool) (l : list A) :
  Permutation l (filter p l ++ filter (fun x => negb (p x)) l).
Proof.
  induction l as [|x l IH]; [constructor|].
  cbn [filter]. destruct (p x); cbn [negb app].
  - now constructor.
  - now apply Permutation_cons_app.
Qed.

Lemma insertionIndex_spec (tid : jsstring) (l : list ProcessedSVG) :
  (exists f, In f l /\ id f = tid) ->
  exists t after,
    skipn (ReorderEditor.insertionIndex tid l) l = t :: after
    /\ id t = tid
    /\ Forall (fun f => id f <> tid)
              (firstn (ReorderEditor.insertionIndex tid l) l).
Proof.
  induction l as [|x l IH]; intros (f & Hf & E); [destruct Hf|].
  cbn [ReorderEditor.insertionIndex].
  destruct (JS.eqb (id x) tid) eqn:Ex.
  - exists x, l. apply eqb_eq in Ex. repeat split; [exact Ex|constructor].
  - apply eqb_neq in Ex. destruct Hf as [->|Hf]; [contradiction|].
    destruct IH as (t & after & Hs & Ht & Hb); [now exists f|].
    exists t, after. cbn [skipn firstn]. repeat split; auto.
Qed.

Lemma handleDrop_shape files sel d dropIndex newOrder :
  ReorderEditor.handleDrop files sel (Some d) dropIndex = Some newOrder ->
  exists target,
    nth_error files dropIndex = Some target
    /\ ReorderEditor.selected (dragged files sel d) target = false
    /\ newOrder
       = firstn (ReorderEditor.insertionIndex (id target)
                   (filter (fun f => negb (ReorderEditor.selected
                                             (dragged files sel d) f))
                           files))
                (filter (fun f => negb (ReorderEditor.selected
                                          (dragged files sel d) f)) files)
         ++ filter (ReorderEditor.selected (dragged files sel d)) files
         ++ skipn (ReorderEditor.insertionIndex (id target)
                     (filter (fun f => negb (ReorderEditor.selected
                                               (dragged files sel d) f))
                             files))
                  (filter (fun f => negb (ReorderEditor.selected
                                            (dragged files sel d) f)) files).
Proof.
  unfold ReorderEditor.handleDrop, dragged.
  destruct sel as [|s0 sel].
  - destruct (nth_error files d) as [f|]; [|discriminate].
    destruct (nth_error files dropIndex) as [target|]; [|discriminate].
    destruct (existsb (JS.eqb (id target)) [id f]) eqn:E; [discriminate|].
    intros [= <-]. now exists target.
  - destruct (nth_error files dropIndex) as [target|]; [|discriminate].
    destruct (existsb (JS.eqb (id target)) (s0 :: sel)) eqn:E;
      [discriminate|].
    intros [= <-]. now exists target.
Qed.

(** X22.  A drop that reorders loses and duplicates no page: the new
    order is a permutation of the old one; the moved pages keep their
    relative order, and so do the others; and the moved pages stand
    together, right before the first remaining page that has the
    identifier of the page dropped on, which is not one of them. *)
Theorem drop_moves_the_selection_together
        (files : list ProcessedSVG) (selectedIds : list jsstring)
        (d dropIndex : nat) (newOrder : list ProcessedSVG) :
  ReorderEditor.handleDrop files selectedIds (Some d) dropIndex
  = Some newOrder ->
  let moved := ReorderEditor.selected (dragged files selectedIds d) in
  Permutation files newOrder
  /\ filter moved newOrder = filter moved files
  /\ filter (fun f => negb (moved f)) newOrder
     = filter (fun f => negb (moved f)) files
  /\ exists before target after,
      newOrder = before ++ filter moved files ++ target :: after
      /\ (exists t0, nth_error files dropIndex = Some t0
                     /\ id target = id t0)
      /\ moved target = false
      /\ Forall (fun f => id f <> id target) before.
Proof.
  intros H. cbn zeta.
  apply handleDrop_shape in H as (t0 & Hn & Hsel & ->).
  set (moved := ReorderEditor.selected (dragged files selectedIds d)) in *.
  set (R := filter (fun f => negb (moved f)) files).
  set (M := filter moved files).
  set (i := ReorderEditor.insertionIndex (id t0) R).
  assert (HR : forall x, In x R -> moved x = false).
  { intros x Hx. apply filter_In in Hx as [_ Hx].
    now apply negb_true_iff in Hx. }
  assert (HM : forall x, In x M -> moved x = true).
  { intros x Hx. now apply filter_In in Hx as [_ Hx]. }
  assert (S1 : filter moved (firstn i R) = [] /\ filter moved (skipn i R) = []).
  { apply app_eq_nil. rewrite <- filter_app, firstn_skipn.
    now apply filter_none. }
  assert (S2 : filter (fun f => negb (moved f)) (firstn i R)
               ++ filter (fun f => negb (moved f)) (skipn i R) = R).
  { rewrite <- filter_app, firstn_skipn. apply filter_all.
    intros x Hx. now rewrite (HR x Hx). }
  destruct (@insertionIndex_spec (id t0) R) as (t & after & Hs & Ht & Hb).
  { exists t0. split; [|reflexivity]. apply filter_In.
    split; [eapply nth_error_In; exact Hn|now rewrite Hsel]. }
  fold i in Hs, Hb.
  split; [|split; [|split]].
  - transitivity (M ++ R); [apply Permutation_filter_split|].
    rewrite <- (firstn_skipn i R) at 1. apply Permutation_app_swap_app.
  - rewrite !filter_app. destruct S1 as [-> ->].
    rewrite app_nil_r. cbn [app]. apply filter_all. exact HM.
  - rewrite !filter_app.
    rewrite (@filter_none _ (fun f => negb (moved f)) M).
    + exact S2.
    + intros x Hx. now rewrite (HM x Hx).
  - exists (firstn i R), t, after. rewrite Hs.
    split; [reflexivity|]. split; [now exists t0|].
    split.
    + apply HR. rewrite <- (firstn_skipn i R), Hs.
      apply in_app_iff. right. now left.
    + rewrite Ht. exact Hb.
Qed.

Lemma drop_moves_the_selection_together_witness :
  Permutation [Sample.page_a; Sample.page_b; Sample.page_null]
              [Sample.page_b; Sample.page_a; Sample.page_null].
Proof.
  apply (@drop_moves_the_selection_together
           [Sample.page_a; Sample.page_b; Sample.page_null] [] 0 2
           [Sample.page_b; Sample.page_a; Sample.page_null]).
  reflexivity.
Defined.
